(** * ElegantRL agents ([elegantrl/agent.py]): a shallow embedding

    The update engine of the agents is embedded as state-passing code in a
    small state-and-exception monad.  Tensor entries and the Python floats
    computed from them are real numbers ([R]): the rounding of tensor
    arithmetic is idealised away.  Integer sizes and loop indices are [Z].
    The numbers that decide how often a loop runs ([now_len], [batch_size],
    [repeat_times] and what [update_net] computes from them) are Python
    numbers: an [int] is a [Z], a [float] is an IEEE 754 binary64 number
    with round-to-nearest-even arithmetic ([SpecFloat]).

    The networks of [elegantrl.net], the Adam optimiser, the replay buffer
    and the random generators are collaborators outside the file: they are
    the fields of the class [Collaborators], and every definition below is
    parametric in them. *)

From Stdlib Require Import Reals Lra Lia ZArith QArith Qround List Bool SpecFloat.
Import ListNotations.

(** ** Python and numpy primitives *)

Module Py.

Inductive exn :=
| AttributeError
| ZeroDivisionError
| OverflowError
| TypeError
| UnboundLocalError
| IndexError
| RuntimeError
| ValueError.

Inductive result (A : Type) :=
| Ok (a : A)
| Raise (e : exn).

Arguments Ok {A} a.
Arguments Raise {A} e.

Definition rbind {A B} (r : result A) (k : A -> result B) : result B :=
  match r with
  | Ok a => k a
  | Raise e => Raise e
  end.

Declare Scope res_scope.
Delimit Scope res_scope with res.
Notation "x <-- c ;; k" := (rbind c (fun x => k))
  (at level 61, c at next level, right associativity) : res_scope.

(** A Python [float]: an IEEE 754 binary64 number.  Its operations round
    to nearest, ties to even. *)
Definition float : Type := spec_float.
Definition prec : Z := 53.
Definition emax : Z := 1024.

(** A number a caller passes: an [int] or a [float]. *)
Inductive number :=
| PyInt (z : Z)
| PyFloat (x : float).

Definition is_zero (x : float) : bool :=
  match x with
  | S754_zero _ => true
  | _ => false
  end.

(** [float(z)] on an int, as the mixed operations apply it: the nearest
    float, [OverflowError] when there is none. *)
Definition float_of_int (z : Z) : result float :=
  match binary_normalize prec emax z 0 false with
  | S754_infinity _ => Raise OverflowError
  | x => Ok x
  end.

Definition to_float (a : number) : result float :=
  match a with
  | PyInt z => float_of_int z
  | PyFloat x => Ok x
  end.

(** [a / b] on two ints: the exact quotient, rounded once. *)
Definition int_truediv (a b : Z) : result float :=
  if (b =? 0)%Z then Raise ZeroDivisionError
  else
    match a with
    | Z0 => Ok (S754_zero (b <? 0)%Z)
    | _ =>
        match SFdiv prec emax (S754_finite (a <? 0)%Z (Z.to_pos (Z.abs a)) 0)
                              (S754_finite (b <? 0)%Z (Z.to_pos (Z.abs b)) 0) with
        | S754_infinity _ => Raise OverflowError
        | x => Ok x
        end
    end.

(** [a / b]: true division; with a float operand both are floats first,
    and a zero divisor is a [ZeroDivisionError]. *)
Definition truediv (a b : number) : result number :=
  match a, b with
  | PyInt x, PyInt y => (q <-- int_truediv x y ;; Ok (PyFloat q))%res
  | _, _ =>
      (x <-- to_float a ;;
       y <-- to_float b ;;
       if is_zero y then Raise ZeroDivisionError else Ok (PyFloat (SFdiv prec emax x y)))%res
  end.

(** [a * b] and [a + b]: exact on two ints, rounded on floats (an overflow
    gives an infinity, not an exception). *)
Definition mul (a b : number) : result number :=
  match a, b with
  | PyInt x, PyInt y => Ok (PyInt (x * y))
  | _, _ =>
      (x <-- to_float a ;;
       y <-- to_float b ;;
       Ok (PyFloat (SFmul prec emax x y)))%res
  end.

Definition add (a b : number) : result number :=
  match a, b with
  | PyInt x, PyInt y => Ok (PyInt (x + y))
  | _, _ =>
      (x <-- to_float a ;;
       y <-- to_float b ;;
       Ok (PyFloat (SFadd prec emax x y)))%res
  end.

(** [int(a)]: truncation toward zero; [ValueError] on a NaN,
    [OverflowError] on an infinity. *)
Definition int (a : number) : result Z :=
  match a with
  | PyInt z => Ok z
  | PyFloat S754_nan => Raise ValueError
  | PyFloat (S754_infinity _) => Raise OverflowError
  | PyFloat (S754_zero _) => Ok 0%Z
  | PyFloat (S754_finite s m e) =>
      let t := (if 0 <=? e then Zpos m * 2 ^ e else Zpos m / 2 ^ (- e))%Z in
      Ok (if s then - t else t)%Z
  end.

(** [i % r == 0] for an int [i].  On ints the remainder is exact.  With a
    float [r], [i] is made a float first and the remainder of two floats is
    zero exactly when the first is a whole multiple of the second; a zero
    [r] is a [ZeroDivisionError], a NaN compares unequal, and an infinite
    [r] leaves only zero a multiple. *)
Definition mod_is_zero (i : Z) (r : number) : result bool :=
  match r with
  | PyInt z => if (z =? 0)%Z then Raise ZeroDivisionError else Ok (i mod z =? 0)%Z
  | PyFloat y =>
      (x <-- float_of_int i ;;
       match y, x with
       | S754_zero _, _ => Raise ZeroDivisionError
       | S754_nan, _ => Ok false
       | _, S754_zero _ => Ok true
       | S754_finite _ my ey, S754_finite _ mx ex =>
           let e := Z.min ex ey in
           Ok ((Zpos mx * 2 ^ (ex - e)) mod (Zpos my * 2 ^ (ey - e)) =? 0)%Z
       | _, _ => Ok false
       end)%res
  end.

(** [a % b] on ints, as a total function; Python raises on [b = 0], which the
    callers below rule out before use. [Z.modulo] has Python's sign rule. *)
Definition imod (a b : Z) : Z := Z.modulo a b.

(** [range(lo, hi)]. *)
Definition range (lo hi : Z) : list Z :=
  map (fun k => (lo + Z.of_nat k)%Z) (seq 0 (Z.to_nat (hi - lo))).

(** [range(n - 1, -1, -1)]. *)
Definition range_down (n : nat) : list nat := rev (seq 0 n).

(** [l[i]] for [0 <= i]. *)
Definition getitem {A} (l : list A) (i : nat) : result A :=
  match nth_error l i with
  | Some x => Ok x
  | None => Raise IndexError
  end.

(** [l[i] = x] for [0 <= i]. *)
Definition setitem {A} (l : list A) (i : nat) (x : A) : result (list A) :=
  if (i <? length l)%nat then Ok (firstn i l ++ x :: skipn (S i) l)
  else Raise IndexError.

(** [l[:k]] and [l[k:]] for [0 <= k]. *)
Definition slice_to {A} (l : list A) (k : nat) : list A := firstn k l.
Definition slice_from {A} (l : list A) (k : nat) : list A := skipn k l.

(** [np.empty(n)]: the cells hold unspecified values; every cell is written
    before it is read in the code that uses it. *)
Definition np_empty (n : nat) : list R := repeat 0%R n.

End Py.

Import Py.

(** ** Tensors *)

Local Open Scope R_scope.

(** A vector or a column of shape [(batch, 1)]. *)
Definition tensor := list R.
(** A tensor of shape [(batch, dim)]: one row per sample. *)
Definition matrix := list (list R).
(** [module.parameters()]: the parameter tensors of a network, in order. *)
Definition params := list tensor.

Definition tmap2 (f : R -> R -> R) (a b : tensor) : tensor :=
  map (fun xy => f (fst xy) (snd xy)) (combine a b).

Definition tadd := tmap2 Rplus.
Definition tsub := tmap2 Rminus.
Definition tmul := tmap2 Rmult.
Definition tmin := tmap2 Rmin.
Definition tscale (a : tensor) (c : R) : tensor := map (fun x => x * c) a.
Definition tabs (a : tensor) : tensor := map Rabs a.
Definition texp (a : tensor) : tensor := map exp a.
Definition tsum (a : tensor) : R := fold_right Rplus 0 a.
Definition tmean (a : tensor) : R := tsum a / INR (length a).
Definition msum (m : matrix) : R := tsum (map tsum m).
Definition mcount (m : matrix) : nat := length (concat m).

(** [t.std()]: the sample standard deviation (Bessel's correction). *)
Definition tstd (a : tensor) : R :=
  let mu := tmean a in
  sqrt (tsum (map (fun x => (x - mu) * (x - mu)) a) / (INR (length a) - 1)).

(** [x.clamp(lo, hi)]. *)
Definition clamp (lo hi x : R) : R := Rmin (Rmax x lo) hi.

(** [torch.nn.SmoothL1Loss], one entry (beta = 1). *)
Definition smooth_l1 (x y : R) : R :=
  let d := Rabs (x - y) in
  if Rlt_dec d 1 then 0.5 * d * d else d - 0.5.

(** [SmoothL1Loss(reduction='none')] and [SmoothL1Loss(reduction='mean')]. *)
Definition criterion_none (input target : tensor) : tensor :=
  tmap2 smooth_l1 input target.
Definition criterion_mean (input target : tensor) : R :=
  tmean (criterion_none input target).
Definition criterion_mean_matrix (input target : matrix) : R :=
  tmean (criterion_none (concat input) (concat target)).

(** [m.max(dim=1, keepdim=True)[0]]: the largest entry of each row. *)
Definition max_of (row : list R) : R :=
  match row with
  | [] => 0
  | x :: xs => fold_left Rmax xs x
  end.
Definition row_max (m : matrix) : tensor := map max_of m.

(** [v.argmax(dim=0)]: the first index that holds the largest entry. *)
Fixpoint argmax_from (best : R) (besti i : Z) (xs : list R) : Z :=
  match xs with
  | [] => besti
  | x :: xs' =>
      if Rlt_dec best x then argmax_from x i (i + 1)%Z xs'
      else argmax_from best besti (i + 1)%Z xs'
  end.
Definition argmax (v : list R) : Z :=
  match v with
  | [] => 0%Z
  | x :: xs => argmax_from x 0%Z 1%Z xs
  end.

(** [torch.nn.Softmax] on one row. *)
Definition softmax (v : list R) : list R :=
  let z := tsum (map exp v) in map (fun x => exp x / z) v.

(** [q.gather(1, action.long())]: per row, the entry at the action's index.
    [long] truncates toward zero ([up x] is the integer just above [x]); the
    replay buffer stores the integer actions the agent selected, so the
    index is a whole number in range. *)
Definition long (x : R) : Z :=
  if Rle_dec 0 x then (up x - 1)%Z else (- (up (- x) - 1))%Z.
Definition gather (q : matrix) (action : matrix) : tensor :=
  map (fun ra => nth (Z.to_nat (long (hd 0 (snd ra)))) (fst ra) 0) (combine q action).

(** ** Objects of an agent *)

(** The network objects an agent can own: the critic and the actor that
    [init] builds, and their deep copies. Which attribute names which
    object is decided by [init] (see [AgentBase.init]): an attribute whose
    target is switched off names the online object itself. *)
Inductive net_obj := ObjCri | ObjAct | ObjCriCopy | ObjActCopy.

Inductive optim_obj := CriOptim | ActOptim | AlphaOptim.

(** What an optimiser was built over: the parameters of a network, or the
    trainable scalar [alpha_log]. *)
Inductive param_ref := PNet (n : net_obj) | PAlphaLog.

Definition net_obj_eqb (a b : net_obj) : bool :=
  match a, b with
  | ObjCri, ObjCri | ObjAct, ObjAct
  | ObjCriCopy, ObjCriCopy | ObjActCopy, ObjActCopy => true
  | _, _ => false
  end.

Definition optim_obj_eqb (a b : optim_obj) : bool :=
  match a, b with
  | CriOptim, CriOptim | ActOptim, ActOptim | AlphaOptim, AlphaOptim => true
  | _, _ => false
  end.

(** The rebound method attributes [get_obj_critic] and [get_reward_sum]. *)
Inductive critic_objective := ObjCriticRaw | ObjCriticPer.
Inductive reward_sum := RewardSumRaw | RewardSumGae.

(** One result of [buffer.sample_batch]; [is_weights] is read only by the
    prioritised objectives. *)
Record batch := {
  reward : tensor;
  mask : tensor;
  action : matrix;
  state : matrix;
  next_s : matrix;
  is_weights : tensor
}.

(** The arrays of an on-policy trajectory batch: [buffer[0]] to [buffer[4]]
    of [AgentPPO.update_net], and the result of [buffer.sample_all()]. *)
Record trajectory_arrays := {
  ary_state : matrix;
  ary_action : matrix;
  ary_noise : matrix;
  ary_reward : tensor;
  ary_mask : tensor
}.

(** The attributes of an agent instance: what [init] binds, the
    hyper-parameters, and the values an update trains or tracks.
    [get_obj_critic_per], [get_reward_sum_raw] and [get_reward_sum_gae] are
    the instance attributes of these names: [AgentBase.__init__] stores
    [None] in them, and an instance attribute hides the method of the same
    name that the class defines. [get_obj_critic_raw] has no such attribute
    and always names the method. *)
Record bindings := {
  cri : option net_obj;
  act : option net_obj;
  cri_target : option net_obj;
  act_target : option net_obj;
  optim_params : optim_obj -> option (list param_ref);
  get_obj_critic : option critic_objective;
  get_obj_critic_per : option critic_objective;
  get_reward_sum : option reward_sum;
  get_reward_sum_raw : option reward_sum;
  get_reward_sum_gae : option reward_sum
}.

Record hyper := {
  action_dim : Z;
  explore_rate : R;
  policy_noise : R;
  update_freq : Z;
  target_entropy : R;
  ratio_clip : R;
  clip : R;
  lambda_entropy : R;
  lambda_gae_adv : R
}.

Record running := {
  alpha_log : R;
  obj_c : R;
  avg_loss_c : R
}.

Record agent := { bound : bindings; hp : hyper; run : running }.

(** The calls an update makes on its collaborators, newest first. *)
Inductive event :=
| OptimUpdate (o : optim_obj)
| SoftUpdate (target current : net_obj)
| LoadStateDict (target source : net_obj)
| TdErrorUpdate (td_error : tensor).

(** What a loss can depend on: the parameters of the networks and
    [alpha_log]. *)
Record vars := { v_nets : net_obj -> params; v_alpha_log : R }.

(** A scalar objective tensor: its value when it was computed ([.item()])
    and, for [backward()], the value as a function of the trainable
    variables (detached parts are constants of the function). *)
Record objective := { item : R; loss : vars -> R }.

(** ** Collaborators *)

Class Collaborators := {
  OptimState : Type;
  Rng : Type;
  Buffer : Type;
  (* elegantrl.net: methods of the network objects *)
  forward : params -> matrix -> matrix;
  forward2 : params -> matrix -> matrix -> tensor;
  get_q1_q2 : params -> matrix -> matrix -> tensor * tensor;
  get_action : params -> matrix -> R -> Rng -> matrix * Rng;
  get_action_logprob : params -> matrix -> Rng -> (matrix * tensor) * Rng;
  get_action_noise : params -> matrix -> Rng -> (matrix * matrix) * Rng;
  get_old_logprob : params -> matrix -> matrix -> tensor;
  get_logprob_entropy : params -> matrix -> matrix -> tensor * R;
  compute_logprob : params -> matrix -> matrix -> tensor;
  next_q_action : params -> matrix -> matrix -> R -> Rng -> (tensor * matrix) * Rng;
  critic : params -> matrix -> matrix -> tensor;
  log_alpha : params -> R;
  a_std_log : params -> tensor;
  sqrt_2pi_log : params -> R;
  (* torch *)
  adam_step : OptimState -> params -> (params -> R) -> OptimState * params;
  randint : Rng -> Z -> Z -> list Z * Rng;
  (* the exception of [torch.cat] on an empty list, whose class is the
     library's choice *)
  cat_empty_error : exn;
  (* the replay buffer *)
  update_now_len : Buffer -> Buffer;
  now_len : Buffer -> Z;
  max_len : Buffer -> Z;
  sample_batch : Buffer -> Z -> batch * Buffer;
  sample_all : Buffer -> trajectory_arrays;
  td_error_update : Buffer -> tensor -> Buffer
}.

(** ** The state an update runs in, and its monad *)

Section World.
Context {C : Collaborators}.

Record world := {
  self : agent;
  nets : net_obj -> params;
  optims : optim_obj -> OptimState;
  rng : Rng;
  buffer : Buffer;
  calls : list event
}.

(** A computation returns or raises, and in both cases leaves a world: what
    it wrote before an exception stays written. *)
Definition M (A : Type) : Type := world -> result A * world.

Definition ret {A} (a : A) : M A := fun w => (Ok a, w).

Definition bind {A B} (c : M A) (k : A -> M B) : M B :=
  fun w =>
    match c w with
    | (Ok a, w') => k a w'
    | (Raise e, w') => (Raise e, w')
    end.

Definition raise {A} (e : exn) : M A := fun w => (Raise e, w).

Definition lift {A} (r : result A) : M A := fun w => (r, w).

Definition get : M world := fun w => (Ok w, w).

Definition set_self (a : agent) (w : world) : world :=
  {| self := a; nets := nets w; optims := optims w; rng := rng w;
     buffer := buffer w; calls := calls w |}.
Definition set_nets (f : net_obj -> params) (w : world) : world :=
  {| self := self w; nets := f; optims := optims w; rng := rng w;
     buffer := buffer w; calls := calls w |}.
Definition set_optims (f : optim_obj -> OptimState) (w : world) : world :=
  {| self := self w; nets := nets w; optims := f; rng := rng w;
     buffer := buffer w; calls := calls w |}.
Definition set_rng (g : Rng) (w : world) : world :=
  {| self := self w; nets := nets w; optims := optims w; rng := g;
     buffer := buffer w; calls := calls w |}.
Definition set_buffer (b : Buffer) (w : world) : world :=
  {| self := self w; nets := nets w; optims := optims w; rng := rng w;
     buffer := b; calls := calls w |}.
Definition set_calls (l : list event) (w : world) : world :=
  {| self := self w; nets := nets w; optims := optims w; rng := rng w;
     buffer := buffer w; calls := l |}.

Definition modify (f : world -> world) : M unit := fun w => (Ok tt, f w).

Definition record (e : event) : M unit :=
  modify (fun w => set_calls (e :: calls w) w).

End World.

Declare Scope py_scope.
Delimit Scope py_scope with py.
Notation "x <- c ;; k" := (bind c (fun x => k))
  (at level 61, c at next level, right associativity) : py_scope.
Notation "' pat <- c ;; k" := (bind c (fun x => match x with pat => k end))
  (at level 61, pat pattern, c at next level, right associativity) : py_scope.
Notation "c ;; k" := (bind c (fun _ => k))
  (at level 61, right associativity) : py_scope.

Local Open Scope py_scope.

(** ** AgentBase *)

Module AgentBase.
Section Defs.
Context {C : Collaborators}.

Definition upd_net (f : net_obj -> params) (n : net_obj) (p : params) : net_obj -> params :=
  fun m => if net_obj_eqb m n then p else f m.

Definition upd_optim (f : optim_obj -> OptimState) (o : optim_obj) (s : OptimState)
  : optim_obj -> OptimState :=
  fun m => if optim_obj_eqb m o then s else f m.

Definition set_run (r : running) (a : agent) : agent :=
  {| bound := bound a; hp := hp a; run := r |}.
Definition set_bound (b : bindings) (a : agent) : agent :=
  {| bound := b; hp := hp a; run := run a |}.
Definition set_hp (h : hyper) (a : agent) : agent :=
  {| bound := bound a; hp := h; run := run a |}.

Definition set_alpha_log (x : R) (a : agent) : agent :=
  set_run {| alpha_log := x; obj_c := obj_c (run a); avg_loss_c := avg_loss_c (run a) |} a.
Definition set_obj_c (x : R) (a : agent) : agent :=
  set_run {| alpha_log := alpha_log (run a); obj_c := x; avg_loss_c := avg_loss_c (run a) |} a.
Definition set_avg_loss_c (x : R) (a : agent) : agent :=
  set_run {| alpha_log := alpha_log (run a); obj_c := obj_c (run a); avg_loss_c := x |} a.

Definition set_get_obj_critic (g : option critic_objective) (a : agent) : agent :=
  set_bound
    {| cri := cri (bound a); act := act (bound a); cri_target := cri_target (bound a);
       act_target := act_target (bound a); optim_params := optim_params (bound a);
       get_obj_critic := g; get_obj_critic_per := get_obj_critic_per (bound a);
       get_reward_sum := get_reward_sum (bound a);
       get_reward_sum_raw := get_reward_sum_raw (bound a);
       get_reward_sum_gae := get_reward_sum_gae (bound a) |} a.
Definition set_get_reward_sum (g : option reward_sum) (a : agent) : agent :=
  set_bound
    {| cri := cri (bound a); act := act (bound a); cri_target := cri_target (bound a);
       act_target := act_target (bound a); optim_params := optim_params (bound a);
       get_obj_critic := get_obj_critic (bound a);
       get_obj_critic_per := get_obj_critic_per (bound a);
       get_reward_sum := g;
       get_reward_sum_raw := get_reward_sum_raw (bound a);
       get_reward_sum_gae := get_reward_sum_gae (bound a) |} a.
Definition set_optim_params (f : optim_obj -> option (list param_ref)) (a : agent) : agent :=
  set_bound
    {| cri := cri (bound a); act := act (bound a); cri_target := cri_target (bound a);
       act_target := act_target (bound a); optim_params := f;
       get_obj_critic := get_obj_critic (bound a);
       get_obj_critic_per := get_obj_critic_per (bound a);
       get_reward_sum := get_reward_sum (bound a);
       get_reward_sum_raw := get_reward_sum_raw (bound a);
       get_reward_sum_gae := get_reward_sum_gae (bound a) |} a.
Definition set_action_dim (d : Z) (te : R) (a : agent) : agent :=
  set_hp
    {| action_dim := d; explore_rate := explore_rate (hp a);
       policy_noise := policy_noise (hp a); update_freq := update_freq (hp a);
       target_entropy := te; ratio_clip := ratio_clip (hp a); clip := clip (hp a);
       lambda_entropy := lambda_entropy (hp a);
       lambda_gae_adv := lambda_gae_adv (hp a) |} a.

(** [__init__]: every attribute is [None]. A numeric attribute that a class
    does not define is never read by its methods; it is 0 here. *)
Definition no_bindings : bindings :=
  {| cri := None; act := None; cri_target := None; act_target := None;
     optim_params := fun _ => None; get_obj_critic := None; get_obj_critic_per := None;
     get_reward_sum := None; get_reward_sum_raw := None; get_reward_sum_gae := None |}.
Definition no_hyper : hyper :=
  {| action_dim := 0; explore_rate := 0; policy_noise := 0; update_freq := 0;
     target_entropy := 0; ratio_clip := 0; clip := 0; lambda_entropy := 0;
     lambda_gae_adv := 0 |}.
Definition no_running : running := {| alpha_log := 0; obj_c := 0; avg_loss_c := 0 |}.
Definition __init__ : agent := {| bound := no_bindings; hp := no_hyper; run := no_running |}.

(** [init], given the class attributes [ClassAct] (is there an actor class),
    [if_use_cri_target] and [if_use_act_target] ([None] counts as false):
    a target attribute names a deep copy, or the online object itself. *)
Definition init (ClassAct if_use_cri_target if_use_act_target : bool)
    (action_dim' : Z) (w : world) : world :=
  let a := self w in
  let cri' := ObjCri in
  let act' := if ClassAct then ObjAct else cri' in
  let cri_target' := if if_use_cri_target then ObjCriCopy else cri' in
  let act_target' := if if_use_act_target then ObjActCopy else act' in
  let nets1 := if if_use_cri_target then upd_net (nets w) ObjCriCopy (nets w cri') else nets w in
  let nets2 := if if_use_act_target then upd_net nets1 ObjActCopy (nets1 act') else nets1 in
  set_nets nets2 (set_self
    (set_action_dim action_dim' (target_entropy (hp a)) (set_bound
      {| cri := Some cri'; act := Some act';
         cri_target := Some cri_target'; act_target := Some act_target';
         optim_params := fun o =>
           match o with
           | CriOptim => Some [PNet cri']
           | ActOptim => if ClassAct then Some [PNet act'] else None
           | AlphaOptim => optim_params (bound a) AlphaOptim
           end;
         get_obj_critic := get_obj_critic (bound a);
         get_obj_critic_per := get_obj_critic_per (bound a);
         get_reward_sum := get_reward_sum (bound a);
         get_reward_sum_raw := get_reward_sum_raw (bound a);
         get_reward_sum_gae := get_reward_sum_gae (bound a) |} a)) w).

(** Reading an attribute that may be [None] and using it as an object. *)
Definition attr {A} (f : bindings -> option A) (e : exn) : M A :=
  w <- get ;;
  match f (bound (self w)) with
  | Some x => ret x
  | None => raise e
  end.

Definition vars_of (w : world) : vars :=
  {| v_nets := nets w; v_alpha_log := alpha_log (run (self w)) |}.

(** [soft_update]: the blend of one pair of parameter tensors, then of the
    zipped parameter lists ([zip] stops at the shorter list; the parameters
    of the target beyond it are not touched).  The two tensors of a pair
    have the same shape: a target is a deep copy of the online network or
    the online network itself. *)
Definition blend (tau : R) (tar cur : tensor) : tensor :=
  tmap2 (fun t c => c * tau + t * (1 - tau)) tar cur.

Fixpoint soft_update_params (target current : params) (tau : R) : params :=
  match target, current with
  | tar :: ts, cur :: cs => blend tau tar cur :: soft_update_params ts cs tau
  | _, _ => target
  end.

Definition soft_update (target_net current_net : option net_obj) (tau : R) : M unit :=
  match target_net, current_net with
  | Some t, Some c =>
      record (SoftUpdate t c) ;;
      modify (fun w =>
        set_nets (upd_net (nets w) t (soft_update_params (nets w t) (nets w c) tau)) w)
  | _, _ => raise AttributeError
  end.

(** [optim_update]: [zero_grad], [backward] and [step] of an optimiser.
    Each parameter group takes one Adam step on the loss seen as a function
    of that group (all gradients are taken at the values before the step);
    nothing outside the optimiser's groups and its own state is written. *)
Definition read_ref (v : vars) (r : param_ref) : params :=
  match r with
  | PNet n => v_nets v n
  | PAlphaLog => [[v_alpha_log v]]
  end.

Definition write_ref (v : vars) (r : param_ref) (p : params) : vars :=
  match r with
  | PNet n => {| v_nets := upd_net (v_nets v) n p; v_alpha_log := v_alpha_log v |}
  | PAlphaLog => {| v_nets := v_nets v; v_alpha_log := hd 0 (hd [] p) |}
  end.

Fixpoint step_groups (refs : list param_ref) (st : OptimState) (v0 : vars)
    (f : vars -> R) (acc : vars) : OptimState * vars :=
  match refs with
  | [] => (st, acc)
  | r :: rs =>
      let '(st', p') := adam_step st (read_ref v0 r) (fun p => f (write_ref v0 r p)) in
      step_groups rs st' v0 f (write_ref acc r p')
  end.

Definition optim_update (optimizer : optim_obj) (objective' : objective) : M unit :=
  groups <- attr (fun a => optim_params a optimizer) AttributeError ;;
  record (OptimUpdate optimizer) ;;
  modify (fun w =>
    let '(st', v') := step_groups groups (optims w optimizer) (vars_of w)
                        (loss objective') (vars_of w) in
    set_self (set_alpha_log (v_alpha_log v') (self w))
      (set_nets (v_nets v') (set_optims (upd_optim (optims w) optimizer st') w))).

(** [for x in xs: body], with the local variables the body assigns carried
    from one pass to the next. *)
Fixpoint for_ {S X} (xs : list X) (locals : S) (body : X -> S -> M S) : M S :=
  match xs with
  | [] => ret locals
  | x :: xs' => l' <- body x locals ;; for_ xs' l' body
  end.

(** [x.item()] on a local that is [None] until the loop assigns it. *)
Definition item_of (x : option objective) : M R :=
  match x with
  | Some o => ret (item o)
  | None => raise AttributeError
  end.

(** [buffer.update_now_len()], [buffer.sample_batch(n)] and
    [buffer.td_error_update(e)]. *)
Definition buffer_update_now_len : M unit :=
  modify (fun w => set_buffer (update_now_len (buffer w)) w).

Definition buffer_sample_batch (batch_size : Z) : M batch :=
  fun w => let '(b, buf') := sample_batch (buffer w) batch_size in (Ok b, set_buffer buf' w).

Definition buffer_td_error_update (td_error : tensor) : M unit :=
  record (TdErrorUpdate td_error) ;;
  modify (fun w => set_buffer (td_error_update (buffer w) td_error) w).

(** [int(now_len / batch_size * repeat_times)] on two ints and a number. *)
Definition update_bound (now_len' batch_size : Z) (repeat_times : number) : result Z :=
  (q <-- truediv (PyInt now_len') (PyInt batch_size) ;;
   p <-- mul q repeat_times ;;
   int p)%res.

(** [int(buffer.now_len / batch_size * repeat_times)]. *)
Definition update_steps (batch_size : Z) (repeat_times : number) : M Z :=
  w <- get ;;
  lift (update_bound (now_len (buffer w)) batch_size repeat_times).

End Defs.
End AgentBase.

Import AgentBase.

(** ** numpy.random *)

(** A computation that draws from [numpy.random]: it returns, raises, tests
    [rd.rand() < p], draws [rd.randint(n)] or draws [rd.choice(n, p=p)]. *)
Inductive rnd (A : Type) :=
| Ret (a : A)
| Throw (e : exn)
| RandLt (p : R) (k : bool -> rnd A)
| Randint (n : Z) (k : Z -> rnd A)
| Choice (n : Z) (p : list R) (k : Z -> rnd A).

Arguments Ret {A} a.
Arguments Throw {A} e.
Arguments RandLt {A} p k.
Arguments Randint {A} n k.
Arguments Choice {A} n p k.

(** One value drawn from the generator: the float of [rd.rand()], which lies
    in [[0, 1)], or the integer of [rd.randint] or [rd.choice]. *)
Inductive draw := DrawFloat (u : R) | DrawInt (i : Z).

(** Running a computation on the values the generator hands out; [None]
    when the list does not hold a value the generator can hand out next. *)
Definition in_unit (u : R) : bool :=
  if Rle_dec 0 u then (if Rlt_dec u 1 then true else false) else false.

Definition below (n i : Z) : bool := ((0 <=? i)%Z && (i <? n)%Z)%bool.

Fixpoint run_rnd {A} (c : rnd A) (draws : list draw) : option (result A) :=
  match c with
  | Ret a => Some (Ok a)
  | Throw e => Some (Raise e)
  | RandLt p k =>
      match draws with
      | DrawFloat u :: ds =>
          if in_unit u then run_rnd (k (if Rlt_dec u p then true else false)) ds
          else None
      | _ => None
      end
  | Randint n k =>
      match draws with
      | DrawInt i :: ds => if below n i then run_rnd (k i) ds else None
      | _ => None
      end
  | Choice n p k =>
      match draws with
      | DrawInt i :: ds => if below n i then run_rnd (k i) ds else None
      | _ => None
      end
  end.

(** The law of the generator: [rd.rand()] is uniform on [[0, 1)],
    [rd.randint(n)] is uniform on [0 .. n-1], and [rd.choice(n, p=p)] returns
    [i] with probability [p[i]].  [prob c x] is the probability that [c]
    returns [x]. *)
Definition unit_interval (p : R) : R := Rmin 1 (Rmax 0 p).

Definition indicator (a x : Z) : R := if Z.eqb a x then 1 else 0.

Fixpoint prob (c : rnd Z) (x : Z) : R :=
  match c with
  | Ret a => indicator a x
  | Throw _ => 0
  | RandLt p k =>
      unit_interval p * prob (k true) x + (1 - unit_interval p) * prob (k false) x
  | Randint n k =>
      tsum (map (fun i => / IZR n * prob (k i) x) (range 0 n))
  | Choice n p k =>
      tsum (map (fun i => nth (Z.to_nat i) p 0 * prob (k i) x) (range 0 n))
  end.

(** ** AgentDQN and its variants *)

Module AgentDQN.
Section Defs.
Context {C : Collaborators}.

Definition __init__ : agent :=
  set_hp
    {| action_dim := 0; explore_rate := 0.25; policy_noise := 0; update_freq := 0;
       target_entropy := 0; ratio_clip := 0; clip := 0; lambda_entropy := 0;
       lambda_gae_adv := 0 |} AgentBase.__init__.

(** [ClassCri = QNet], [if_use_cri_target = True]; no actor class.
    [get_obj_critic] becomes the method [get_obj_critic_raw] or, under
    [if_use_per], what the instance attribute [get_obj_critic_per] holds. *)
Definition init (action_dim' : Z) (if_use_per : bool) (w : world) : world :=
  let w' := AgentBase.init false true false action_dim' w in
  set_self
    (set_get_obj_critic
       (if if_use_per then get_obj_critic_per (bound (self w')) else Some ObjCriticRaw)
       (self w'))
    w'.

(** [self.act(states)[0]] for [states = (state,)]. *)
Definition q_values (act_params : params) (state' : list R) : list R :=
  hd [] (forward act_params [state']).

(** [rd.randint(n)] raises [ValueError] unless [0 < n]. *)
Definition select_action (w : world) (state' : list R) : rnd Z :=
  RandLt (explore_rate (hp (self w))) (fun explore =>
    if explore then
      if (0 <? action_dim (hp (self w)))%Z then
        Randint (action_dim (hp (self w))) (fun a_int => Ret a_int)
      else Throw ValueError
    else
      match act (bound (self w)) with
      | None => Throw TypeError
      | Some n => Ret (argmax (q_values (nets w n) state'))
      end).

Definition get_obj_critic_raw (batch_size : Z) : M (objective * tensor) :=
  b <- buffer_sample_batch batch_size ;;
  ct <- attr cri_target TypeError ;;
  c <- attr cri TypeError ;;
  w <- get ;;
  let next_q := row_max (forward (nets w ct) (next_s b)) in
  let q_label := tadd (reward b) (tmul (mask b) next_q) in
  let q_value := fun v => gather (forward (v_nets v c) (state b)) (action b) in
  let obj_critic := fun v => criterion_mean (q_value v) q_label in
  ret ({| item := obj_critic (vars_of w); loss := obj_critic |}, q_value (vars_of w)).

Definition get_obj_critic_per (batch_size : Z) : M (objective * tensor) :=
  b <- buffer_sample_batch batch_size ;;
  ct <- attr cri_target TypeError ;;
  c <- attr cri TypeError ;;
  w <- get ;;
  let next_q := row_max (forward (nets w ct) (next_s b)) in
  let q_label := tadd (reward b) (tmul (mask b) next_q) in
  let q_value := fun v => gather (forward (v_nets v c) (state b)) (action b) in
  let obj_critic := fun v =>
    tmean (tmul (criterion_none (q_value v) q_label) (is_weights b)) in
  ret ({| item := obj_critic (vars_of w); loss := obj_critic |}, q_value (vars_of w)).

(** [self.get_obj_critic(buffer, batch_size)], as [init] bound it. *)
Definition call_get_obj_critic (batch_size : Z) : M (objective * tensor) :=
  w <- get ;;
  match get_obj_critic (bound (self w)) with
  | None => raise TypeError
  | Some ObjCriticRaw => get_obj_critic_raw batch_size
  | Some ObjCriticPer => get_obj_critic_per batch_size
  end.

(** One pass of the loop of [update_net]; the locals are [obj_critic] and
    [q_value]. *)
Definition update_step (batch_size : Z) (soft_update_tau : R)
  : M (option objective * option tensor) :=
  '(obj_critic, q_value) <- call_get_obj_critic batch_size ;;
  optim_update CriOptim obj_critic ;;
  w <- get ;;
  soft_update (cri_target (bound (self w))) (cri (bound (self w))) soft_update_tau ;;
  ret (Some obj_critic, Some q_value).

Definition update_net (batch_size : Z) (repeat_times : number) (soft_update_tau : R)
  : M (R * R) :=
  buffer_update_now_len ;;
  n <- update_steps batch_size repeat_times ;;
  locals <- for_ (range 0 n) (None, None) (fun _ _ =>
    update_step batch_size soft_update_tau) ;;
  obj_critic <- item_of (fst locals) ;;
  match snd locals with
  | None => raise AttributeError
  | Some q_value => ret (obj_critic, tmean q_value)
  end.

End Defs.
End AgentDQN.

Module AgentDoubleDQN.
Section Defs.
Context {C : Collaborators}.

(** [ClassCri = QNetTwin]; [init] is inherited from [AgentDQN]. *)
Definition __init__ : agent := AgentDQN.__init__.
Definition init := AgentDQN.init.

(** [rd.choice(n, p=p)] raises [ValueError] unless [0 < n] and [p] has [n]
    entries (the entries of a softmax are probabilities). *)
Definition select_action (w : world) (state' : list R) : rnd Z :=
  match act (bound (self w)) with
  | None => Throw TypeError
  | Some n =>
      let actions := forward (nets w n) [state'] in
      RandLt (explore_rate (hp (self w))) (fun explore =>
        if explore then
          let a_prob := hd [] (map softmax actions) in
          if ((0 <? action_dim (hp (self w)))%Z
              && (Z.of_nat (length a_prob) =? action_dim (hp (self w)))%Z)%bool then
            Choice (action_dim (hp (self w))) a_prob (fun a_int => Ret a_int)
          else Throw ValueError
        else
          Ret (argmax (hd [] actions)))
  end.

End Defs.
End AgentDoubleDQN.

(** ** AgentDDPG *)

Module AgentDDPG.
Section Defs.
Context {C : Collaborators}.

Definition __init__ : agent := AgentBase.__init__.

(** [ClassAct = Actor], [ClassCri = Critic], both targets in use;
    [get_obj_critic] is bound as in [AgentDQN.init]. *)
Definition init (action_dim' : Z) (if_use_per : bool) (w : world) : world :=
  let w' := AgentBase.init true true true action_dim' w in
  set_self
    (set_get_obj_critic
       (if if_use_per then get_obj_critic_per (bound (self w')) else Some ObjCriticRaw)
       (self w'))
    w'.

Definition get_obj_critic_raw (batch_size : Z) : M (objective * matrix) :=
  b <- buffer_sample_batch batch_size ;;
  ct <- attr cri_target TypeError ;;
  at' <- attr act_target TypeError ;;
  c <- attr cri TypeError ;;
  w <- get ;;
  let next_q := forward2 (nets w ct) (next_s b) (forward (nets w at') (next_s b)) in
  let q_label := tadd (reward b) (tmul (mask b) next_q) in
  let q_value := fun v => forward2 (v_nets v c) (state b) (action b) in
  let obj_critic := fun v => criterion_mean (q_value v) q_label in
  ret ({| item := obj_critic (vars_of w); loss := obj_critic |}, state b).

Definition get_obj_critic_per (batch_size : Z) : M (objective * matrix) :=
  b <- buffer_sample_batch batch_size ;;
  ct <- attr cri_target TypeError ;;
  at' <- attr act_target TypeError ;;
  c <- attr cri TypeError ;;
  w <- get ;;
  let next_q := forward2 (nets w ct) (next_s b) (forward (nets w at') (next_s b)) in
  let q_label := tadd (reward b) (tmul (mask b) next_q) in
  let q_value := fun v => forward2 (v_nets v c) (state b) (action b) in
  let obj_critic := fun v =>
    tmean (tmul (criterion_none (q_value v) q_label) (is_weights b)) in
  let td_error := tabs (tsub q_label (q_value (vars_of w))) in
  buffer_td_error_update td_error ;;
  ret ({| item := obj_critic (vars_of w); loss := obj_critic |}, state b).

Definition call_get_obj_critic (batch_size : Z) : M (objective * matrix) :=
  w <- get ;;
  match get_obj_critic (bound (self w)) with
  | None => raise TypeError
  | Some ObjCriticRaw => get_obj_critic_raw batch_size
  | Some ObjCriticPer => get_obj_critic_per batch_size
  end.

(** One pass of the loop of [update_net]; the locals are [obj_critic] and
    [obj_actor]. *)
Definition update_step (batch_size : Z) (soft_update_tau : R)
  : M (option objective * option objective) :=
  '(obj_critic, state') <- call_get_obj_critic batch_size ;;
  optim_update CriOptim obj_critic ;;
  w <- get ;;
  soft_update (cri_target (bound (self w))) (cri (bound (self w))) soft_update_tau ;;
  a <- attr act TypeError ;;
  c <- attr cri TypeError ;;
  w <- get ;;
  let obj_actor := fun v =>
    - tmean (forward2 (v_nets v c) state' (forward (v_nets v a) state')) in
  let obj_actor' := {| item := obj_actor (vars_of w); loss := obj_actor |} in
  optim_update ActOptim obj_actor' ;;
  soft_update (act_target (bound (self w))) (act (bound (self w))) soft_update_tau ;;
  ret (Some obj_critic, Some obj_actor').

Definition update_net (batch_size : Z) (repeat_times : number) (soft_update_tau : R)
  : M (R * R) :=
  buffer_update_now_len ;;
  n <- update_steps batch_size repeat_times ;;
  locals <- for_ (range 0 n) (None, None) (fun _ _ =>
    update_step batch_size soft_update_tau) ;;
  obj_actor <- item_of (snd locals) ;;
  obj_critic <- item_of (fst locals) ;;
  ret (obj_actor, obj_critic).

End Defs.
End AgentDDPG.

(** ** AgentTD3 *)

Module AgentTD3.
Section Defs.
Context {C : Collaborators}.

Definition __init__ : agent :=
  set_hp
    {| action_dim := 0; explore_rate := 0; policy_noise := 0.2; update_freq := 2;
       target_entropy := 0; ratio_clip := 0; clip := 0; lambda_entropy := 0;
       lambda_gae_adv := 0 |} AgentBase.__init__.

(** [ClassAct = Actor], [ClassCri = CriticTwin], both targets in use;
    [get_obj_critic] is bound as in [AgentDQN.init]. *)
Definition init (action_dim' : Z) (if_use_per : bool) (w : world) : world :=
  let w' := AgentBase.init true true true action_dim' w in
  set_self
    (set_get_obj_critic
       (if if_use_per then get_obj_critic_per (bound (self w')) else Some ObjCriticRaw)
       (self w'))
    w'.

(** [self.act_target.get_action(next_s, self.policy_noise)]: draws from the
    torch generator. *)
Definition target_action (next_s' : matrix) : M matrix :=
  at' <- attr act_target AttributeError ;;
  fun w =>
    let '(a, g) := get_action (nets w at') next_s' (policy_noise (hp (self w))) (rng w) in
    (Ok a, set_rng g w).

Definition get_obj_critic_raw (batch_size : Z) : M (objective * matrix) :=
  b <- buffer_sample_batch batch_size ;;
  next_a <- target_action (next_s b) ;;
  ct <- attr cri_target AttributeError ;;
  c <- attr cri AttributeError ;;
  w <- get ;;
  let '(tq1, tq2) := get_q1_q2 (nets w ct) (next_s b) next_a in
  let next_q := tmin tq1 tq2 in
  let q_label := tadd (reward b) (tmul (mask b) next_q) in
  let obj_critic := fun v =>
    let '(q1, q2) := get_q1_q2 (v_nets v c) (state b) (action b) in
    criterion_mean q1 q_label + criterion_mean q2 q_label in
  ret ({| item := obj_critic (vars_of w); loss := obj_critic |}, state b).

Definition get_obj_critic_per (batch_size : Z) : M (objective * matrix) :=
  b <- buffer_sample_batch batch_size ;;
  next_a <- target_action (next_s b) ;;
  ct <- attr cri_target AttributeError ;;
  c <- attr cri AttributeError ;;
  w <- get ;;
  let '(tq1, tq2) := get_q1_q2 (nets w ct) (next_s b) next_a in
  let next_q := tmin tq1 tq2 in
  let q_label := tadd (reward b) (tmul (mask b) next_q) in
  let obj_critic := fun v =>
    let '(q1, q2) := get_q1_q2 (v_nets v c) (state b) (action b) in
    tmean (tmul (tadd (criterion_none q1 q_label) (criterion_none q2 q_label))
                (is_weights b)) in
  let '(q1, q2) := get_q1_q2 (nets w c) (state b) (action b) in
  let td_error := tabs (tsub q_label (tmin q1 q2)) in
  buffer_td_error_update td_error ;;
  ret ({| item := obj_critic (vars_of w); loss := obj_critic |}, state b).

Definition call_get_obj_critic (batch_size : Z) : M (objective * matrix) :=
  w <- get ;;
  match get_obj_critic (bound (self w)) with
  | None => raise TypeError
  | Some ObjCriticRaw => get_obj_critic_raw batch_size
  | Some ObjCriticPer => get_obj_critic_per batch_size
  end.

(** One pass of the loop of [update_net], for the index [update_c]. *)
Definition update_step (batch_size : Z) (soft_update_tau : R) (update_c : Z)
  : M (option objective * option objective) :=
  '(obj_critic, state') <- call_get_obj_critic batch_size ;;
  optim_update CriOptim obj_critic ;;
  a <- attr act TypeError ;;
  ct <- attr cri_target TypeError ;;
  w <- get ;;
  let obj_actor := fun v =>
    - tmean (forward2 (v_nets v ct) state' (forward (v_nets v a) state')) in
  let obj_actor' := {| item := obj_actor (vars_of w); loss := obj_actor |} in
  optim_update ActOptim obj_actor' ;;
  w <- get ;;
  (if Z.eqb (update_freq (hp (self w))) 0 then raise ZeroDivisionError
   else if Z.eqb (imod update_c (update_freq (hp (self w)))) 0 then
     soft_update (cri_target (bound (self w))) (cri (bound (self w))) soft_update_tau ;;
     soft_update (act_target (bound (self w))) (act (bound (self w))) soft_update_tau
   else ret tt) ;;
  ret (Some obj_critic, Some obj_actor').

Definition update_net (batch_size : Z) (repeat_times : number) (soft_update_tau : R)
  : M (R * R) :=
  buffer_update_now_len ;;
  n <- update_steps batch_size repeat_times ;;
  locals <- for_ (range 0 n) (None, None) (fun update_c _ =>
    update_step batch_size soft_update_tau update_c) ;;
  obj_critic <- item_of (fst locals) ;;
  obj_actor <- item_of (snd locals) ;;
  ret (obj_critic / 2, obj_actor).

End Defs.
End AgentTD3.

(** ** AgentSAC and AgentModSAC *)

Module AgentSAC.
Section Defs.
Context {C : Collaborators}.

Definition __init__ : agent := AgentBase.__init__.

(** [ClassCri = CriticTwin], [ClassAct = ActorSAC], [if_use_cri_target =
    True]; [if_use_act_target] is [False] here and [True] in [AgentModSAC],
    which inherits this [init]; [get_obj_critic] is bound as in
    [AgentDQN.init]. *)
Definition init_class (if_use_act_target : bool) (action_dim' : Z) (if_use_per : bool)
    (w : world) : world :=
  let w' := AgentBase.init true true if_use_act_target action_dim' w in
  let a := self w' in
  let a1 := set_alpha_log (- ln (IZR action_dim') * exp 1) a in
  let a2 := set_optim_params (fun o =>
              match o with
              | AlphaOptim => Some [PAlphaLog]
              | _ => optim_params (bound a) o
              end) a1 in
  let a3 := set_action_dim action_dim' (ln (IZR action_dim')) a2 in
  set_self
    (set_get_obj_critic
       (if if_use_per then get_obj_critic_per (bound a3) else Some ObjCriticRaw) a3) w'.

Definition init := init_class false.

(** [net.get_action_logprob(s)]: draws from the torch generator. *)
Definition action_logprob (net : net_obj) (s : matrix) : M (matrix * tensor * Rng) :=
  fun w =>
    let g0 := rng w in
    let '(al, g) := get_action_logprob (nets w net) s g0 in
    (Ok (al, g0), set_rng g w).

Definition get_obj_critic_raw (batch_size : Z) (alpha : R) : M (objective * matrix) :=
  b <- buffer_sample_batch batch_size ;;
  at' <- attr act_target AttributeError ;;
  '(next_a, next_log_prob, _) <- action_logprob at' (next_s b) ;;
  ct <- attr cri_target AttributeError ;;
  c <- attr cri AttributeError ;;
  w <- get ;;
  let '(tq1, tq2) := get_q1_q2 (nets w ct) (next_s b) next_a in
  let next_q := tmin tq1 tq2 in
  let q_label := tadd (reward b) (tmul (mask b) (tadd next_q (tscale next_log_prob alpha))) in
  let obj_critic := fun v =>
    let '(q1, q2) := get_q1_q2 (v_nets v c) (state b) (action b) in
    criterion_mean q1 q_label + criterion_mean q2 q_label in
  ret ({| item := obj_critic (vars_of w); loss := obj_critic |}, state b).

Definition get_obj_critic_per (batch_size : Z) (alpha : R) : M (objective * matrix) :=
  b <- buffer_sample_batch batch_size ;;
  at' <- attr act_target AttributeError ;;
  '(next_a, next_log_prob, _) <- action_logprob at' (next_s b) ;;
  ct <- attr cri_target AttributeError ;;
  c <- attr cri AttributeError ;;
  w <- get ;;
  let '(tq1, tq2) := get_q1_q2 (nets w ct) (next_s b) next_a in
  let next_q := tmin tq1 tq2 in
  let q_label := tadd (reward b) (tmul (mask b) (tadd next_q (tscale next_log_prob alpha))) in
  let obj_critic := fun v =>
    let '(q1, q2) := get_q1_q2 (v_nets v c) (state b) (action b) in
    tmean (tmul (tadd (criterion_none q1 q_label) (criterion_none q2 q_label))
                (is_weights b)) in
  let '(q1, q2) := get_q1_q2 (nets w c) (state b) (action b) in
  let td_error := tabs (tsub q_label (tmin q1 q2)) in
  buffer_td_error_update td_error ;;
  ret ({| item := obj_critic (vars_of w); loss := obj_critic |}, state b).

Definition call_get_obj_critic (batch_size : Z) (alpha : R) : M (objective * matrix) :=
  w <- get ;;
  match get_obj_critic (bound (self w)) with
  | None => raise TypeError
  | Some ObjCriticRaw => get_obj_critic_raw batch_size alpha
  | Some ObjCriticPer => get_obj_critic_per batch_size alpha
  end.

(** [obj_alpha = (self.alpha_log * (log_prob - self.target_entropy).detach()).mean()]. *)
Definition obj_alpha_of (log_prob : tensor) (w : world) : objective :=
  let f := fun v =>
    tmean (map (fun lp => v_alpha_log v * (lp - target_entropy (hp (self w)))) log_prob) in
  {| item := f (vars_of w); loss := f |}.

(** [self.alpha_log[:] = self.alpha_log.clamp(lo, hi)]. *)
Definition clamp_alpha_log (lo hi : R) : M unit :=
  modify (fun w => set_self (set_alpha_log (clamp lo hi (alpha_log (run (self w)))) (self w)) w).

(** [int(now_len * repeat_times / batch_size)] on two ints and a number. *)
Definition update_bound_sac (now_len' batch_size : Z) (repeat_times : number) : result Z :=
  (p <-- mul (PyInt now_len') repeat_times ;;
   q <-- truediv p (PyInt batch_size) ;;
   int q)%res.

(** [int(buffer.now_len * repeat_times / batch_size)]. *)
Definition update_steps_sac (batch_size : Z) (repeat_times : number) : M Z :=
  w <- get ;;
  lift (update_bound_sac (now_len (buffer w)) batch_size repeat_times).

(** One pass of the loop of [update_net]. *)
Definition update_step (batch_size : Z) (soft_update_tau : R)
  : M (option objective * option objective) :=
  w <- get ;;
  let alpha := exp (alpha_log (run (self w))) in
  '(obj_critic, state') <- call_get_obj_critic batch_size alpha ;;
  optim_update CriOptim obj_critic ;;
  w <- get ;;
  soft_update (cri_target (bound (self w))) (cri (bound (self w))) soft_update_tau ;;
  a <- attr act AttributeError ;;
  '(action_pg, log_prob, g) <- action_logprob a state' ;;
  w <- get ;;
  optim_update AlphaOptim (obj_alpha_of log_prob w) ;;
  clamp_alpha_log (-20) 2 ;;
  ct <- attr cri_target AttributeError ;;
  w <- get ;;
  let obj_actor := fun v =>
    let '(action_pg', log_prob') := fst (get_action_logprob (v_nets v a) state' g) in
    let '(q1, q2) := get_q1_q2 (v_nets v ct) state' action_pg' in
    - tmean (tadd (tmin q1 q2) (tscale log_prob' alpha)) in
  let obj_actor' := {| item := obj_actor (vars_of w); loss := obj_actor |} in
  optim_update ActOptim obj_actor' ;;
  soft_update (act_target (bound (self w))) (act (bound (self w))) soft_update_tau ;;
  ret (Some obj_critic, Some obj_actor').

Definition update_net (batch_size : Z) (repeat_times : number) (soft_update_tau : R)
  : M (R * R * R) :=
  buffer_update_now_len ;;
  n <- update_steps_sac batch_size repeat_times ;;
  locals <- for_ (range 0 n) (None, None) (fun _ _ =>
    update_step batch_size soft_update_tau) ;;
  w <- get ;;
  let alpha := exp (alpha_log (run (self w))) in
  obj_critic <- item_of (fst locals) ;;
  obj_actor <- item_of (snd locals) ;;
  ret (obj_critic, obj_actor, alpha).

End Defs.
End AgentSAC.

Module AgentModSAC.
Section Defs.
Context {C : Collaborators}.

Definition __init__ : agent :=
  set_obj_c (sqrt (- ln 0.5)) AgentSAC.__init__.

Definition init := AgentSAC.init_class true.

(** One pass of the loop of [update_net], for the index [update_c]; the
    locals carried over are [update_a] and [obj_actor]. *)
Definition update_step (batch_size : Z) (soft_update_tau : R) (update_c : Z)
    (locals : Z * option objective) : M (Z * option objective) :=
  let '(update_a, obj_actor0) := locals in
  w <- get ;;
  let alpha := exp (alpha_log (run (self w))) in
  '(obj_critic, state') <- AgentSAC.call_get_obj_critic batch_size alpha ;;
  modify (fun w =>
    set_self (set_obj_c (0.995 * obj_c (run (self w)) + 0.0025 * item obj_critic) (self w)) w) ;;
  optim_update CriOptim obj_critic ;;
  w <- get ;;
  soft_update (cri_target (bound (self w))) (cri (bound (self w))) soft_update_tau ;;
  a <- attr act AttributeError ;;
  '(a_noise_pg, log_prob, g) <- AgentSAC.action_logprob a state' ;;
  w <- get ;;
  optim_update AlphaOptim (AgentSAC.obj_alpha_of log_prob w) ;;
  AgentSAC.clamp_alpha_log (-16) 2 ;;
  w <- get ;;
  let reliable_lambda := exp (- (obj_c (run (self w)) * obj_c (run (self w)))) in
  if Rlt_dec (IZR update_a / IZR update_c) (1 / (2 - reliable_lambda)) then
    c <- attr cri AttributeError ;;
    let obj_actor := fun v =>
      let '(a_noise_pg', log_prob') := fst (get_action_logprob (v_nets v a) state' g) in
      let '(q1, q2) := get_q1_q2 (v_nets v c) state' a_noise_pg' in
      - tmean (tadd (tmin q1 q2) (tscale log_prob' alpha)) in
    let obj_actor' := {| item := obj_actor (vars_of w); loss := obj_actor |} in
    optim_update ActOptim obj_actor' ;;
    soft_update (act_target (bound (self w))) (act (bound (self w))) soft_update_tau ;;
    ret ((update_a + 1)%Z, Some obj_actor')
  else
    ret (update_a, obj_actor0).

Definition update_net (batch_size : Z) (repeat_times : number) (soft_update_tau : R)
  : M (R * R * R) :=
  buffer_update_now_len ;;
  n <- AgentSAC.update_steps_sac batch_size repeat_times ;;
  locals <- for_ (range 1 n) (0%Z, None) (update_step batch_size soft_update_tau) ;;
  w <- get ;;
  let alpha := exp (alpha_log (run (self w))) in
  obj_actor <- item_of (snd locals) ;;
  ret (obj_c (run (self w)), obj_actor, alpha).

End Defs.
End AgentModSAC.

(** ** AgentPPO *)

(** The environment: [env.reset()], [env.step(action)], and for a vector
    environment [env.step(actions)], which returns one
    [(next_state, reward, done)] per instance. *)
Class Environment := {
  Env : Type;
  env_reset : Env -> list R * Env;
  env_step : Env -> list R -> (list R * R * bool) * Env;
  vec_step : Env -> matrix -> list (list R * R * bool) * Env
}.

(** One recorded step: [(state, reward, done, action, noise)]. *)
Record transition := {
  t_state : list R;
  t_reward : R;
  t_done : bool;
  t_action : list R;
  t_noise : list R
}.

(** [self.states] and [self.trajectory_list]. *)
Record explorer := {
  states : list (list R);
  trajectory_list : list (list transition)
}.

Fixpoint rfold {S X} (xs : list X) (s : S) (body : X -> S -> result S) : result S :=
  match xs with
  | [] => Ok s
  | x :: xs' => rbind (body x s) (fun s' => rfold xs' s' body)
  end.

Module AgentPPO.
Section Defs.
Context {C : Collaborators} {E : Environment}.

Definition __init__ : agent :=
  set_hp
    {| action_dim := 0; explore_rate := 0; policy_noise := 0; update_freq := 0;
       target_entropy := 0; ratio_clip := 0.2; clip := 0; lambda_entropy := 0.02;
       lambda_gae_adv := 0.98 |} AgentBase.__init__.

(** [ClassAct = ActorPPO], [ClassCri = CriticAdv]; no target is switched on.
    [get_reward_sum] stays as [__init__] left it. *)
Definition init (action_dim' : Z) (w : world) : world :=
  AgentBase.init true false false action_dim' w.

(** [select_action] and [select_actions]: [self.act.get_action(states)]. *)
Definition select_action (act_params : params) (g : Rng) (state' : list R)
  : (list R * list R) * Rng :=
  let '((actions, noises), g') := get_action_noise act_params [state'] g in
  ((hd [] actions, hd [] noises), g').

Definition select_actions (act_params : params) (g : Rng) (states' : matrix)
  : (matrix * matrix) * Rng :=
  get_action_noise act_params states' g.

(** The locals of the loop of [explore_env]. *)
Record explore_locals := {
  trajectory_temp : list transition;
  cur_state : list R;
  last_done : nat;
  cur_env : Env;
  cur_rng : Rng
}.

Definition explore_step (act_params : params) (i : nat) (l : explore_locals)
  : explore_locals :=
  let '((action', noise), g') := select_action act_params (cur_rng l) (cur_state l) in
  let '((next_state, reward', done), env') := env_step (cur_env l) (map tanh action') in
  let temp := trajectory_temp l ++
    [{| t_state := cur_state l; t_reward := reward'; t_done := done;
        t_action := action'; t_noise := noise |}] in
  if done then
    let '(s0, env'') := env_reset env' in
    {| trajectory_temp := temp; cur_state := s0; last_done := i;
       cur_env := env''; cur_rng := g' |}
  else
    {| trajectory_temp := temp; cur_state := next_state; last_done := last_done l;
       cur_env := env'; cur_rng := g' |}.

(** [explore_env]: returns the spliced trajectory, the new [self.states] and
    [self.trajectory_list], the environment and the generator. *)
Definition explore_env (act_params : params) (ex : explorer) (env : Env) (g : Rng)
    (target_step : nat) : result (list transition * explorer * Env * Rng) :=
  (state0 <-- getitem (states ex) 0 ;;
   let l := fold_left (fun l i => explore_step act_params i l) (seq 0 target_step)
              {| trajectory_temp := []; cur_state := state0; last_done := 0%nat;
                 cur_env := env; cur_rng := g |} in
   states' <-- setitem (states ex) 0 (cur_state l) ;;
   old <-- getitem (trajectory_list ex) 0 ;;
   let trajectory_list' := old ++ slice_to (trajectory_temp l) (last_done l + 1) in
   kept <-- setitem (trajectory_list ex) 0 (slice_from (trajectory_temp l) (last_done l)) ;;
   Ok (trajectory_list', {| states := states'; trajectory_list := kept |},
       cur_env l, cur_rng l))%res.

(** The locals of the outer loop of [explore_vec_env]. *)
Record vec_locals := {
  trajectory_temps : list (list transition);
  last_done_list : list nat;
  cur_states : matrix;
  vec_env : Env;
  vec_rng : Rng
}.

(** The inner loop over [env_i] for the step [i]: the locals are
    [trajectory_temps], [last_done_list] and [next_states]. *)
Definition vec_record (i : nat) (states' actions noises : matrix)
    (s_r_d_list : list (list R * R * bool)) (env_i : nat)
    (l : list (list transition) * list nat * matrix)
  : result (list (list transition) * list nat * matrix) :=
  (let '(temps, dones, next_states) := l in
   srd <-- getitem s_r_d_list env_i ;;
   let '(next_state, reward', done) := srd in
   temp <-- getitem temps env_i ;;
   st <-- getitem states' env_i ;;
   a <-- getitem actions env_i ;;
   nz <-- getitem noises env_i ;;
   temps' <-- setitem temps env_i
     (temp ++ [{| t_state := st; t_reward := reward'; t_done := done;
                  t_action := a; t_noise := nz |}]) ;;
   dones' <-- (if done then setitem dones env_i i else Ok dones) ;;
   Ok (temps', dones', next_states ++ [next_state]))%res.

Definition vec_step_all (act_params : params) (env_num : nat) (i : nat) (l : vec_locals)
  : result vec_locals :=
  (let '((actions, noises), g') := select_actions act_params (vec_rng l) (cur_states l) in
   let '(s_r_d_list, env') := vec_step (vec_env l) (map (map tanh) actions) in
   r <-- rfold (seq 0 env_num) (trajectory_temps l, last_done_list l, [])
           (vec_record i (cur_states l) actions noises s_r_d_list) ;;
   let '(temps, dones, next_states) := r in
   Ok {| trajectory_temps := temps; last_done_list := dones; cur_states := next_states;
         vec_env := env'; vec_rng := g' |})%res.

(** The splice loop of [explore_vec_env]: the locals are the returned
    [trajectory_list] and [self.trajectory_list]. *)
Definition vec_splice (temps : list (list transition)) (dones : list nat) (env_i : nat)
    (l : list transition * list (list transition))
  : result (list transition * list (list transition)) :=
  (let '(trajectory_list', kept) := l in
   last_done' <-- getitem dones env_i ;;
   temp <-- getitem temps env_i ;;
   old <-- getitem kept env_i ;;
   kept' <-- setitem kept env_i (slice_from temp last_done') ;;
   Ok (trajectory_list' ++ old ++ slice_to temp (last_done' + 1), kept'))%res.

Definition explore_vec_env (act_params : params) (ex : explorer) (env : Env) (g : Rng)
    (target_step : nat) : result (list transition * explorer * Env * Rng) :=
  (let env_num := length (trajectory_list ex) in
   l <-- rfold (seq 0 target_step)
           {| trajectory_temps := repeat [] env_num; last_done_list := repeat 0%nat env_num;
              cur_states := states ex; vec_env := env; vec_rng := g |}
           (vec_step_all act_params env_num) ;;
   r <-- rfold (seq 0 env_num) ([], trajectory_list ex)
           (vec_splice (trajectory_temps l) (last_done_list l)) ;;
   Ok (fst r, {| states := cur_states l; trajectory_list := snd r |},
       vec_env l, vec_rng l))%res.

(** The locals of the loop of [get_reward_sum_gae]. *)
Record gae_locals := {
  ary_r_sum : tensor;
  ary_advantage : tensor;
  pre_r_sum : R;
  pre_advantage : R
}.

(** [ary_value[:, 0]] and [t.squeeze(1)] on a tensor of shape [(n, 1)]. *)
Definition column (m : matrix) : tensor := map (hd 0) m.

Definition raw_step (ary_reward ary_mask : tensor) (i : nat) (l : tensor * R)
  : result (tensor * R) :=
  (let '(r_sum, pre) := l in
   r <-- getitem ary_reward i ;;
   m <-- getitem ary_mask i ;;
   r_sum' <-- setitem r_sum i (r + m * pre) ;;
   pre' <-- getitem r_sum' i ;;
   Ok (r_sum', pre'))%res.

Definition get_reward_sum_raw (buf_len : nat) (ary_reward ary_mask : tensor)
    (ary_value : matrix) : result (tensor * tensor) :=
  (l <-- rfold (range_down buf_len) (np_empty buf_len, 0) (raw_step ary_reward ary_mask) ;;
   Ok (fst l, tsub (fst l) (tmul ary_mask (column ary_value))))%res.

Definition gae_step (lambda : R) (ary_reward ary_mask : tensor) (ary_value : matrix)
    (i : nat) (l : gae_locals) : result gae_locals :=
  (r <-- getitem ary_reward i ;;
   m <-- getitem ary_mask i ;;
   r_sum' <-- setitem (ary_r_sum l) i (r + m * pre_r_sum l) ;;
   pre_r_sum' <-- getitem r_sum' i ;;
   v <-- getitem ary_value i ;;
   advantage' <-- setitem (ary_advantage l) i (r + m * (pre_advantage l - hd 0 v)) ;;
   a <-- getitem advantage' i ;;
   Ok {| ary_r_sum := r_sum'; ary_advantage := advantage';
         pre_r_sum := pre_r_sum'; pre_advantage := hd 0 v + a * lambda |})%res.

(** [get_reward_sum_gae] of an agent [a], which reads [a.lambda_gae_adv]. *)
Definition get_reward_sum_gae (a : agent) (buf_len : nat) (ary_reward ary_mask : tensor)
    (ary_value : matrix) : result (tensor * tensor) :=
  (l <-- rfold (range_down buf_len)
           {| ary_r_sum := np_empty buf_len; ary_advantage := np_empty buf_len;
              pre_r_sum := 0; pre_advantage := 0 |}
           (gae_step (lambda_gae_adv (hp a)) ary_reward ary_mask ary_value) ;;
   Ok (ary_r_sum l, ary_advantage l))%res.

(** [self.get_reward_sum(...)], as bound on the instance. *)
Definition call_get_reward_sum (buf_len : nat) (ary_reward ary_mask : tensor)
    (ary_value : matrix) : M (tensor * tensor) :=
  w <- get ;;
  match get_reward_sum (bound (self w)) with
  | None => raise TypeError
  | Some RewardSumRaw => lift (get_reward_sum_raw buf_len ary_reward ary_mask ary_value)
  | Some RewardSumGae =>
      lift (get_reward_sum_gae (self w) buf_len ary_reward ary_mask ary_value)
  end.

(** [range(0, n, bs)] and [cat([net(t[i:i + bs]) for i in range(0, n, bs)])]. *)
Definition chunk_starts (n bs : nat) : list nat :=
  map (fun k => (k * bs)%nat) (seq 0 ((n + bs - 1) / bs)).
Definition eval_chunks (net : params) (t : matrix) (n bs : nat) : matrix :=
  concat (map (fun i => forward net (firstn bs (skipn i t))) (chunk_starts n bs)).

(** [torch.cat([self.net(t[i:i + bs]) for i in range(0, n, bs)], dim=0)]
    for the attribute [net]: the attribute is called once per chunk, and
    [torch.cat] refuses an empty list with the exception [cat_empty_error]. *)
Definition cat_chunks (net : bindings -> option net_obj) (t : matrix) (n bs : nat)
  : M matrix :=
  match chunk_starts n bs with
  | [] => raise cat_empty_error
  | _ :: _ =>
      c <- attr net TypeError ;;
      w <- get ;;
      ret (eval_chunks (nets w c) t n bs)
  end.

(** [t[indices]] for indices drawn by [torch.randint(buf_len, ...)]. *)
Definition take {A} (d : A) (t : list A) (indices : list Z) : list A :=
  map (fun i => nth (Z.to_nat i) t d) indices.

Definition torch_randint (high size : Z) : M (list Z) :=
  fun w => let '(l, g) := randint (rng w) high size in (Ok l, set_rng g w).

(** The tensors [update_net] prepares before its loop. *)
Record prepared := {
  buf_state : matrix;
  buf_action : matrix;
  buf_r_sum : tensor;
  buf_logprob : tensor;
  buf_advantage : tensor
}.

(** One pass of the loop of [update_net]; the locals are [obj_critic],
    [obj_actor] and [logprob]. *)
Definition update_step (p : prepared) (buf_len batch_size : Z) (soft_update_tau : R)
  : M (option objective * option objective * option tensor) :=
  indices <- torch_randint buf_len batch_size ;;
  let state' := take [] (buf_state p) indices in
  let action' := take [] (buf_action p) indices in
  let r_sum := take 0 (buf_r_sum p) indices in
  let logprob := take 0 (buf_logprob p) indices in
  let advantage := take 0 (buf_advantage p) indices in
  a <- attr act AttributeError ;;
  w <- get ;;
  let obj_actor := fun v =>
    let '(new_logprob, obj_entropy) := get_logprob_entropy (v_nets v a) state' action' in
    let ratio := texp (tsub new_logprob logprob) in
    let surrogate1 := tmul advantage ratio in
    let surrogate2 := tmul advantage
      (map (clamp (1 - ratio_clip (hp (self w))) (1 + ratio_clip (hp (self w)))) ratio) in
    let obj_surrogate := - tmean (tmin surrogate1 surrogate2) in
    obj_surrogate + obj_entropy * lambda_entropy (hp (self w)) in
  let obj_actor' := {| item := obj_actor (vars_of w); loss := obj_actor |} in
  optim_update ActOptim obj_actor' ;;
  c <- attr cri TypeError ;;
  w <- get ;;
  let obj_critic := fun v =>
    let value := column (forward (v_nets v c) state') in
    criterion_mean value r_sum / (tstd r_sum + 1e-6) in
  let obj_critic' := {| item := obj_critic (vars_of w); loss := obj_critic |} in
  optim_update CriOptim obj_critic' ;;
  w <- get ;;
  (match cri_target (bound (self w)), cri (bound (self w)) with
   | Some t, Some c' =>
       if net_obj_eqb t c' then ret tt
       else soft_update (Some t) (Some c') soft_update_tau
   | None, None => ret tt
   | t, c' => soft_update t c' soft_update_tau
   end) ;;
  ret (Some obj_critic', Some obj_actor', Some logprob).

Definition update_net (buffer' : trajectory_arrays) (batch_size : Z) (repeat_times : number)
    (soft_update_tau : R) : M (R * R * R) :=
  let buf_len := length (ary_state buffer') in
  buf_value <- cat_chunks cri_target (ary_state buffer') buf_len (2 ^ 10) ;;
  a <- attr act AttributeError ;;
  w <- get ;;
  let buf_logprob' := get_old_logprob (nets w a) (ary_action buffer') (ary_noise buffer') in
  '(ary_r_sum', ary_advantage') <-
     call_get_reward_sum buf_len (ary_reward buffer') (ary_mask buffer') buf_value ;;
  let buf_advantage' :=
    map (fun x => (x - tmean ary_advantage') / (tstd ary_advantage' + 1e-5)) ary_advantage' in
  let p := {| buf_state := ary_state buffer'; buf_action := ary_action buffer';
              buf_r_sum := ary_r_sum'; buf_logprob := buf_logprob';
              buf_advantage := buf_advantage' |} in
  n <- lift (update_bound (Z.of_nat buf_len) batch_size repeat_times) ;;
  locals <- for_ (range 0 n) (None, None, None) (fun _ _ =>
    update_step p (Z.of_nat buf_len) batch_size soft_update_tau) ;;
  obj_critic <- item_of (fst (fst locals)) ;;
  obj_actor <- item_of (snd (fst locals)) ;;
  match snd locals with
  | None => raise AttributeError
  | Some logprob => ret (obj_critic, obj_actor, tmean logprob)
  end.

End Defs.
End AgentPPO.

(** ** Agents whose actor and critic share one network *)

Module AgentSharedAC.
Section Defs.
Context {C : Collaborators}.

Definition __init__ : agent :=
  set_avg_loss_c (sqrt (- ln 0.5))
    (set_hp
       {| action_dim := 0; explore_rate := 0; policy_noise := 0.4; update_freq := 2 ^ 7;
          target_entropy := 0; ratio_clip := 0; clip := 0; lambda_entropy := 0;
          lambda_gae_adv := 0 |} AgentBase.__init__).

(** [ClassCri = SharedDPG]; [ClassAct] and both target switches are [None],
    so [act], [cri_target] and [act_target] all name the one network. *)
Definition init (action_dim' : Z) (w : world) : world :=
  AgentBase.init false false false action_dim' w.

(** [self.cri_target.load_state_dict(self.cri.state_dict())]. *)
Definition load_state_dict (target source : net_obj) : M unit :=
  record (LoadStateDict target source) ;;
  modify (fun w => set_nets (upd_net (nets w) target (nets w source)) w).

(** One pass of the loop of [update_net], for the index [i]; the local
    carried over is [actor_obj]. *)
Definition update_step (batch_size_ : Z) (repeat_times : number) (i : Z)
    (actor_obj0 : option objective) : M (option objective) :=
  b <- buffer_sample_batch batch_size_ ;;
  ct <- attr cri_target AttributeError ;;
  c <- attr cri AttributeError ;;
  w <- get ;;
  let '((next_q_label, next_action), g) :=
    next_q_action (nets w ct) (state b) (next_s b) (policy_noise (hp (self w))) (rng w) in
  modify (set_rng g) ;;
  let q_label := tadd (reward b) (tmul (mask b) next_q_label) in
  let critic_obj := fun v => criterion_mean (critic (v_nets v c) (state b) (action b)) q_label in
  modify (fun w =>
    set_self (set_avg_loss_c (0.995 * avg_loss_c (run (self w))
                              + 0.005 * critic_obj (vars_of w) / 2) (self w)) w) ;;
  w <- get ;;
  let lamb := exp (- (avg_loss_c (run (self w)) * avg_loss_c (run (self w)))) in
  let actor_term := fun v =>
    criterion_mean_matrix (forward (v_nets v c) (next_s b)) next_action in
  if_actor <- lift (mod_is_zero i repeat_times) ;;
  '(united_loss, actor_obj) <-
    (if if_actor : bool then
       let actor_obj := fun v =>
         - tmean (critic (v_nets v ct) (state b) (forward (v_nets v c) (state b))) in
       ret (fun v => critic_obj v + actor_term v * (1 - lamb) + actor_obj v * (lamb * 0.5),
            Some {| item := actor_obj (vars_of w); loss := actor_obj |})
     else
       ret (fun v => critic_obj v + actor_term v * (1 - lamb), actor_obj0)) ;;
  optim_update CriOptim {| item := united_loss (vars_of w); loss := united_loss |} ;;
  w <- get ;;
  (if Z.eqb (update_freq (hp (self w))) 0 then raise ZeroDivisionError
   else if Z.eqb (imod i (update_freq (hp (self w)))) (update_freq (hp (self w))) then
     if Rgt_dec lamb 0.1 then load_state_dict ct c else ret tt
   else ret tt) ;;
  ret actor_obj.

(** [k = 1.0 + buffer.now_len / buffer.max_len] and
    [batch_size_ = int(batch_size * k)]. *)
Definition grown_batch_size (now_len' max_len' batch_size : Z) : result Z :=
  (q <-- truediv (PyInt now_len') (PyInt max_len') ;;
   k <-- add (PyFloat (SFone prec emax)) q ;;
   p <-- mul (PyInt batch_size) k ;;
   int p)%res.

Definition update_net (batch_size : Z) (repeat_times : number) (soft_update_tau : R)
  : M (R * R) :=
  buffer_update_now_len ;;
  w <- get ;;
  batch_size_ <- lift (grown_batch_size (now_len (buffer w)) (max_len (buffer w))
                          batch_size) ;;
  n <- update_steps batch_size repeat_times ;;
  actor_obj <- for_ (range 0 n) None (update_step batch_size_ repeat_times) ;;
  actor_obj' <- item_of actor_obj ;;
  w <- get ;;
  ret (actor_obj', avg_loss_c (run (self w))).

End Defs.
End AgentSharedAC.

Module AgentSharedSAC.
Section Defs.
Context {C : Collaborators}.

Definition __init__ : agent :=
  set_obj_c (sqrt (- ln 0.5)) AgentSAC.__init__.

(** [init] does not call the inherited one: one network is both actor and
    critic, its deep copy is both targets, one optimiser holds the network
    and [alpha_log]; [get_obj_critic] stays as [__init__] left it. *)
Definition init (action_dim' : Z) (w : world) : world :=
  let a := self w in
  set_nets (upd_net (nets w) ObjCriCopy (nets w ObjCri))
    (set_self
       (set_alpha_log (- ln (IZR action_dim') * exp 1)
          (set_action_dim (action_dim (hp a)) (ln (IZR action_dim'))
             (set_bound
                {| cri := Some ObjCri; act := Some ObjCri;
                   cri_target := Some ObjCriCopy; act_target := Some ObjCriCopy;
                   optim_params := fun o =>
                     match o with
                     | CriOptim => Some [PNet ObjCri; PAlphaLog]
                     | _ => optim_params (bound a) o
                     end;
                   get_obj_critic := get_obj_critic (bound a);
                   get_obj_critic_per := get_obj_critic_per (bound a);
                   get_reward_sum := get_reward_sum (bound a);
                   get_reward_sum_raw := get_reward_sum_raw (bound a);
                   get_reward_sum_gae := get_reward_sum_gae (bound a) |} a))) w).

(** One pass of the loop of [update_net], for the index [update_c]; the
    locals carried over are [update_a] and [alpha].  [log_alpha] is the
    tensor [self.act.log_alpha] that [update_net] read before the loop: a
    parameter of the network [net0], whose value is the current one. *)
Definition update_step (net0 : net_obj) (batch_size : Z) (soft_update_tau : R)
    (update_c : Z) (locals : Z * option R) : M (Z * option R) :=
  let '(update_a, _) := locals in
  w <- get ;;
  '(obj_critic, state') <-
    AgentSAC.call_get_obj_critic batch_size (exp (log_alpha (nets w net0))) ;;
  modify (fun w =>
    set_self (set_obj_c (0.995 * obj_c (run (self w)) + 0.005 * item obj_critic / 2)
                (self w)) w) ;;
  w <- get ;;
  let reliable_lambda := exp (- (obj_c (run (self w)) * obj_c (run (self w)))) in
  a <- attr act AttributeError ;;
  '(action_pg, logprob, g) <- AgentSAC.action_logprob a state' ;;
  w <- get ;;
  let obj_alpha := fun v =>
    tmean (map (fun lp =>
      v_alpha_log v * (lp - target_entropy (hp (self w))) * reliable_lambda) logprob) in
  AgentSAC.clamp_alpha_log (-20) 2 ;;
  w <- get ;;
  let alpha := exp (alpha_log (run (self w))) in
  '(obj_united, update_a') <-
    (if Rlt_dec (IZR update_a / IZR update_c) (1 / (2 - reliable_lambda)) then
       at' <- attr act_target AttributeError ;;
       let obj_actor := fun v =>
         let '(action_pg', logprob') := fst (get_action_logprob (v_nets v a) state' g) in
         let '(q1, q2) := get_q1_q2 (v_nets v at') state' action_pg' in
         let q_value_pg := tmean (tmin q1 q2) in
         - tmean (map (fun lp => q_value_pg + lp * alpha) logprob') in
       ret (fun v => loss obj_critic v + obj_alpha v + obj_actor v * reliable_lambda,
            (update_a + 1)%Z)
     else
       ret (fun v => loss obj_critic v + obj_alpha v, update_a)) ;;
  optim_update CriOptim {| item := obj_united (vars_of w); loss := obj_united |} ;;
  w <- get ;;
  soft_update (act_target (bound (self w))) (act (bound (self w))) soft_update_tau ;;
  ret (update_a', Some alpha).

Definition update_net (batch_size : Z) (repeat_times : number) (soft_update_tau : R)
  : M (R * R) :=
  buffer_update_now_len ;;
  net0 <- attr act AttributeError ;;
  n <- update_steps batch_size repeat_times ;;
  locals <- for_ (range 1 n) (0%Z, None) (update_step net0 batch_size soft_update_tau) ;;
  match snd locals with
  | None => raise UnboundLocalError
  | Some alpha => w <- get ;; ret (alpha, obj_c (run (self w)))
  end.

End Defs.
End AgentSharedSAC.

Module AgentSharedPPO.
Section Defs.
Context {C : Collaborators}.

Definition __init__ : agent :=
  set_obj_c (sqrt (- ln 0.5))
    (set_hp
       {| action_dim := 0; explore_rate := 0; policy_noise := 0; update_freq := 0;
          target_entropy := 0; ratio_clip := 0.2; clip := 0.25; lambda_entropy := 0.01;
          lambda_gae_adv := 0.98 |} AgentBase.__init__).

(** [init] does not call the inherited one: it binds [get_reward_sum] to
    the attribute [get_reward_sum_gae] or [get_reward_sum_raw] of the
    instance, one network as actor and critic, and one optimiser over it. *)
Definition init (if_per_or_gae : bool) (w : world) : world :=
  let a := self w in
  set_self
    (set_bound
       {| cri := Some ObjCri; act := Some ObjCri;
          cri_target := cri_target (bound a); act_target := act_target (bound a);
          optim_params := fun o =>
            match o with
            | CriOptim => Some [PNet ObjCri]
            | _ => optim_params (bound a) o
            end;
          get_obj_critic := get_obj_critic (bound a);
          get_obj_critic_per := get_obj_critic_per (bound a);
          get_reward_sum :=
            if if_per_or_gae then get_reward_sum_gae (bound a)
            else get_reward_sum_raw (bound a);
          get_reward_sum_raw := get_reward_sum_raw (bound a);
          get_reward_sum_gae := get_reward_sum_gae (bound a) |}
       a) w.

(** The tensors [update_net] prepares before its loop. *)
Record prepared := {
  buf_state : matrix;
  buf_action : matrix;
  buf_r_sum : tensor;
  buf_logprob : tensor;
  buf_advantage : tensor
}.

(** One pass of the loop of [update_net]; the locals are [obj_critic] and
    [obj_actor]. *)
Definition update_step (p : prepared) (buf_len batch_size : Z)
  : M (option objective * option objective) :=
  indices <- AgentPPO.torch_randint buf_len batch_size ;;
  let state' := AgentPPO.take [] (buf_state p) indices in
  let action' := AgentPPO.take [] (buf_action p) indices in
  let advantage := AgentPPO.take 0 (buf_advantage p) indices in
  let old_value := AgentPPO.take 0 (buf_r_sum p) indices in
  let old_logprob := AgentPPO.take 0 (buf_logprob p) indices in
  a <- attr act AttributeError ;;
  c <- attr cri TypeError ;;
  w <- get ;;
  let obj_actor := fun v =>
    let new_logprob := compute_logprob (v_nets v a) state' action' in
    let ratio := texp (tsub new_logprob old_logprob) in
    let obj_surrogate1 := tmul advantage ratio in
    let obj_surrogate2 := tmul advantage
      (map (clamp (1 - clip (hp (self w))) (1 + clip (hp (self w)))) ratio) in
    let obj_surrogate := - tmean (tmin obj_surrogate1 obj_surrogate2) in
    let obj_entropy := tmean (tmul (texp new_logprob) new_logprob) in
    obj_surrogate + obj_entropy * lambda_entropy (hp (self w)) in
  let obj_critic := fun v =>
    criterion_mean (AgentPPO.column (forward (v_nets v c) state')) old_value in
  modify (fun w =>
    set_self (set_obj_c (0.995 * obj_c (run (self w)) + 0.005 * obj_critic (vars_of w))
                (self w)) w) ;;
  w <- get ;;
  let reliable_lambda := exp (- (obj_c (run (self w)) * obj_c (run (self w)))) in
  let obj_united := fun v =>
    obj_actor v * reliable_lambda + obj_critic v / (tstd old_value + 1e-5) in
  optim_update CriOptim {| item := obj_united (vars_of w); loss := obj_united |} ;;
  ret (Some {| item := obj_critic (vars_of w); loss := obj_critic |},
       Some {| item := obj_actor (vars_of w); loss := obj_actor |}).

Definition update_net (batch_size : Z) (repeat_times : number) : M (R * R * R) :=
  buffer_update_now_len ;;
  w <- get ;;
  let buf_len := now_len (buffer w) in
  let all := sample_all (buffer w) in
  buf_value <-
    AgentPPO.cat_chunks cri (ary_state all) (length (ary_state all)) (2 ^ 10) ;;
  a <- attr act AttributeError ;;
  let buf_logprob' :=
    map (fun row =>
           - tsum (tmap2 (fun nz s => nz * nz * 0.5 + s + sqrt_2pi_log (nets w a))
                     row (a_std_log (nets w a))))
        (ary_noise all) in
  '(buf_r_sum', buf_advantage') <-
     AgentPPO.call_get_reward_sum (Z.to_nat buf_len) (ary_reward all) (ary_mask all)
       buf_value ;;
  let p := {| buf_state := ary_state all; buf_action := ary_action all;
              buf_r_sum := buf_r_sum'; buf_logprob := buf_logprob';
              buf_advantage := buf_advantage' |} in
  n <- update_steps batch_size repeat_times ;;
  locals <- for_ (range 0 n) (None, None) (fun _ _ => update_step p buf_len batch_size) ;;
  obj_critic <- item_of (fst locals) ;;
  obj_actor <- item_of (snd locals) ;;
  w <- get ;;
  ret (obj_critic, obj_actor, tmean (a_std_log (nets w a))).

End Defs.
End AgentSharedPPO.

(** ** Vocabulary of the statements *)

(** Reading the call history. *)
Definition is_optim (o : optim_obj) (e : event) : bool :=
  match e with
  | OptimUpdate o' => optim_obj_eqb o' o
  | _ => false
  end.

Definition is_load_state_dict (e : event) : bool :=
  match e with
  | LoadStateDict _ _ => true
  | _ => false
  end.

Definition is_td_error_update (e : event) : bool :=
  match e with
  | TdErrorUpdate _ => true
  | _ => false
  end.

(** The number of gradient steps taken with the optimiser [o]. *)
Definition optim_steps (o : optim_obj) (l : list event) : nat :=
  length (filter (is_optim o) l).

(** The number of hard copies into a target. *)
Definition hard_copies (l : list event) : nat :=
  length (filter is_load_state_dict l).

(** The number of TD-error reports to the buffer. *)
Definition td_reports (l : list event) : nat :=
  length (filter is_td_error_update l).

(** The history without the reports to the buffer: the gradient steps and
    the target updates, newest first. *)
Definition net_calls (l : list event) : list event :=
  filter (fun e => negb (is_td_error_update e)) l.

(** A computation that records no event of the kind [P], whatever world it
    starts in and whether it returns or raises. *)
Definition silent {C : Collaborators} {A} (P : event -> bool) (c : M A) : Prop :=
  forall w, length (filter P (calls (snd (c w)))) = length (filter P (calls w)).

(** Two parameter lists of the same shape. *)
Definition same_shape (a b : params) : Prop :=
  Forall2 (fun x y : tensor => length x = length y) a b.

(** The entry [j] of the parameter tensor [p]. *)
Definition entry (ps : params) (p j : nat) : R := nth j (nth p ps []) 0.

(** [n] calls of [c] in a row. *)
Fixpoint times {C : Collaborators} (n : nat) (c : M unit) : M unit :=
  match n with
  | O => ret tt
  | S k => c ;; times k c
  end.

(** What holds in the loop of [get_reward_sum_gae] once the indices from [k]
    up to [n - 1] are done ([value] is the column of [ary_value]). *)
Definition gae_next (n : nat) (t : tensor) (i : nat) : R :=
  if (S i <? n)%nat then nth (S i) t 0 else 0.

Definition gae_prev_advantage (lambda : R) (n : nat) (value advantage : tensor) (i : nat) : R :=
  if (S i <? n)%nat then nth (S i) value 0 + nth (S i) advantage 0 * lambda else 0.

Definition gae_done (lambda : R) (n : nat) (reward' mask' value : tensor) (k : nat)
    (r_sum advantage : tensor) : Prop :=
  length r_sum = n /\ length advantage = n /\
  (forall i, (k <= i < n)%nat ->
     nth i r_sum 0 = nth i reward' 0 + nth i mask' 0 * gae_next n r_sum i) /\
  (forall i, (k <= i < n)%nat ->
     nth i advantage 0
     = nth i reward' 0
       + nth i mask' 0 * (gae_prev_advantage lambda n value advantage i - nth i value 0)).

(** What [AgentSAC.get_obj_critic_raw] and [_per] compute from the world
    they start in: the batch, the next action and the value [next_log_prob]
    that the target actor returns beside it, the twin target critics there,
    the label, and the twin online critics at the sampled state and
    action. *)
Record sac_sample := {
  sac_batch : batch;
  sac_next_log_prob : tensor;
  sac_next_q : tensor;
  sac_q_label : tensor;
  sac_q1 : tensor;
  sac_q2 : tensor
}.

Definition sac_sample_of {C : Collaborators} (w : world) (batch_size : Z) (alpha : R)
    (ct at' c : net_obj) : sac_sample :=
  let b := fst (sample_batch (buffer w) batch_size) in
  let al := fst (get_action_logprob (nets w at') (next_s b) (rng w)) in
  let tq := get_q1_q2 (nets w ct) (next_s b) (fst al) in
  let q := get_q1_q2 (nets w c) (state b) (action b) in
  {| sac_batch := b;
     sac_next_log_prob := snd al;
     sac_next_q := tmin (fst tq) (snd tq);
     sac_q_label :=
       tadd (reward b) (tmul (mask b) (tadd (tmin (fst tq) (snd tq)) (tscale (snd al) alpha)));
     sac_q1 := fst q;
     sac_q2 := snd q |}.

(** The value of the critic objective on a sample, plain or with
    prioritised replay, and the errors reported to the buffer with it. *)
Definition sac_critic_item (per : bool) (s : sac_sample) : R :=
  if per then
    tmean (tmul (tadd (criterion_none (sac_q1 s) (sac_q_label s))
                      (criterion_none (sac_q2 s) (sac_q_label s)))
                (is_weights (sac_batch s)))
  else
    criterion_mean (sac_q1 s) (sac_q_label s) + criterion_mean (sac_q2 s) (sac_q_label s).

Definition sac_td_calls (per : bool) (s : sac_sample) : list event :=
  if per then [TdErrorUpdate (tabs (tsub (sac_q_label s) (tmin (sac_q1 s) (sac_q2 s))))]
  else [].

(** Binding a method attribute by hand, as a caller of [update_net] must
    where [init] leaves it [None]:
    [self.get_obj_critic = <the method get_obj_critic_raw or _per>] and
    [self.get_reward_sum = <the method get_reward_sum_raw or _gae>]. *)
Definition bind_get_obj_critic {C : Collaborators} (o : critic_objective) (w : world)
  : world :=
  set_self (set_get_obj_critic (Some o) (self w)) w.

Definition bind_get_reward_sum {C : Collaborators} (rs : reward_sum) (w : world) : world :=
  set_self (set_get_reward_sum (Some rs) (self w)) w.

(** The world [w] that an [init] with the flag [if_use_per] built, with
    [get_obj_critic] naming the method the flag asks for: without the flag
    that is what [init] bound itself; with it, [init] bound the [None] of
    the attribute [get_obj_critic_per], and the method is bound by hand. *)
Definition with_get_obj_critic {C : Collaborators} (if_use_per : bool) (w : world) : world :=
  bind_get_obj_critic (if if_use_per then ObjCriticPer else ObjCriticRaw) w.

(** [i % repeat_times] has a value at every index of a loop of [n]
    passes: [repeat_times] is not zero, and every index, if [repeat_times]
    is a float, has a nearest float. *)
Definition mod_defined (n : Z) (repeat_times : number) : Prop :=
  forall i, (0 <= i < n)%Z -> exists b, mod_is_zero i repeat_times = Ok b.





(** ** A small concrete instance, for running the definitions *)

Definition toy_batch : batch :=
  {| reward := [1]; mask := [1]; action := [[0]]; state := [[0]];
     next_s := [[0]]; is_weights := [1] |}.

Definition toy_arrays : trajectory_arrays :=
  {| ary_state := [[0]; [0]]; ary_action := [[0]; [0]]; ary_noise := [[0]; [0]];
     ary_reward := [1; 1]; ary_mask := [1; 0] |}.

(** Every network returns one row per sample; the critics value every
    sample at 1; [get_action_logprob] returns 1 beside every action; one
    Adam step adds 1 to every parameter; the buffer holds [now_len] samples
    and hands out [toy_batch]. *)
Definition toy : Collaborators :=
  {| OptimState := nat;
     Rng := nat;
     Buffer := Z;
     forward := fun _ m => map (fun _ => [0; 1]) m;
     forward2 := fun _ m _ => map (fun _ => 1) m;
     get_q1_q2 := fun _ m _ => (map (fun _ => 1) m, map (fun _ => 1) m);
     get_action := fun _ m _ g => (m, S g);
     get_action_logprob := fun _ m g => ((m, map (fun _ => 1) m), S g);
     get_action_noise := fun _ m g => ((m, m), S g);
     get_old_logprob := fun _ m _ => map (fun _ => 0) m;
     get_logprob_entropy := fun _ m _ => (map (fun _ => 0) m, 0);
     compute_logprob := fun _ m _ => map (fun _ => 0) m;
     next_q_action := fun _ m _ _ g => ((map (fun _ => 1) m, m), S g);
     critic := fun _ m _ => map (fun _ => 1) m;
     log_alpha := fun _ => 0;
     a_std_log := fun _ => [0];
     sqrt_2pi_log := fun _ => 0;
     adam_step := fun st p _ => (S st, map (map (fun x => x + 1)) p);
     randint := fun g _ size => (map (fun _ => 0%Z) (range 0 size), S g);
     cat_empty_error := RuntimeError;
     update_now_len := fun b => b;
     now_len := fun b => b;
     max_len := fun _ => 8%Z;
     sample_batch := fun b _ => (toy_batch, b);
     sample_all := fun _ => toy_arrays;
     td_error_update := fun b _ => b |}.

(** A world for [toy]: every network has the one parameter 0, the buffer
    holds [n] samples. *)
Definition toy_world (a : agent) (n : Z) : @world toy :=
  @Build_world toy a (fun _ => [[0]]) (fun _ => 0%nat) 0%nat n [].

(** The default [AgentDQN] and [AgentDoubleDQN] over two actions. *)
Definition toy_dqn : @world toy :=
  AgentDQN.init 2 false (toy_world AgentDQN.__init__ 0).
Definition toy_double_dqn : @world toy :=
  AgentDoubleDQN.init 2 false (toy_world AgentDoubleDQN.__init__ 0).

(** Agents with prioritised replay and a buffer of four samples: [init]
    under [if_use_per], then [get_obj_critic] bound by hand to the method
    [get_obj_critic_per], which [init] leaves [None]. *)
Definition toy_dqn_per : @world toy :=
  bind_get_obj_critic ObjCriticPer (AgentDQN.init 2 true (toy_world AgentDQN.__init__ 4)).
Definition toy_ddpg_per : @world toy :=
  bind_get_obj_critic ObjCriticPer (AgentDDPG.init 1 true (toy_world AgentDDPG.__init__ 4)).
Definition toy_sac_per : @world toy :=
  bind_get_obj_critic ObjCriticPer (AgentSAC.init 1 true (toy_world AgentSAC.__init__ 4)).

(** Default agents of the other classes as [init] builds them, with a
    buffer of four samples. *)
Definition toy_td3 : @world toy :=
  AgentTD3.init 1 false (toy_world AgentTD3.__init__ 4).
Definition toy_modsac : @world toy :=
  AgentModSAC.init 1 false (toy_world AgentModSAC.__init__ 4).
Definition toy_shared_ac : @world toy :=
  AgentSharedAC.init 1 (toy_world AgentSharedAC.__init__ 4).

(** A world whose target copy of the critic holds 0 and whose other networks
    hold 1. *)
Definition toy_pair : @world toy :=
  @Build_world toy AgentBase.__init__
    (fun m => match m with ObjCriCopy => [[0]] | _ => [[1]] end)
    (fun _ => 0%nat) 0%nat 0%Z [].

(** An environment that ends an episode where its script says so. *)
Definition toy_env : Environment :=
  {| Env := list bool;
     env_reset := fun e => ([0], e);
     env_step := fun e _ => (([0], 0, hd false e), tl e);
     vec_step := fun e actions => (map (fun _ => ([0], 0, hd false e)) actions, tl e) |}.

Definition toy_explorer : explorer := {| states := [[0]]; trajectory_list := [[]] |}.

(** ** Further vocabulary *)

Definition is_soft_update (e : event) : bool :=
  match e with
  | SoftUpdate _ _ => true
  | _ => false
  end.

(** The number of soft updates in a history. *)
Definition soft_updates (l : list event) : nat := length (filter is_soft_update l).

(** The calls of the pass of index [update_c] of [AgentTD3.update_net],
    newest first, without the reports to the buffer. *)
Definition td3_pass_calls (update_freq' update_c : Z) : list event :=
  (if (imod update_c update_freq' =? 0)%Z
   then [SoftUpdate ObjActCopy ObjAct; SoftUpdate ObjCriCopy ObjCri]
   else [])
  ++ [OptimUpdate ActOptim; OptimUpdate CriOptim].

(** An [AgentPPO] with its [get_reward_sum] bound to [get_reward_sum_gae]. *)
Definition toy_ppo_gae : @world toy :=
  let w := AgentPPO.init 1 (toy_world AgentPPO.__init__ 0) in
  set_self (set_get_reward_sum (Some RewardSumGae) (self w)) w.


(** ** Exploration of the off-policy agents *)

(** The generators behind the exploration noise, one entry per draw: an
    entry of [torch.randn_like], of [torch.normal(mean, std)], of
    [torch.rand_like], which is uniform on [[0, 1)], and of numpy's
    [rd.normal]. *)
Class Generators {C : Collaborators} := {
  randn1 : Rng -> R * Rng;
  normal1 : R -> R -> Rng -> R * Rng;
  rand1 : Rng -> R * Rng;
  rd_normal1 : Rng -> R * Rng;
  rand1_range : forall g, 0 <= fst (rand1 g) < 1
}.

(** [n] draws in a row, and one draw per entry of a list. *)
Fixpoint draws {G A} (draw : G -> A * G) (n : nat) (g : G) : list A * G :=
  match n with
  | O => ([], g)
  | S k =>
      let '(x, g1) := draw g in
      let '(xs, g2) := draws draw k g1 in
      (x :: xs, g2)
  end.

Fixpoint draws_at {G A B} (draw : B -> G -> A * G) (bs : list B) (g : G) : list A * G :=
  match bs with
  | [] => ([], g)
  | b :: bs' =>
      let '(x, g1) := draw b g in
      let '(xs, g2) := draws_at draw bs' g1 in
      (x :: xs, g2)
  end.

(** One recorded step of an off-policy trajectory:
    [(state, (reward, done, *action))]. *)
Record step_record (A : Type) := {
  s_state : list R;
  s_reward : R;
  s_done : bool;
  s_action : A
}.

Arguments s_state {A} s.
Arguments s_reward {A} s.
Arguments s_done {A} s.
Arguments s_action {A} s.

(** An environment with integer actions. *)
Class DiscreteEnvironment := {
  DEnv : Type;
  denv_reset : DEnv -> list R * DEnv;
  denv_step : DEnv -> Z -> (list R * R * bool) * DEnv
}.

(** The loop that [AgentBase.explore_one_env] and [AgentDQN.explore_env]
    share word for word: [select] is [self.select_action], [step] and
    [reset] are [env.step] and [env.reset]; the locals are [trajectory]
    and [state]. *)
Section ExploreLoop.
Context {G A Ev : Type}.
Variable select : G -> list R -> result (A * G).
Variable step : Ev -> A -> (list R * R * bool) * Ev.
Variable reset : Ev -> list R * Ev.

Record explore_state := {
  trajectory : list (step_record A);
  x_state : list R;
  x_env : Ev;
  x_rng : G
}.

Definition explore_pass (l : explore_state) : result explore_state :=
  match select (x_rng l) (x_state l) with
  | Raise e => Raise e
  | Ok (action', g') =>
      let '((next_s', reward', done), env') := step (x_env l) action' in
      let trajectory' :=
        trajectory l ++ [{| s_state := x_state l; s_reward := reward'; s_done := done;
                            s_action := action' |}] in
      if done then
        let '(s0, env'') := reset env' in
        Ok {| trajectory := trajectory'; x_state := s0; x_env := env''; x_rng := g' |}
      else
        Ok {| trajectory := trajectory'; x_state := next_s'; x_env := env'; x_rng := g' |}
  end.

Definition explore_loop (target_step : nat) (l : explore_state) : result explore_state :=
  rfold (seq 0 target_step) l (fun _ l => explore_pass l).

(** The same locals with another [trajectory]. *)
Definition with_trajectory (t : list (step_record A)) (l : explore_state) : explore_state :=
  {| trajectory := t; x_state := x_state l; x_env := x_env l; x_rng := x_rng l |}.

End ExploreLoop.

Module BaseExplore.
Section Defs.
Context {C : Collaborators} {E : Environment} {Gn : Generators}.

(** [AgentBase.select_action]; [explore_noise] is [None] until a class
    sets it, and a tensor times [None] is a [TypeError]. *)
Definition select_action (act_params : params) (explore_noise : option R) (g : Rng)
    (state' : list R) : result (list R * Rng) :=
  let action' := hd [] (forward act_params [state']) in
  let '(noise, g') := draws randn1 (length action') g in
  match explore_noise with
  | None => Raise TypeError
  | Some en => Ok (map (clamp (-1) 1) (tadd action' (tscale noise en)), g')
  end.

(** [AgentBase.select_actions]: the same on every row. *)
Definition select_actions (act_params : params) (explore_noise : option R) (g : Rng)
    (states' : matrix) : result (matrix * Rng) :=
  let actions := forward act_params states' in
  let '(noises, g') :=
    draws_at (fun (row : list R) => draws randn1 (length row)) actions g in
  match explore_noise with
  | None => Raise TypeError
  | Some en =>
      Ok (map (fun an => map (clamp (-1) 1) (tadd (fst an) (tscale (snd an) en)))
            (combine actions noises), g')
  end.

(** [AgentBase.explore_one_env]: returns the list that holds the one
    trajectory, and the new [self.states]. *)
Definition explore_one_env (select : Rng -> list R -> result (list R * Rng))
    (states' : list (list R)) (env : Env) (g : Rng) (target_step : nat)
  : result (list (list (step_record (list R))) * list (list R) * Env * Rng) :=
  (state0 <-- getitem states' 0 ;;
   l <-- explore_loop select env_step env_reset target_step
           {| trajectory := []; x_state := state0; x_env := env; x_rng := g |} ;;
   states'' <-- setitem states' 0 (x_state l) ;;
   Ok ([trajectory l], states'', x_env l, x_rng l))%res.

(** The locals of the outer loop of [AgentBase.explore_vec_env]. *)
Record vec_state := {
  v_trajectories : list (list (step_record (list R)));
  v_states : matrix;
  v_env : Env;
  v_rng : Rng
}.

(** The inner loop over [env_i]; the locals are [trajectory_list] and
    [next_states]. *)
Definition vec_record (states' actions : matrix) (s_r_d_list : list (list R * R * bool))
    (env_i : nat) (l : list (list (step_record (list R))) * matrix)
  : result (list (list (step_record (list R))) * matrix) :=
  (let '(trajectory_list', next_states) := l in
   srd <-- getitem s_r_d_list env_i ;;
   let '(next_state, reward', done) := srd in
   tr <-- getitem trajectory_list' env_i ;;
   st <-- getitem states' env_i ;;
   a <-- getitem actions env_i ;;
   trajectory_list'' <-- setitem trajectory_list' env_i
     (tr ++ [{| s_state := st; s_reward := reward'; s_done := done; s_action := a |}]) ;;
   Ok (trajectory_list'', next_states ++ [next_state]))%res.

Definition vec_pass (selects : Rng -> matrix -> result (matrix * Rng)) (env_num : nat)
    (l : vec_state) : result vec_state :=
  match selects (v_rng l) (v_states l) with
  | Raise e => Raise e
  | Ok (actions, g') =>
      let '(s_r_d_list, env') := vec_step (v_env l) actions in
      (r <-- rfold (seq 0 env_num) (v_trajectories l, [])
               (vec_record (v_states l) actions s_r_d_list) ;;
       Ok {| v_trajectories := fst r; v_states := snd r; v_env := env'; v_rng := g' |})%res
  end.

(** [AgentBase.explore_vec_env]: [self.trajectory_list] is read for its
    length only. *)
Definition explore_vec_env (selects : Rng -> matrix -> result (matrix * Rng))
    (env_num : nat) (states' : matrix) (env : Env) (g : Rng) (target_step : nat)
  : result (list (list (step_record (list R))) * matrix * Env * Rng) :=
  (l <-- rfold (seq 0 target_step)
           {| v_trajectories := repeat [] env_num; v_states := states';
              v_env := env; v_rng := g |}
           (fun _ l => vec_pass selects env_num l) ;;
   Ok (v_trajectories l, v_states l, v_env l, v_rng l))%res.

End Defs.
End BaseExplore.

Module DQNExplore.
Section Defs.
Context {G : Type} {D : DiscreteEnvironment}.

(** [AgentDQN.explore_env]: returns the trajectory itself. *)
Definition explore_env (select : G -> list R -> result (Z * G))
    (states' : list (list R)) (env : DEnv) (g : G) (target_step : nat)
  : result (list (step_record Z) * list (list R) * DEnv * G) :=
  (state0 <-- getitem states' 0 ;;
   l <-- explore_loop select denv_step denv_reset target_step
           {| trajectory := []; x_state := state0; x_env := env; x_rng := g |} ;;
   states'' <-- setitem states' 0 (x_state l) ;;
   Ok (trajectory l, states'', x_env l, x_rng l))%res.

End Defs.
End DQNExplore.

Section ExploreVecShape.
Context {C : Collaborators} {E : Environment} {Gn : Generators}.

(** What one pass over [env_i] does to the locals: the trajectory of every
    environment below [k] has one record more, the others are as they were,
    and [next_states] holds [k] states. *)
Definition vec_recorded (tl0 : list (list (step_record (list R)))) (k : nat)
    (l : list (list (step_record (list R))) * matrix) : Prop :=
  length (fst l) = length tl0 /\
  length (snd l) = k /\
  forall j t, nth_error tl0 j = Some t ->
    exists t', nth_error (fst l) j = Some t' /\
      length t' = if (j <? k)%nat then S (length t) else length t.

(** The locals of the outer loop after [i] passes. *)
Definition vec_explored (env_num i : nat) (l : BaseExplore.vec_state) : Prop :=
  length (BaseExplore.v_trajectories l) = env_num /\
  Forall (fun t => length t = i) (BaseExplore.v_trajectories l) /\
  (0 < i -> length (BaseExplore.v_states l) = env_num)%nat.

End ExploreVecShape.

(** [a + b] on numpy arrays of one dimension: equal lengths, or one of the
    two of length 1 and broadcast. *)
Definition np_add (a b : list R) : result (list R) :=
  if (length a =? length b)%nat then Ok (tadd a b)
  else if (length b =? 1)%nat then Ok (map (fun x => x + hd 0 b) a)
  else if (length a =? 1)%nat then Ok (map (fun y => hd 0 a + y) b)
  else Raise ValueError.

Module OrnsteinUhlenbeckNoise.
Section Defs.
Context {C : Collaborators} {Gn : Generators}.

(** [self.ou_noise]: the float it is created with, then an array. *)
Inductive value :=
| Scalar (x : R)
| Array (v : list R).

Record t := {
  theta : R;
  sigma : R;
  ou_noise : value;
  dt : R;
  size : nat
}.

(** [__init__(size, theta=0.15, sigma=0.3, ou_noise=0.0, dt=1e-2)]. *)
Definition __init__ (size' : nat) (theta' sigma' ou_noise' dt' : R) : t :=
  {| theta := theta'; sigma := sigma'; ou_noise := Scalar ou_noise'; dt := dt';
     size := size' |}.

(** [__call__]: [rd.normal(size=self.size)] has [size] entries; [-=] on an
    array writes in place, so the right-hand side must broadcast to the
    shape the array has. *)
Definition __call__ (o : t) (g : Rng) : result (list R * t * Rng) :=
  let '(z, g') := draws rd_normal1 (size o) g in
  let noise := map (fun x => sigma o * sqrt (dt o) * x) z in
  let set v := Ok (v, {| theta := theta o; sigma := sigma o; ou_noise := Array v;
                         dt := dt o; size := size o |}, g') in
  match ou_noise o with
  | Scalar x => set (map (fun n => x - (theta o * x * dt o + n)) noise)
  | Array v =>
      if (length v =? size o)%nat then
        set (tmap2 (fun x n => x - (theta o * x * dt o + n)) v noise)
      else if (size o =? 1)%nat then
        set (map (fun x => x - (theta o * x * dt o + hd 0 noise)) v)
      else Raise ValueError
  end.

End Defs.
End OrnsteinUhlenbeckNoise.

(** The state of the noise process fits its [size]: the float of
    [__init__], or an array of [size] entries. *)
Definition ou_fits (o : OrnsteinUhlenbeckNoise.t) : Prop :=
  match OrnsteinUhlenbeckNoise.ou_noise o with
  | OrnsteinUhlenbeckNoise.Scalar _ => True
  | OrnsteinUhlenbeckNoise.Array v => length v = OrnsteinUhlenbeckNoise.size o
  end.

Module DDPGExplore.
Section Defs.
Context {C : Collaborators} {Gn : Generators}.

(** [self.explore_noise = 0.3]; [init] creates
    [OrnsteinUhlenbeckNoise(size=action_dim, sigma=self.explore_noise)]. *)
Definition explore_noise : R := 0.3.

Definition init_ou_noise (action_dim' : nat) : OrnsteinUhlenbeckNoise.t :=
  OrnsteinUhlenbeckNoise.__init__ action_dim' 0.15 explore_noise 0 0.01.

(** [AgentDDPG.select_action]; [self.ou_noise] is [None] before [init]. *)
Definition select_action (act_params : params) (ou : option OrnsteinUhlenbeckNoise.t)
    (g : Rng) (state' : list R)
  : result (list R * OrnsteinUhlenbeckNoise.t * Rng) :=
  let action' := hd [] (forward act_params [state']) in
  match ou with
  | None => Raise TypeError
  | Some o =>
      match OrnsteinUhlenbeckNoise.__call__ o g with
      | Raise e => Raise e
      | Ok (noise, o', g') =>
          match np_add action' noise with
          | Raise e => Raise e
          | Ok a => Ok (map (clamp (-1) 1) a, o', g')
          end
      end
  end.

End Defs.
End DDPGExplore.

Module SharedACExplore.
Section Defs.
Context {C : Collaborators} {Gn : Generators}.

(** [self.explore_noise = 0.2]. *)
Definition explore_noise : R := 0.2.

(** One entry of [noise_uniform * mask + a_temp * (-mask + 1)], where
    [mask] is 1 where [a_temp] is outside [[-1, 1]] and 0 elsewhere. *)
Definition mask_of (a_temp : R) : R :=
  if Rlt_dec a_temp (-1) then 1 else if Rgt_dec a_temp 1 then 1 else 0.

Definition select_entry (a_temp noise_uniform : R) : R :=
  noise_uniform * mask_of a_temp + a_temp * (- mask_of a_temp + 1).

(** [AgentSharedAC.select_action]; [torch.normal] refuses a negative
    standard deviation. *)
Definition select_action (act_params : params) (explore_noise' : R) (g : Rng)
    (state' : list R) : result (list R * Rng) :=
  let action' := hd [] (forward act_params [state']) in
  if Rlt_dec explore_noise' 0 then Raise RuntimeError
  else
    let '(a_temp, g1) := draws_at (fun mean => normal1 mean explore_noise') action' g in
    let '(noise_uniform, g2) := draws rand1 (length action') g1 in
    Ok (tmap2 select_entry a_temp noise_uniform, g2).

End Defs.
End SharedACExplore.

(** Generators for [toy]: every draw is 0. *)
Definition toy_generators : @Generators toy :=
  @Build_Generators toy
    (fun g : nat => (0, S g))
    (fun mean _ (g : nat) => (mean, S g))
    (fun g : nat => (0, S g))
    (fun g : nat => (0, S g))
    (fun _ => conj (Rle_refl 0) Rlt_0_1).

(** * Properties *)

(** ** Soft update *)

Section SoftUpdate.
Context {C : Collaborators}.

Lemma blend_nth tau : forall tar cur j,
  length tar = length cur ->
  nth j (blend tau tar cur) 0 = nth j tar 0 * (1 - tau) + nth j cur 0 * tau.
Proof.
  unfold blend, tmap2.
  induction tar as [|t tar IH]; intros [|c cur] j Hlen; simpl in *; try discriminate.
  - destruct j; lra.
  - destruct j; simpl; [lra|]. apply IH. lia.
Qed.

Lemma blend_length tau tar cur :
  length tar = length cur -> length (blend tau tar cur) = length cur.
Proof.
  intros H. unfold blend, tmap2. rewrite length_map, length_combine. lia.
Qed.

Lemma soft_update_params_entry tau : forall target current,
  same_shape target current ->
  forall p j,
    entry (soft_update_params target current tau) p j
    = entry target p j * (1 - tau) + entry current p j * tau.
Proof.
  unfold entry. intros target current H.
  induction H as [|tar cur ts cs Hl Hs IH]; intros p j; simpl.
  - destruct p, j; simpl; lra.
  - destruct p; simpl; [now apply blend_nth | apply IH].
Qed.

Lemma soft_update_params_shape tau : forall target current,
  same_shape target current ->
  same_shape (soft_update_params target current tau) current.
Proof.
  intros target current H.
  induction H as [|tar cur ts cs Hl Hs IH]; simpl; constructor; auto.
  now apply blend_length.
Qed.

Lemma same_shape_refl : forall p, same_shape p p.
Proof. induction p; constructor; auto. Qed.

Lemma net_obj_eqb_eq a b : net_obj_eqb a b = true <-> a = b.
Proof. destruct a, b; simpl; split; intros H; congruence. Qed.

Lemma net_obj_eqb_refl a : net_obj_eqb a a = true.
Proof. now destruct a. Qed.

Lemma net_obj_eqb_neq a b : a <> b -> net_obj_eqb a b = false.
Proof.
  intros H. destruct (net_obj_eqb a b) eqn:E; auto.
  apply net_obj_eqb_eq in E. contradiction.
Qed.

Lemma soft_update_run (w : world) t c tau :
  soft_update (Some t) (Some c) tau w
  = (Ok tt, set_nets (upd_net (nets w) t (soft_update_params (nets w t) (nets w c) tau))
              (set_calls (SoftUpdate t c :: calls w) w)).
Proof. reflexivity. Qed.

Lemma times_soft_update tau t c : forall n (w : world),
  same_shape (nets w t) (nets w c) ->
  let r := times n (soft_update (Some t) (Some c) tau) w in
  fst r = Ok tt /\
  (forall p j,
     entry (nets (snd r) t) p j - entry (nets (snd r) c) p j
     = (entry (nets w t) p j - entry (nets w c) p j) * (1 - tau) ^ n) /\
  (forall p j, entry (nets (snd r) c) p j = entry (nets w c) p j).
Proof.
  induction n as [|n IH]; intros w Hs; cbn zeta.
  - simpl. repeat split; intros; lra.
  - cbn [times]. unfold bind at 1. rewrite soft_update_run.
    set (w1 := set_nets _ _).
    assert (Ht : nets w1 t = soft_update_params (nets w t) (nets w c) tau).
    { subst w1. simpl. unfold upd_net. now rewrite net_obj_eqb_refl. }
    assert (Hc : forall p j, entry (nets w1 c) p j = entry (nets w c) p j).
    { intros p j. subst w1. simpl. unfold upd_net.
      destruct (net_obj_eqb c t) eqn:E; auto.
      apply net_obj_eqb_eq in E. subst c.
      rewrite soft_update_params_entry by assumption. lra. }
    assert (Hs1 : same_shape (nets w1 t) (nets w1 c)).
    { rewrite Ht. subst w1. simpl. unfold upd_net.
      destruct (net_obj_eqb c t) eqn:E.
      - apply same_shape_refl.
      - now apply soft_update_params_shape. }
    destruct (IH w1 Hs1) as (H1 & H2 & H3). cbn zeta in *.
    split; [exact H1|]. split.
    + intros p j. rewrite H2, Hc, Ht, soft_update_params_entry by assumption.
      simpl pow. nra.
    + intros p j. now rewrite H3, Hc.
Qed.

(** C8. One call of [soft_update] sets every entry of every parameter of the
    target to [target * (1 - tau) + online * tau] and writes nothing else:
    the other networks, the optimiser states, the agent's attributes, the
    generator and the buffer are as before.  For [0 < tau < 1], after [n]
    calls every entry of the target is at distance
    [|target0 - online| * (1 - tau) ^ n] from the online entry, which has not
    moved.  From target 0 and online 1 with [tau = 0.1], one call gives 0.1
    and a second gives 0.19. *)
Theorem soft_update_blend_geometric :
  forall (w : world) (t c : net_obj) (tau : R),
    same_shape (nets w t) (nets w c) ->
    0 < tau < 1 ->
    let r := soft_update (Some t) (Some c) tau w in
    fst r = Ok tt /\
    (forall p j,
       entry (nets (snd r) t) p j
       = entry (nets w t) p j * (1 - tau) + entry (nets w c) p j * tau) /\
    (forall m, m <> t -> nets (snd r) m = nets w m) /\
    optims (snd r) = optims w /\
    self (snd r) = self w /\
    rng (snd r) = rng w /\
    buffer (snd r) = buffer w /\
    (forall n p j,
       let rn := times n (soft_update (Some t) (Some c) tau) w in
       fst rn = Ok tt /\
       entry (nets (snd rn) c) p j = entry (nets w c) p j /\
       Rabs (entry (nets (snd rn) t) p j - entry (nets (snd rn) c) p j)
       = Rabs (entry (nets w t) p j - entry (nets w c) p j) * (1 - tau) ^ n) /\
    soft_update_params [[0]] [[1]] 0.1 = [[0.1]] /\
    soft_update_params [[0.1]] [[1]] 0.1 = [[0.19]].
Proof.
  intros w t c tau Hs Ht. cbn zeta. rewrite soft_update_run. simpl fst. simpl snd.
  split; [reflexivity|]. split.
  { intros p j. simpl. unfold upd_net. rewrite net_obj_eqb_refl.
    now apply soft_update_params_entry. }
  split.
  { intros m Hm. simpl. unfold upd_net. now rewrite net_obj_eqb_neq. }
  do 4 (split; [reflexivity|]). split.
  { intros n p j.
    destruct (times_soft_update tau t c n w Hs) as (H1 & H2 & H3). cbn zeta in *.
    split; [exact H1|]. split; [apply H3|].
    rewrite H2, Rabs_mult. f_equal. apply Rabs_pos_eq. apply pow_le. lra. }
  split; simpl; unfold blend, tmap2; simpl; repeat f_equal; lra.
Qed.

End SoftUpdate.

(** The statement at a concrete pair of networks: target 0, online 1,
    [tau = 0.1]. *)
Lemma soft_update_blend_geometric_witness :
  same_shape (nets toy_pair ObjCriCopy) (nets toy_pair ObjCri) /\
  0 < 0.1 < 1 /\
  entry (nets (snd (soft_update (Some ObjCriCopy) (Some ObjCri) 0.1 toy_pair)) ObjCriCopy)
    0 0
  = entry (nets toy_pair ObjCriCopy) 0 0 * (1 - 0.1) + entry (nets toy_pair ObjCri) 0 0 * 0.1.
Proof.
  assert (Hs : same_shape (nets toy_pair ObjCriCopy) (nets toy_pair ObjCri))
    by (repeat constructor).
  assert (Ht : 0 < 0.1 < 1) by lra.
  split; [exact Hs|]. split; [exact Ht|].
  exact (proj1 (proj2 (soft_update_blend_geometric toy_pair ObjCriCopy ObjCri 0.1 Hs Ht))
           0%nat 0%nat).
Defined.

(** ** Reward sums and advantages *)

Section ListAccess.
Context {A : Type}.

Lemma getitem_nth (l : list A) i d :
  (i < length l)%nat -> getitem l i = Ok (nth i l d).
Proof.
  intros H. unfold getitem.
  destruct (nth_error l i) eqn:E.
  - now rewrite (nth_error_nth _ _ d E).
  - apply nth_error_None in E. lia.
Qed.

Lemma setitem_ok (l : list A) i x :
  (i < length l)%nat ->
  exists l', setitem l i x = Ok l' /\ length l' = length l /\
    nth_error l' i = Some x /\
    (forall j, j <> i -> nth_error l' j = nth_error l j).
Proof.
  intros H. unfold setitem.
  apply Nat.ltb_lt in H as Hb. rewrite Hb.
  eexists. split; [reflexivity|].
  assert (Hf : length (firstn i l) = i) by (rewrite length_firstn; lia).
  split; [|split].
  - rewrite length_app, Hf. cbn [length]. rewrite length_skipn. lia.
  - rewrite nth_error_app2 by lia. rewrite Hf, Nat.sub_diag. reflexivity.
  - intros j Hj.
    destruct (Nat.lt_ge_cases j i) as [Hlt|Hge].
    + rewrite nth_error_app1 by lia. now rewrite nth_error_firstn, (proj2 (Nat.ltb_lt j i) Hlt).
    + rewrite nth_error_app2 by lia. rewrite Hf.
      destruct (j - i)%nat as [|m] eqn:Em; [lia|]. cbn [nth_error].
      rewrite nth_error_skipn. f_equal. lia.
Qed.

End ListAccess.

Lemma nth_of_nth_error (l : list R) i x : nth_error l i = Some x -> nth i l 0 = x.
Proof. intros H. now apply nth_error_nth. Qed.

Lemma nth_eq_of_nth_error (l l' : list R) j :
  nth_error l' j = nth_error l j -> nth j l' 0 = nth j l 0.
Proof.
  intros H. destruct (nth_error l j) eqn:E.
  - rewrite (nth_error_nth _ _ 0 E). now apply nth_error_nth.
  - rewrite (nth_overflow l) by now apply nth_error_None.
    apply nth_overflow. now apply nth_error_None.
Qed.

Lemma nth_column (m : matrix) i : nth i (AgentPPO.column m) 0 = hd 0 (nth i m []).
Proof.
  unfold AgentPPO.column. revert i.
  induction m as [|r m IH]; intros [|i]; simpl; auto.
Qed.

Lemma range_down_S n : range_down (S n) = n :: range_down n.
Proof.
  unfold range_down. rewrite seq_S, rev_app_distr. reflexivity.
Qed.

Lemma gae_loop lambda n ary_reward ary_mask ary_value :
  length ary_reward = n -> length ary_mask = n -> length ary_value = n ->
  forall k l,
    (k <= n)%nat ->
    gae_done lambda n ary_reward ary_mask (AgentPPO.column ary_value) k
      (AgentPPO.ary_r_sum l) (AgentPPO.ary_advantage l) ->
    AgentPPO.pre_r_sum l
      = (if (k <? n)%nat then nth k (AgentPPO.ary_r_sum l) 0 else 0) ->
    AgentPPO.pre_advantage l
      = (if (k <? n)%nat
         then nth k (AgentPPO.column ary_value) 0 + nth k (AgentPPO.ary_advantage l) 0 * lambda
         else 0) ->
    exists l',
      rfold (range_down k) l (AgentPPO.gae_step lambda ary_reward ary_mask ary_value) = Ok l' /\
      gae_done lambda n ary_reward ary_mask (AgentPPO.column ary_value) 0
        (AgentPPO.ary_r_sum l') (AgentPPO.ary_advantage l').
Proof.
  intros Hr Hm Hv. induction k as [|k IH]; intros l Hk Hdone Hpr Hpa.
  - exists l. split; [reflexivity | exact Hdone].
  - rewrite range_down_S. cbn [rfold].
    destruct Hdone as (Hlr & Hla & Hrs & Hadv).
    unfold AgentPPO.gae_step at 1.
    rewrite (getitem_nth ary_reward k 0) by lia. cbn [rbind].
    rewrite (getitem_nth ary_mask k 0) by lia. cbn [rbind].
    destruct (setitem_ok (AgentPPO.ary_r_sum l) k
                (nth k ary_reward 0 + nth k ary_mask 0 * AgentPPO.pre_r_sum l))
      as (rs' & Es & Hls & Hsk & Hso); [lia|].
    rewrite Es. cbn [rbind].
    rewrite (getitem_nth rs' k 0) by lia. cbn [rbind].
    rewrite (getitem_nth ary_value k []) by lia. cbn [rbind].
    destruct (setitem_ok (AgentPPO.ary_advantage l) k
                (nth k ary_reward 0 + nth k ary_mask 0
                 * (AgentPPO.pre_advantage l - hd 0 (nth k ary_value []))))
      as (ad' & Ea & Hlad & Hak & Hao); [lia|].
    rewrite Ea. cbn [rbind].
    rewrite (getitem_nth ad' k 0) by lia. cbn [rbind].
    apply IH; cbn [AgentPPO.ary_r_sum AgentPPO.ary_advantage AgentPPO.pre_r_sum
                   AgentPPO.pre_advantage].
    + lia.
    + split; [lia|]. split; [lia|]. split.
      * intros i Hi. unfold gae_next.
        destruct (Nat.eq_dec i k) as [->|Hne].
        -- rewrite (nth_of_nth_error _ _ _ Hsk), Hpr.
           destruct (S k <? n)%nat eqn:E; [|reflexivity].
           now rewrite (nth_eq_of_nth_error _ _ _ (Hso (S k) ltac:(lia))).
        -- rewrite (nth_eq_of_nth_error _ _ _ (Hso i Hne)).
           rewrite Hrs by lia. unfold gae_next.
           destruct (S i <? n)%nat eqn:E; [|reflexivity].
           now rewrite (nth_eq_of_nth_error _ _ _ (Hso (S i) ltac:(lia))).
      * intros i Hi. unfold gae_prev_advantage.
        destruct (Nat.eq_dec i k) as [->|Hne].
        -- rewrite (nth_of_nth_error _ _ _ Hak), Hpa, !nth_column.
           destruct (S k <? n)%nat eqn:E; [|reflexivity].
           now rewrite (nth_eq_of_nth_error _ _ _ (Hao (S k) ltac:(lia))).
        -- rewrite (nth_eq_of_nth_error _ _ _ (Hao i Hne)).
           rewrite Hadv by lia. unfold gae_prev_advantage.
           destruct (S i <? n)%nat eqn:E; [|reflexivity].
           now rewrite (nth_eq_of_nth_error _ _ _ (Hao (S i) ltac:(lia))).
    + rewrite (proj2 (Nat.ltb_lt k n)) by lia. reflexivity.
    + rewrite (proj2 (Nat.ltb_lt k n)) by lia. now rewrite nth_column.
Qed.

(** C7. On arrays of length [n], [get_reward_sum_gae] returns two arrays of
    length [n] that satisfy the backward recursion
    [r_sum[i] = reward[i] + mask[i] * r_sum[i+1]] with [r_sum[n] = 0] and
    [advantage[i] = reward[i] + mask[i] * (prevAdvantage - value[i])], where
    [prevAdvantage] is 0 at [i = n - 1] and
    [value[i+1] + advantage[i+1] * lambda_gae_adv] below; the default
    [lambda_gae_adv] of [AgentPPO] is 0.98. *)
Theorem get_reward_sum_gae_recursion :
  forall (a : agent) (n : nat) (ary_reward ary_mask : tensor) (ary_value : matrix),
    (1 <= n)%nat ->
    length ary_reward = n -> length ary_mask = n -> length ary_value = n ->
    let value := AgentPPO.column ary_value in
    let lambda := lambda_gae_adv (hp a) in
    exists r_sum advantage,
      AgentPPO.get_reward_sum_gae a n ary_reward ary_mask ary_value = Ok (r_sum, advantage) /\
      length r_sum = n /\ length advantage = n /\
      (forall i, (i < n)%nat ->
         nth i r_sum 0
         = nth i ary_reward 0
           + nth i ary_mask 0 * (if (S i <? n)%nat then nth (S i) r_sum 0 else 0)) /\
      (forall i, (i < n)%nat ->
         nth i advantage 0
         = nth i ary_reward 0
           + nth i ary_mask 0
             * ((if (S i <? n)%nat
                 then nth (S i) value 0 + nth (S i) advantage 0 * lambda
                 else 0)
                - nth i value 0)) /\
      lambda_gae_adv (hp AgentPPO.__init__) = 0.98.
Proof.
  intros a n ary_reward ary_mask ary_value _ Hr Hm Hv. cbn zeta.
  unfold AgentPPO.get_reward_sum_gae.
  destruct (gae_loop (lambda_gae_adv (hp a)) n ary_reward ary_mask ary_value Hr Hm Hv n
              {| AgentPPO.ary_r_sum := np_empty n; AgentPPO.ary_advantage := np_empty n;
                 AgentPPO.pre_r_sum := 0; AgentPPO.pre_advantage := 0 |})
    as (l' & El & Hlr & Hla & Hrs & Hadv).
  - lia.
  - unfold gae_done, np_empty. cbn [AgentPPO.ary_r_sum AgentPPO.ary_advantage].
    rewrite repeat_length.
    repeat split; try reflexivity; intros i Hi; lia.
  - cbn [AgentPPO.pre_r_sum]. now rewrite Nat.ltb_irrefl.
  - cbn [AgentPPO.pre_advantage]. now rewrite Nat.ltb_irrefl.
  - rewrite El. cbn [rbind].
    exists (AgentPPO.ary_r_sum l'), (AgentPPO.ary_advantage l').
    split; [reflexivity|]. split; [exact Hlr|]. split; [exact Hla|].
    split; [|split].
    + intros i Hi. apply Hrs. lia.
    + intros i Hi. apply Hadv. lia.
    + reflexivity.
Qed.

(** The recursion on a buffer of two steps, the second of which ends an
    episode. *)
Lemma get_reward_sum_gae_recursion_witness :
  (1 <= 2)%nat /\
  exists r_sum advantage,
    AgentPPO.get_reward_sum_gae AgentPPO.__init__ 2 [1; 1] [1; 0] [[0]; [0]]
    = Ok (r_sum, advantage) /\
    nth 0 r_sum 0 = 1 + 1 * nth 1 r_sum 0 /\
    nth 1 r_sum 0 = 1 + 0 * 0.
Proof.
  split; [lia|].
  destruct (get_reward_sum_gae_recursion AgentPPO.__init__ 2 [1; 1] [1; 0] [[0]; [0]]
              ltac:(lia) eq_refl eq_refl eq_refl)
    as (r_sum & advantage & E & _ & _ & Hrs & _).
  exists r_sum, advantage. split; [exact E|]. split.
  - exact (Hrs 0%nat ltac:(lia)).
  - exact (Hrs 1%nat ltac:(lia)).
Defined.

(** ** Trajectory splice of the on-policy exploration *)

Section Explore.
Context {C : Collaborators} {E : Environment}.

Lemma explore_step_shape act_params i l :
  let l' := AgentPPO.explore_step act_params i l in
  length (AgentPPO.trajectory_temp l') = S (length (AgentPPO.trajectory_temp l)) /\
  (AgentPPO.last_done l' = i \/ AgentPPO.last_done l' = AgentPPO.last_done l).
Proof.
  cbn zeta. unfold AgentPPO.explore_step.
  destruct (AgentPPO.select_action act_params (AgentPPO.cur_rng l) (AgentPPO.cur_state l))
    as [[action' noise] g'].
  destruct (env_step (AgentPPO.cur_env l) (map tanh action')) as [[[next_state r] done] env'].
  destruct done.
  - destruct (env_reset env') as [s0 env'']. cbn.
    rewrite length_app. cbn. split; [lia | now left].
  - cbn. rewrite length_app. cbn. split; [lia | now right].
Qed.

Lemma explore_loop_shape act_params : forall k a l,
  length (AgentPPO.trajectory_temp l) = a ->
  (AgentPPO.last_done l < a \/ AgentPPO.last_done l = 0)%nat ->
  let l' := fold_left (fun l i => AgentPPO.explore_step act_params i l) (seq a k) l in
  length (AgentPPO.trajectory_temp l') = (a + k)%nat /\
  (AgentPPO.last_done l' < a + k \/ AgentPPO.last_done l' = 0)%nat.
Proof.
  induction k as [|k IH]; intros a l Hlen Hld; cbn zeta.
  - simpl. split; [lia|]. destruct Hld; [left; lia | now right].
  - cbn [seq fold_left].
    destruct (explore_step_shape act_params a l) as [H1 H2]. cbn zeta in H1, H2.
    destruct (IH (S a) (AgentPPO.explore_step act_params a l)) as [H3 H4].
    + lia.
    + destruct H2 as [-> | ->]; [left; lia | destruct Hld; [left; lia | now right]].
    + cbn zeta in H3, H4. split; [lia|]. destruct H4; [left; lia | now right].
Qed.

End Explore.

(** C1 (the code departs from the claim). For every run of [explore_env]
    over at least one step, the transition at index [last_done] of the
    freshly generated list is both the last one returned and the first one
    kept for the next call: returned and kept transitions together are one
    more than the old tail plus the [target_step] generated.  On three steps
    with the episode ending at the second, [explore_env] returns two
    transitions and keeps two; [explore_vec_env] does the same for each of
    two lockstep environments. *)
Theorem explore_env_splice_repeats_a_transition :
  (forall (C : Collaborators) (E : Environment) (act_params : params) (ex : explorer)
          (env : Env) (g : Rng) (n : nat),
     match AgentPPO.explore_env act_params ex env g (S n) with
     | Ok (returned, ex', _, _) =>
         exists (temp : list transition) (last_done : nat) (old kept : list transition),
           nth_error (trajectory_list ex) 0 = Some old /\
           nth_error (trajectory_list ex') 0 = Some kept /\
           length temp = S n /\ (last_done < S n)%nat /\
           returned = old ++ firstn (last_done + 1) temp /\
           kept = skipn last_done temp /\
           nth_error returned (length old + last_done) = nth_error temp last_done /\
           nth_error kept 0 = nth_error temp last_done /\
           (length returned + length kept = length old + S n + 1)%nat
     | Raise _ => states ex = [] \/ trajectory_list ex = []
     end) /\
  match @AgentPPO.explore_env toy toy_env [[0]] toy_explorer [false; true; false] 0%nat 3 with
  | Ok (returned, ex', _, _) =>
      length returned = 2%nat /\ map (@length _) (trajectory_list ex') = [2%nat]
  | Raise _ => False
  end /\
  match @AgentPPO.explore_vec_env toy toy_env [[0]]
          {| states := [[0]; [0]]; trajectory_list := [[]; []] |}
          [false; true; false] 0%nat 3 with
  | Ok (returned, ex', _, _) =>
      length returned = 4%nat /\ map (@length _) (trajectory_list ex') = [2%nat; 2%nat]
  | Raise _ => False
  end.
Proof.
  split; [|split; vm_compute; split; reflexivity].
  intros C E act_params ex env g n.
  unfold AgentPPO.explore_env.
  destruct (states ex) as [|s0 ss] eqn:Es; [now left|].
  cbn [getitem nth_error rbind].
  set (l := fold_left _ _ _).
  destruct (explore_loop_shape act_params (S n) 0
              {| AgentPPO.trajectory_temp := []; AgentPPO.cur_state := s0;
                 AgentPPO.last_done := 0%nat; AgentPPO.cur_env := env;
                 AgentPPO.cur_rng := g |} eq_refl (or_intror eq_refl)) as [Hlen Hld].
  cbn zeta in Hlen, Hld. fold l in Hlen, Hld.
  assert (Hlt : (AgentPPO.last_done l < S n)%nat) by (destruct Hld; lia).
  cbn [setitem length Nat.ltb Nat.leb rbind].
  destruct (trajectory_list ex) as [|old olds] eqn:Et; [now right|].
  cbn [getitem nth_error rbind setitem length Nat.ltb Nat.leb trajectory_list].
  exists (AgentPPO.trajectory_temp l), (AgentPPO.last_done l), old,
         (slice_from (AgentPPO.trajectory_temp l) (AgentPPO.last_done l)).
  unfold slice_to, slice_from.
  repeat split; auto.
  - rewrite nth_error_app2 by lia.
    replace (length old + AgentPPO.last_done l - length old)%nat
      with (AgentPPO.last_done l) by lia.
    rewrite nth_error_firstn.
    now rewrite (proj2 (Nat.ltb_lt _ _)) by lia.
  - change (nth_error (skipn (AgentPPO.last_done l) (AgentPPO.trajectory_temp l)) 0
            = nth_error (AgentPPO.trajectory_temp l) (AgentPPO.last_done l)).
    rewrite nth_error_skipn. f_equal. lia.
  - rewrite length_app, length_firstn, length_skipn. lia.
Qed.

(** ** Epsilon-greedy action selection *)

Lemma tsum_indicator_from (f : Z -> R) (x : Z) : forall m a,
  tsum (map (fun i => f i * indicator i x)
          (map (fun k => (0 + Z.of_nat k)%Z) (seq a m)))
  = if ((Z.of_nat a <=? x)%Z && (x <? Z.of_nat (a + m))%Z)%bool then f x else 0.
Proof.
  induction m as [|m IH]; intros a.
  - simpl. destruct (Z.leb_spec (Z.of_nat a) x), (Z.ltb_spec x (Z.of_nat (a + 0))); simpl;
      try reflexivity; lia.
  - cbn [seq map tsum fold_right]. fold (tsum (map (fun i => f i * indicator i x)
                                      (map (fun k => (0 + Z.of_nat k)%Z) (seq (S a) m)))).
    rewrite IH. unfold indicator.
    destruct (Z.eqb_spec (0 + Z.of_nat a) x) as [Heq|Hne].
    + subst x.
      destruct (Z.leb_spec (Z.of_nat (S a)) (0 + Z.of_nat a)); [lia|].
      destruct (Z.leb_spec (Z.of_nat a) (0 + Z.of_nat a)); [|lia].
      destruct (Z.ltb_spec (0 + Z.of_nat a) (Z.of_nat (a + S m))); [|lia].
      simpl. lra.
    + destruct (Z.leb_spec (Z.of_nat (S a)) x), (Z.leb_spec (Z.of_nat a) x),
        (Z.ltb_spec x (Z.of_nat (S a + m))), (Z.ltb_spec x (Z.of_nat (a + S m)));
        simpl; try lra; lia.
Qed.

Lemma tsum_indicator (f : Z -> R) (x n : Z) :
  tsum (map (fun i => f i * indicator i x) (range 0 n))
  = if ((0 <=? x)%Z && (x <? n)%Z)%bool then f x else 0.
Proof.
  unfold range. rewrite tsum_indicator_from. rewrite Z.sub_0_r. cbn [Nat.add].
  change (Z.of_nat 0) with 0%Z.
  destruct (Z.leb_spec 0 x); simpl; try reflexivity.
  destruct (Z.ltb_spec x (Z.of_nat (Z.to_nat n))), (Z.ltb_spec x n); try reflexivity; lia.
Qed.

Section SelectAction.
Context {C : Collaborators}.

Lemma dqn_select_action_prob (w : world) (state' : list R) (n : net_obj) (x : Z) :
  act (bound (self w)) = Some n ->
  prob (AgentDQN.select_action w state') x
  = unit_interval (explore_rate (hp (self w)))
    * (if ((0 <=? x)%Z && (x <? action_dim (hp (self w)))%Z)%bool
       then / IZR (action_dim (hp (self w))) else 0)
    + (1 - unit_interval (explore_rate (hp (self w))))
      * indicator (argmax (AgentDQN.q_values (nets w n) state')) x.
Proof.
  intros Hact. unfold AgentDQN.select_action. rewrite Hact.
  destruct (Z.ltb_spec 0 (action_dim (hp (self w)))) as [Hd|Hd]; cbn [prob].
  - now rewrite (tsum_indicator (fun _ => / IZR (action_dim (hp (self w))))).
  - destruct (Z.leb_spec 0 x), (Z.ltb_spec x (action_dim (hp (self w))));
      cbn [andb]; try reflexivity; lia.
Qed.

Lemma double_dqn_select_action_prob (w : world) (state' : list R) (n : net_obj) (x : Z) :
  act (bound (self w)) = Some n ->
  prob (AgentDoubleDQN.select_action w state') x
  = unit_interval (explore_rate (hp (self w)))
    * (if ((0 <=? x)%Z && (x <? action_dim (hp (self w)))%Z
           && (Z.of_nat (length (AgentDQN.q_values (nets w n) state'))
               =? action_dim (hp (self w)))%Z)%bool
       then nth (Z.to_nat x) (softmax (AgentDQN.q_values (nets w n) state')) 0 else 0)
    + (1 - unit_interval (explore_rate (hp (self w))))
      * indicator (argmax (AgentDQN.q_values (nets w n) state')) x.
Proof.
  intros Hact. unfold AgentDoubleDQN.select_action. rewrite Hact.
  assert (Hq : hd [] (map softmax (forward (nets w n) [state']))
               = softmax (AgentDQN.q_values (nets w n) state')).
  { unfold AgentDQN.q_values. destruct (forward (nets w n) [state']); reflexivity. }
  assert (Hl : length (softmax (AgentDQN.q_values (nets w n) state'))
               = length (AgentDQN.q_values (nets w n) state'))
    by (unfold softmax; apply length_map).
  cbv zeta. rewrite Hq, Hl.
  fold (AgentDQN.q_values (nets w n) state').
  destruct (Z.ltb_spec 0 (action_dim (hp (self w)))) as [Hd|Hd];
    destruct (Z.eqb_spec (Z.of_nat (length (AgentDQN.q_values (nets w n) state')))
                (action_dim (hp (self w)))) as [He|He];
    cbn [andb prob].
  - rewrite (tsum_indicator (fun i => nth (Z.to_nat i) _ 0)).
    now rewrite andb_true_r.
  - now rewrite andb_false_r.
  - rewrite andb_true_r.
    destruct (Z.leb_spec 0 x), (Z.ltb_spec x (action_dim (hp (self w))));
      cbn [andb]; try reflexivity; lia.
  - now rewrite andb_false_r.
Qed.

Lemma select_action_greedy_run (w : world) (state' : list R) (n : net_obj) :
  act (bound (self w)) = Some n ->
  explore_rate (hp (self w)) = 0 ->
  forall u draws, 0 <= u < 1 ->
    run_rnd (AgentDQN.select_action w state') (DrawFloat u :: draws)
    = Some (Ok (argmax (AgentDQN.q_values (nets w n) state'))) /\
    run_rnd (AgentDoubleDQN.select_action w state') (DrawFloat u :: draws)
    = Some (Ok (argmax (AgentDQN.q_values (nets w n) state'))).
Proof.
  intros Hact H0 u draws Hu.
  unfold AgentDQN.select_action, AgentDoubleDQN.select_action.
  rewrite Hact, H0. cbn [run_rnd].
  assert (Hin : in_unit u = true).
  { unfold in_unit. destruct (Rle_dec 0 u); [|lra]. destruct (Rlt_dec u 1); [reflexivity|lra]. }
  rewrite Hin.
  destruct (Rlt_dec u 0) as [Hlt|_]; [lra|].
  split; reflexivity.
Qed.

End SelectAction.

(** C9, as amended. [AgentDQN.select_action] explores with the probability
    of [rd.rand() < explore_rate] and then returns each of the [action_dim]
    actions with probability [1 / action_dim]; [AgentDoubleDQN.select_action]
    explores with the same probability and then returns action [x] with
    probability [softmax(q)[x]], the network having [action_dim] outputs
    ([rd.choice] raises otherwise); otherwise both return the arg-max of the
    network's output.  With [explore_rate = 0] both return the arg-max
    whatever [rd.rand()] draws. *)
Theorem select_action_epsilon_greedy :
  forall (C : Collaborators) (w : world) (state' : list R) (n : net_obj) (x : Z),
    act (bound (self w)) = Some n ->
    let eps := unit_interval (explore_rate (hp (self w))) in
    let q := AgentDQN.q_values (nets w n) state' in
    let in_range := ((0 <=? x)%Z && (x <? action_dim (hp (self w)))%Z)%bool in
    prob (AgentDQN.select_action w state') x
    = eps * (if in_range then / IZR (action_dim (hp (self w))) else 0)
      + (1 - eps) * indicator (argmax q) x /\
    prob (AgentDoubleDQN.select_action w state') x
    = eps * (if (in_range && (Z.of_nat (length q) =? action_dim (hp (self w)))%Z)%bool
             then nth (Z.to_nat x) (softmax q) 0 else 0)
      + (1 - eps) * indicator (argmax q) x /\
    (explore_rate (hp (self w)) = 0 ->
     forall u draws, 0 <= u < 1 ->
       run_rnd (AgentDQN.select_action w state') (DrawFloat u :: draws)
       = Some (Ok (argmax q)) /\
       run_rnd (AgentDoubleDQN.select_action w state') (DrawFloat u :: draws)
       = Some (Ok (argmax q))).
Proof.
  intros C w state' n x Hact. cbn zeta.
  split; [now apply dqn_select_action_prob|].
  split; [now apply double_dqn_select_action_prob|].
  now apply select_action_greedy_run.
Qed.

(** The statement for the default [AgentDQN] over two actions. *)
Lemma select_action_epsilon_greedy_witness :
  act (bound (self toy_dqn)) = Some ObjCri /\
  prob (AgentDQN.select_action toy_dqn [0]) 0
  = unit_interval (explore_rate (hp (self toy_dqn)))
    * (if ((0 <=? 0)%Z && (0 <? action_dim (hp (self toy_dqn)))%Z)%bool
       then / IZR (action_dim (hp (self toy_dqn))) else 0)
    + (1 - unit_interval (explore_rate (hp (self toy_dqn))))
      * indicator (argmax (@AgentDQN.q_values toy (nets toy_dqn ObjCri) [0])) 0.
Proof.
  split; [reflexivity|].
  exact (proj1 (select_action_epsilon_greedy toy toy_dqn [0] ObjCri 0%Z eq_refl)).
Defined.

(** C9 as stated fails for [AgentDoubleDQN]: with the default
    [explore_rate = 0.25], two actions and action values [0; 1], uniform
    exploration would return action 0 with probability [0.25 / 2]; the code
    returns it with probability [0.25 * exp 0 / (exp 0 + exp 1)]. *)
Lemma double_dqn_exploration_is_not_uniform :
  prob (AgentDoubleDQN.select_action toy_double_dqn [0]) 0
  <> 0.25 * / 2 + (1 - 0.25) * indicator (argmax [0; 1]) 0.
Proof.
  rewrite (double_dqn_select_action_prob toy_double_dqn [0] ObjCri 0%Z eq_refl).
  change (explore_rate (hp (self toy_double_dqn))) with 0.25.
  change (action_dim (hp (self toy_double_dqn))) with 2%Z.
  change (@AgentDQN.q_values toy (nets toy_double_dqn ObjCri) [0]) with [0; 1].
  cbn [Z.leb Z.ltb Z.eqb Z.compare Z.of_nat Pos.of_succ_nat Pos.succ Pos.eqb length
       andb Z.to_nat softmax map nth tsum fold_right].
  assert (Hu : unit_interval 0.25 = 0.25).
  { unfold unit_interval, Rmin, Rmax.
    destruct (Rle_dec 0 0.25); [|lra]. destruct (Rle_dec 1 0.25); lra. }
  rewrite Hu, exp_0.
  pose proof (exp_ineq1 1 ltac:(lra)) as He.
  assert (Hi : / (1 + (exp 1 + 0)) < / 2) by (apply Rinv_lt_contravar; lra).
  unfold Rdiv. rewrite Rmult_1_l.
  assert (Ha : indicator (argmax [0; 1]) 0 = 0).
  { unfold argmax, argmax_from. destruct (Rlt_dec 0 1); [reflexivity | lra]. }
  rewrite Ha. lra.
Qed.

(** ** Running the update loops *)

Section Run.
Context {C : Collaborators}.

Lemma bind_run {A B} (c : M A) (k : A -> M B) (w : world) :
  bind c k w
  = match c w with
    | (Ok a, w') => k a w'
    | (Raise e, w') => (Raise e, w')
    end.
Proof. reflexivity. Qed.

Lemma attr_run {A} (f : bindings -> option A) e (w : world) x :
  f (bound (self w)) = Some x -> attr f e w = (Ok x, w).
Proof. intros H. unfold attr, bind, get. now rewrite H. Qed.

Lemma step_groups_frame (f : vars -> R) (v0 : vars) (n : net_obj) :
  forall groups st acc st' v',
    step_groups groups st v0 f acc = (st', v') ->
    ~ In (PNet n) groups ->
    v_nets v' n = v_nets acc n.
Proof.
  induction groups as [|r rs IH]; intros st acc st' v' E Hn; cbn in E.
  - now inversion E.
  - destruct (adam_step st (read_ref v0 r) (fun p => f (write_ref v0 r p))) as [st1 p1].
    apply IH in E; [|intros H; apply Hn; now right].
    rewrite E. destruct r as [m|]; cbn; auto.
    unfold upd_net. destruct (net_obj_eqb n m) eqn:Em; auto.
    apply net_obj_eqb_eq in Em. subst m. exfalso. apply Hn. now left.
Qed.

Lemma step_groups_alpha (f : vars -> R) (v0 : vars) :
  forall groups st acc st' v',
    step_groups groups st v0 f acc = (st', v') ->
    ~ In PAlphaLog groups ->
    v_alpha_log v' = v_alpha_log acc.
Proof.
  induction groups as [|r rs IH]; intros st acc st' v' E Hn; cbn in E.
  - now inversion E.
  - destruct (adam_step st (read_ref v0 r) (fun p => f (write_ref v0 r p))) as [st1 p1].
    apply IH in E; [|intros H; apply Hn; now right].
    rewrite E. destruct r as [m|]; cbn; auto.
    exfalso. apply Hn. now left.
Qed.

Lemma optim_update_run o obj groups (w : world) :
  optim_params (bound (self w)) o = Some groups ->
  exists w',
    optim_update o obj w = (Ok tt, w') /\
    calls w' = OptimUpdate o :: calls w /\
    bound (self w') = bound (self w) /\ hp (self w') = hp (self w) /\
    buffer w' = buffer w /\
    (forall n, ~ In (PNet n) groups -> nets w' n = nets w n) /\
    (~ In PAlphaLog groups -> run (self w') = run (self w)).
Proof.
  intros H. unfold optim_update. rewrite bind_run, (attr_run _ _ _ _ H).
  unfold record, modify, bind.
  destruct (step_groups groups (optims (set_calls (OptimUpdate o :: calls w) w) o)
              (vars_of (set_calls (OptimUpdate o :: calls w) w)) (loss obj)
              (vars_of (set_calls (OptimUpdate o :: calls w) w))) as [st' v'] eqn:E.
  eexists. split; [reflexivity|].
  do 4 (split; [reflexivity|]). split.
  - intros n Hn. cbn. now rewrite (step_groups_frame _ _ n _ _ _ _ _ E Hn).
  - intros Hn. cbn. unfold set_alpha_log, set_run. cbn.
    rewrite (step_groups_alpha _ _ _ _ _ _ _ E Hn). cbn.
    now destruct (run (self w)).
Qed.

Lemma soft_update_effect t c tau (w : world) :
  exists w',
    soft_update (Some t) (Some c) tau w = (Ok tt, w') /\
    calls w' = SoftUpdate t c :: calls w /\
    self w' = self w /\
    buffer w' = buffer w /\
    (forall n, n <> t -> nets w' n = nets w n).
Proof.
  rewrite soft_update_run. eexists. split; [reflexivity|].
  do 3 (split; [reflexivity|]).
  intros n Hn. cbn. unfold upd_net. now rewrite net_obj_eqb_neq.
Qed.


Lemma optim_steps_app o ev l :
  optim_steps o (ev ++ l) = (optim_steps o ev + optim_steps o l)%nat.
Proof. unfold optim_steps. now rewrite filter_app, length_app. Qed.

Lemma optim_steps_cons o e l :
  optim_steps o (e :: l) = ((if is_optim o e then 1 else 0) + optim_steps o l)%nat.
Proof. unfold optim_steps. cbn. now destruct (is_optim o e). Qed.


Lemma update_steps_run bs rt (w : world) r :
  update_bound (now_len (buffer w)) bs rt = r ->
  update_steps bs rt w = (r, w).
Proof. intros <-. reflexivity. Qed.

Lemma soft_update_attr_run tgt cur t c tau (w : world) :
  tgt = Some t -> cur = Some c ->
  exists w',
    soft_update tgt cur tau w = (Ok tt, w') /\
    calls w' = SoftUpdate t c :: calls w /\
    self w' = self w /\
    buffer w' = buffer w /\
    (forall n, n <> t -> nets w' n = nets w n).
Proof. intros -> ->. apply soft_update_effect. Qed.

Lemma sample_batch_run bs (w : world) :
  exists b w',
    buffer_sample_batch bs w = (Ok b, w') /\
    calls w' = calls w /\ self w' = self w /\ nets w' = nets w /\ rng w' = rng w.
Proof.
  unfold buffer_sample_batch. destruct (sample_batch (buffer w) bs) as [b buf'].
  eexists; eexists. split; [reflexivity|]. repeat split.
Qed.

Lemma td_error_update_run e (w : world) :
  exists w',
    buffer_td_error_update e w = (Ok tt, w') /\
    calls w' = TdErrorUpdate e :: calls w /\ self w' = self w /\ nets w' = nets w.
Proof.
  unfold buffer_td_error_update, record, modify, bind.
  eexists. split; [reflexivity|]. repeat split.
Qed.

Lemma item_of_world x (w : world) : snd (item_of x w) = w.
Proof. now destruct x. Qed.

End Run.

(** Symbolic execution of one primitive at the head of a computation. *)
Ltac bound_norm :=
  cbn [self set_rng set_buffer set_calls set_nets set_optims set_self
       bound hp set_alpha_log set_obj_c set_avg_loss_c set_run].

Ltac bound_tac :=
  bound_norm;
  repeat (match goal with
          | H : bound (self _) = _ |- _ => rewrite H
          | H : hp (self _) = _ |- _ => rewrite H
          | H : self _ = _ |- _ => rewrite H
          end;
          bound_norm);
  first [eassumption | reflexivity].

Ltac run_attr :=
  rewrite bind_run;
  match goal with
  | |- context [attr ?f ?e ?w] => rewrite (attr_run f e w _ ltac:(bound_tac))
  end;
  cbv beta iota.

Ltac run_get := rewrite bind_run; unfold get at 1; cbv beta iota.

Ltac run_sample :=
  rewrite bind_run;
  match goal with
  | |- context [buffer_sample_batch ?bs ?w] =>
      let b := fresh "b" in
      let w' := fresh "w" in
      let E := fresh "E" in
      let Hc := fresh "Hc" in
      let Hs := fresh "Hs" in
      let Hn := fresh "Hn" in
      let Hg := fresh "Hg" in
      destruct (sample_batch_run bs w) as (b & w' & E & Hc & Hs & Hn & Hg);
      rewrite E; clear E
  end;
  cbv beta iota.

Ltac run_optim groups :=
  rewrite bind_run;
  match goal with
  | |- context [optim_update ?o ?obj ?w] =>
      let w' := fresh "w" in
      let E := fresh "E" in
      let Hc := fresh "Hc" in
      let Hb := fresh "Hb" in
      let Hh := fresh "Hh" in
      let Hbuf := fresh "Hbuf" in
      let Hn := fresh "Hn" in
      let Hr := fresh "Hr" in
      destruct (optim_update_run o obj groups w ltac:(bound_tac))
        as (w' & E & Hc & Hb & Hh & Hbuf & Hn & Hr);
      rewrite E; clear E
  end;
  cbv beta iota.

Ltac run_soft :=
  match goal with
  | |- context [soft_update ?tgt ?cur ?tau ?w] =>
      let w' := fresh "w" in
      let E := fresh "E" in
      let Hc := fresh "Hc" in
      let Hs := fresh "Hs" in
      let Hbuf := fresh "Hbuf" in
      let Hn := fresh "Hn" in
      destruct (soft_update_attr_run tgt cur _ _ tau w ltac:(bound_tac) ltac:(bound_tac))
        as (w' & E & Hc & Hs & Hbuf & Hn);
      rewrite E; clear E
  end;
  cbv beta iota.

Ltac run_td :=
  rewrite bind_run;
  match goal with
  | |- context [buffer_td_error_update ?e ?w] =>
      let w' := fresh "w" in
      let E := fresh "E" in
      let Hc := fresh "Hc" in
      let Hs := fresh "Hs" in
      let Hn := fresh "Hn" in
      destruct (td_error_update_run e w) as (w' & E & Hc & Hs & Hn);
      rewrite E; clear E
  end;
  cbv beta iota.

Ltac world_norm :=
  cbn [self nets optims rng buffer calls
       set_rng set_buffer set_calls set_nets set_optims set_self] in *.

(** Counting the gradient steps in an explicit history. *)
Ltac count_tac :=
  rewrite ?optim_steps_cons, ?optim_steps_app;
  cbn [is_optim optim_obj_eqb];
  try lia.

(** The history of the current world, rewritten back to the first one. *)
Ltac calls_tac :=
  cbn [calls set_rng set_buffer set_calls set_nets set_optims set_self];
  repeat (match goal with
          | H : calls _ = _ |- _ => rewrite H
          end;
          cbn [calls set_rng set_buffer set_calls set_nets set_optims set_self]).

(** *** AgentDQN *)

Section DQN.
Context {C : Collaborators}.

Lemma dqn_get_obj_critic_run bs (w : world) w0 d per :
  bound (self w) = bound (self (with_get_obj_critic per (AgentDQN.init d per w0))) ->
  exists r w',
    AgentDQN.call_get_obj_critic bs w = (Ok r, w') /\
    calls w' = calls w /\ self w' = self w /\ nets w' = nets w.
Proof.
  intros Hb0.
  unfold AgentDQN.call_get_obj_critic. run_get.
  replace (get_obj_critic (bound (self w)))
    with (Some (if per then ObjCriticPer else ObjCriticRaw)) by bound_tac.
  destruct per; unfold AgentDQN.get_obj_critic_raw, AgentDQN.get_obj_critic_per;
    run_sample; run_attr; run_attr; run_get; unfold ret;
    eexists; eexists; (split; [reflexivity|]); repeat split; congruence.
Qed.

End DQN.

Section DQNLoop.
Context {C : Collaborators}.


End DQNLoop.

(** *** AgentDDPG *)

Section DDPG.
Context {C : Collaborators}.



End DDPG.

(** *** AgentTD3 *)

Section TD3.
Context {C : Collaborators}.

Lemma td3_get_obj_critic_run bs (w : world) w0 d per :
  bound (self w) = bound (self (with_get_obj_critic per (AgentTD3.init d per w0))) ->
  exists r w' td,
    AgentTD3.call_get_obj_critic bs w = (Ok r, w') /\
    calls w' = td ++ calls w /\ net_calls td = [] /\
    self w' = self w /\ nets w' = nets w.
Proof.
  intros Hb0.
  unfold AgentTD3.call_get_obj_critic. run_get.
  replace (get_obj_critic (bound (self w)))
    with (Some (if per then ObjCriticPer else ObjCriticRaw)) by bound_tac.
  destruct per; unfold AgentTD3.get_obj_critic_raw, AgentTD3.get_obj_critic_per;
    run_sample; rewrite bind_run; unfold AgentTD3.target_action; run_attr;
    match goal with
    | |- context [get_action ?p ?s ?n ?g] => destruct (get_action p s n g) as [next_a g']
    end; cbv beta iota;
    run_attr; run_attr; run_get;
    repeat match goal with
    | |- context [get_q1_q2 ?p ?s ?a] => destruct (get_q1_q2 p s a) as [? ?]
    end.
  - run_td. unfold ret. eexists; eexists; eexists [_]. split; [reflexivity|].
    split; [calls_tac; reflexivity|]. split; [reflexivity|].
    world_norm; split; congruence.
  - unfold ret. eexists; eexists; exists []. split; [reflexivity|].
    world_norm; repeat split; cbn; congruence.
Qed.

Lemma net_calls_app a b : net_calls (a ++ b) = net_calls a ++ net_calls b.
Proof. apply filter_app. Qed.



End TD3.

(** *** AgentSAC and AgentModSAC *)

Section SAC.
Context {C : Collaborators}.

Lemma sac_action_logprob_run net s (w : world) :
  exists r w',
    AgentSAC.action_logprob net s w = (Ok r, w') /\
    fst (fst r) = fst (fst (get_action_logprob (nets w net) s (rng w))) /\
    snd (fst r) = snd (fst (get_action_logprob (nets w net) s (rng w))) /\
    calls w' = calls w /\ self w' = self w /\ nets w' = nets w /\ buffer w' = buffer w.
Proof.
  unfold AgentSAC.action_logprob.
  destruct (get_action_logprob (nets w net) s (rng w)) as [[a lp] g].
  eexists; eexists. split; [reflexivity|]. repeat split.
Qed.

Lemma sac_get_obj_critic_raw_run bs alpha (w : world) ct at' c :
  cri_target (bound (self w)) = Some ct ->
  act_target (bound (self w)) = Some at' ->
  cri (bound (self w)) = Some c ->
  let s := sac_sample_of w bs alpha ct at' c in
  exists obj w',
    AgentSAC.get_obj_critic_raw bs alpha w = (Ok (obj, state (sac_batch s)), w') /\
    item obj = criterion_mean (sac_q1 s) (sac_q_label s)
               + criterion_mean (sac_q2 s) (sac_q_label s) /\
    calls w' = calls w /\ self w' = self w /\ nets w' = nets w.
Proof.
  intros Hct Hat Hc. cbn zeta. unfold sac_sample_of, AgentSAC.get_obj_critic_raw.
  rewrite bind_run. unfold buffer_sample_batch.
  destruct (sample_batch (buffer w) bs) as [b buf']. cbv beta iota.
  run_attr. rewrite bind_run. unfold AgentSAC.action_logprob.
  cbn [nets rng set_buffer fst snd].
  destruct (get_action_logprob (nets w at') (next_s b) (rng w)) as [[next_a lp] g].
  cbv beta iota. run_attr. run_attr. run_get.
  cbn [nets set_rng set_buffer fst snd sac_batch sac_q1 sac_q2 sac_q_label].
  destruct (get_q1_q2 (nets w ct) (next_s b) next_a) as [tq1 tq2].
  unfold ret. eexists; eexists. split; [reflexivity|].
  cbn [item vars_of v_nets nets set_rng set_buffer fst snd].
  destruct (get_q1_q2 (nets w c) (state b) (action b)) as [q1 q2].
  repeat split.
Qed.

Lemma sac_get_obj_critic_per_run bs alpha (w : world) ct at' c :
  cri_target (bound (self w)) = Some ct ->
  act_target (bound (self w)) = Some at' ->
  cri (bound (self w)) = Some c ->
  let s := sac_sample_of w bs alpha ct at' c in
  exists obj w',
    AgentSAC.get_obj_critic_per bs alpha w = (Ok (obj, state (sac_batch s)), w') /\
    item obj = tmean (tmul (tadd (criterion_none (sac_q1 s) (sac_q_label s))
                                 (criterion_none (sac_q2 s) (sac_q_label s)))
                           (is_weights (sac_batch s))) /\
    calls w'
    = TdErrorUpdate (tabs (tsub (sac_q_label s) (tmin (sac_q1 s) (sac_q2 s)))) :: calls w /\
    self w' = self w /\ nets w' = nets w.
Proof.
  intros Hct Hat Hc. cbn zeta. unfold sac_sample_of, AgentSAC.get_obj_critic_per.
  rewrite bind_run. unfold buffer_sample_batch.
  destruct (sample_batch (buffer w) bs) as [b buf']. cbv beta iota.
  run_attr. rewrite bind_run. unfold AgentSAC.action_logprob.
  cbn [nets rng set_buffer fst snd].
  destruct (get_action_logprob (nets w at') (next_s b) (rng w)) as [[next_a lp] g].
  cbv beta iota. run_attr. run_attr. run_get.
  cbn [nets set_rng set_buffer fst snd sac_batch sac_q1 sac_q2 sac_q_label].
  destruct (get_q1_q2 (nets w ct) (next_s b) next_a) as [tq1 tq2].
  destruct (get_q1_q2 (nets w c) (state b) (action b)) as [q1 q2] eqn:Eq.
  run_td. unfold ret. eexists; eexists. split; [reflexivity|].
  cbn [item vars_of v_nets nets set_rng set_buffer fst snd]. rewrite Eq.
  world_norm. repeat split; congruence.
Qed.

Lemma sac_call_run bs alpha (w : world) ct at' c (per : bool) :
  cri_target (bound (self w)) = Some ct ->
  act_target (bound (self w)) = Some at' ->
  cri (bound (self w)) = Some c ->
  get_obj_critic (bound (self w)) = Some (if per then ObjCriticPer else ObjCriticRaw) ->
  let s := sac_sample_of w bs alpha ct at' c in
  exists obj st w',
    AgentSAC.call_get_obj_critic bs alpha w = (Ok (obj, st), w') /\
    item obj = sac_critic_item per s /\
    calls w' = sac_td_calls per s ++ calls w /\
    self w' = self w /\ nets w' = nets w.
Proof.
  intros Hct Hat Hc Hg. cbn zeta.
  unfold AgentSAC.call_get_obj_critic. run_get. rewrite Hg.
  destruct per.
  - destruct (sac_get_obj_critic_per_run bs alpha w _ _ _ Hct Hat Hc)
      as (obj & w' & E & Hi & Hcalls & Hs & Hn).
    exists obj. eexists; exists w'. split; [exact E|]. repeat split; auto.
  - destruct (sac_get_obj_critic_raw_run bs alpha w _ _ _ Hct Hat Hc)
      as (obj & w' & E & Hi & Hcalls & Hs & Hn).
    exists obj. eexists; exists w'. split; [exact E|]. repeat split; auto.
Qed.

Lemma sac_call_get_obj_critic_run bs alpha (w : world) w0 uat d per :
  bound (self w) = bound (self (with_get_obj_critic per (AgentSAC.init_class uat d per w0))) ->
  let s := sac_sample_of w bs alpha ObjCriCopy (if uat then ObjActCopy else ObjAct) ObjCri in
  exists obj st w',
    AgentSAC.call_get_obj_critic bs alpha w = (Ok (obj, st), w') /\
    item obj = sac_critic_item per s /\
    calls w' = sac_td_calls per s ++ calls w /\
    self w' = self w /\ nets w' = nets w.
Proof.
  intros Hb0.
  apply sac_call_run; try bound_tac.
Qed.

Lemma optim_steps_sac_td o per s : optim_steps o (sac_td_calls per s) = 0%nat.
Proof. now destruct per. Qed.



End SAC.

(** *** AgentPPO *)

Section PPO.
Context {C : Collaborators}.


End PPO.

(** *** The agents with one shared network *)

Section Shared.
Context {C : Collaborators}.

Lemma mod_never_equals_divisor i f : f <> 0%Z -> (imod i f =? f)%Z = false.
Proof.
  intros Hf. unfold imod. apply Z.eqb_neq.
  destruct (Z.lt_trichotomy f 0) as [H|[H|H]]; [|contradiction|].
  - pose proof (Z.mod_neg_bound i f H). lia.
  - pose proof (Z.mod_pos_bound i f H). lia.
Qed.




End Shared.

(** *** Loops with an invariant on the index, the locals and the world *)

Section LoopInvariant.
Context {C : Collaborators}.

Lemma range_nil lo hi : (hi <= lo)%Z -> range lo hi = [].
Proof.
  intros H. unfold range. replace (Z.to_nat (hi - lo)) with 0%nat by lia. reflexivity.
Qed.

Lemma range_cons lo hi : (lo < hi)%Z -> range lo hi = lo :: range (lo + 1) hi.
Proof.
  intros H. unfold range.
  replace (Z.to_nat (hi - lo)) with (S (Z.to_nat (hi - (lo + 1)))) by lia.
  cbn [seq map]. f_equal; [lia|].
  rewrite <- seq_shift, map_map. apply map_ext. intros k. lia.
Qed.

Lemma for_range_inv {S} (body : Z -> S -> M S) (Inv : Z -> S -> world -> Prop) (hi : Z) :
  (forall x l w, (x < hi)%Z -> Inv x l w ->
     exists l' w', body x l w = (Ok l', w') /\ Inv (x + 1)%Z l' w') ->
  forall k lo l w, (hi - lo <= Z.of_nat k)%Z -> Inv lo l w ->
    exists l' w', for_ (range lo hi) l body w = (Ok l', w') /\ Inv (Z.max lo hi) l' w'.
Proof.
  intros Hbody. induction k as [|k IH]; intros lo l w Hk HI.
  - rewrite range_nil by lia. exists l, w. split; [reflexivity|].
    now replace (Z.max lo hi) with lo by lia.
  - destruct (Z_lt_le_dec lo hi) as [Hlt|Hge].
    + rewrite range_cons by assumption. cbn [for_]. rewrite bind_run.
      destruct (Hbody lo l w Hlt HI) as (l1 & w1 & E1 & HI1). rewrite E1.
      destruct (IH (lo + 1)%Z l1 w1 ltac:(lia) HI1) as (l2 & w2 & E2 & HI2).
      exists l2, w2. split; [exact E2|].
      now replace (Z.max lo hi) with (Z.max (lo + 1) hi) by lia.
    + rewrite range_nil by lia. exists l, w. split; [reflexivity|].
      now replace (Z.max lo hi) with lo by lia.
Qed.

End LoopInvariant.

(** *** Step counts of the update loops *)

(** On an empty buffer the bound is zero whenever it is a number. *)
Lemma update_bound_of_zero bs rt n : update_bound 0 bs rt = Ok n -> n = 0%Z.
Proof.
  unfold update_bound, truediv, int_truediv.
  destruct (bs =? 0)%Z; cbn [rbind]; [discriminate|].
  unfold mul. cbn [to_float rbind].
  destruct (to_float rt) as [x|e]; cbn [rbind]; [|discriminate].
  destruct x; cbn; intros H; inversion H; reflexivity.
Qed.

Lemma raw_loop n ary_reward ary_mask :
  length ary_reward = n -> length ary_mask = n ->
  forall k l, (k <= n)%nat -> length (fst l) = n ->
    exists l', rfold (range_down k) l (AgentPPO.raw_step ary_reward ary_mask) = Ok l'.
Proof.
  intros Hr Hm. induction k as [|k IH]; intros [r_sum pre] Hk Hl.
  - eexists. reflexivity.
  - rewrite range_down_S. cbn [rfold]. unfold AgentPPO.raw_step at 1.
    rewrite (getitem_nth ary_reward k 0) by lia. cbn [rbind].
    rewrite (getitem_nth ary_mask k 0) by lia. cbn [rbind].
    cbn [fst] in Hl.
    destruct (setitem_ok r_sum k (nth k ary_reward 0 + nth k ary_mask 0 * pre))
      as (rs' & Es & Hls & _); [lia|].
    rewrite Es. cbn [rbind].
    rewrite (getitem_nth rs' k 0) by lia. cbn [rbind].
    apply IH; [lia | cbn; lia].
Qed.

Section Loops.
Context {C : Collaborators}.

Lemma call_get_reward_sum_run n ary_reward ary_mask ary_value rs (w : world) :
  get_reward_sum (bound (self w)) = Some rs ->
  length ary_reward = n -> length ary_mask = n -> length ary_value = n ->
  exists r, AgentPPO.call_get_reward_sum n ary_reward ary_mask ary_value w = (Ok r, w).
Proof.
  intros Hg Hr Hm Hv. unfold AgentPPO.call_get_reward_sum. run_get. rewrite Hg.
  destruct rs; unfold lift.
  - unfold AgentPPO.get_reward_sum_raw.
    destruct (raw_loop n ary_reward ary_mask Hr Hm n (np_empty n, 0)) as (l' & E).
    + lia.
    + cbn. unfold np_empty. apply repeat_length.
    + rewrite E. eexists. reflexivity.
  - unfold AgentPPO.get_reward_sum_gae.
    destruct (gae_loop (lambda_gae_adv (hp (self w))) n ary_reward ary_mask ary_value
                Hr Hm Hv n
                {| AgentPPO.ary_r_sum := np_empty n; AgentPPO.ary_advantage := np_empty n;
                   AgentPPO.pre_r_sum := 0; AgentPPO.pre_advantage := 0 |})
      as (l' & E & _).
    + lia.
    + unfold gae_done, np_empty. cbn [AgentPPO.ary_r_sum AgentPPO.ary_advantage].
      rewrite repeat_length. repeat split; try reflexivity; intros i Hi; lia.
    + cbn [AgentPPO.pre_r_sum]. now rewrite Nat.ltb_irrefl.
    + cbn [AgentPPO.pre_advantage]. now rewrite Nat.ltb_irrefl.
    + rewrite E. eexists. reflexivity.
Qed.





Lemma update_steps_sac_run bs rt (w : world) r :
  AgentSAC.update_bound_sac (now_len (buffer w)) bs rt = r ->
  AgentSAC.update_steps_sac bs rt w = (r, w).
Proof. intros <-. reflexivity. Qed.



Lemma chunk_size_pos : (0 < 2 ^ 10)%nat.
Proof. apply Nat.neq_0_lt_0, Nat.pow_nonzero. discriminate. Qed.

Lemma chunk_starts_empty bs : (0 < bs)%nat -> AgentPPO.chunk_starts 0 bs = [].
Proof.
  intros Hbs. unfold AgentPPO.chunk_starts.
  replace ((0 + bs - 1) / bs)%nat with 0%nat; [reflexivity|].
  symmetry. apply Nat.div_small. lia.
Qed.

Lemma cat_chunks_empty net t bs (w : world) :
  (0 < bs)%nat -> AgentPPO.cat_chunks net t 0 bs w = (Raise cat_empty_error, w).
Proof. intros Hbs. unfold AgentPPO.cat_chunks. now rewrite chunk_starts_empty. Qed.

Lemma cat_chunks_run net t n bs (w : world) c :
  (0 < n)%nat -> (0 < bs)%nat ->
  net (bound (self w)) = Some c ->
  AgentPPO.cat_chunks net t n bs w = (Ok (AgentPPO.eval_chunks (nets w c) t n bs), w).
Proof.
  intros Hn Hbs Hc. unfold AgentPPO.cat_chunks.
  destruct (AgentPPO.chunk_starts n bs) eqn:E.
  - exfalso. unfold AgentPPO.chunk_starts in E.
    assert (H : (0 < (n + bs - 1) / bs)%nat) by (apply Nat.div_str_pos; lia).
    destruct ((n + bs - 1) / bs)%nat; [lia | discriminate].
  - unfold attr. rewrite !bind_run. unfold get at 1. cbv beta iota. rewrite Hc.
    reflexivity.
Qed.





End Loops.




(** ** Hard copies into the target of AgentSharedAC *)

Section Silent.
Context {C : Collaborators}.
Variable P : event -> bool.

Lemma silent_ret {A} (a : A) : silent P (ret a).
Proof. intros w. reflexivity. Qed.

Lemma silent_raise {A} e : silent P (@raise _ A e).
Proof. intros w. reflexivity. Qed.

Lemma silent_get : silent P get.
Proof. intros w. reflexivity. Qed.

Lemma silent_lift {A} (r : result A) : silent P (lift r).
Proof. intros w. reflexivity. Qed.

Lemma silent_bind {A B} (c : M A) (k : A -> M B) :
  silent P c -> (forall a, silent P (k a)) -> silent P (bind c k).
Proof.
  intros Hc Hk w. rewrite bind_run. specialize (Hc w).
  destruct (c w) as [[a|e] w1]; cbn [snd] in *.
  - now rewrite (Hk a w1).
  - exact Hc.
Qed.

Lemma silent_modify (f : world -> world) :
  (forall w, calls (f w) = calls w) -> silent P (modify f).
Proof. intros H w. cbn. now rewrite H. Qed.

Lemma silent_record e : P e = false -> silent P (record e).
Proof. intros H w. cbn. now rewrite H. Qed.

Lemma silent_attr {A} (f : bindings -> option A) e : silent P (attr f e).
Proof.
  unfold attr. apply silent_bind; [apply silent_get|].
  intros w. destruct (f (bound (self w))); [apply silent_ret | apply silent_raise].
Qed.

Lemma silent_optim_update o obj :
  P (OptimUpdate o) = false -> silent P (optim_update o obj).
Proof.
  intros H. unfold optim_update.
  apply silent_bind; [apply silent_attr|]. intros groups.
  apply silent_bind; [now apply silent_record|]. intros _.
  apply silent_modify. intros w.
  destruct (step_groups groups (optims w o) (vars_of w) (loss obj) (vars_of w)).
  reflexivity.
Qed.

Lemma silent_soft_update t c tau :
  (forall a b, P (SoftUpdate a b) = false) -> silent P (soft_update t c tau).
Proof.
  intros H. unfold soft_update. destruct t as [t|]; [|apply silent_raise].
  destruct c as [c|]; [|apply silent_raise].
  apply silent_bind; [now apply silent_record|]. intros _.
  now apply silent_modify.
Qed.

Lemma silent_sample bs : silent P (buffer_sample_batch bs).
Proof.
  intros w. unfold buffer_sample_batch.
  now destruct (sample_batch (buffer w) bs).
Qed.

Lemma silent_for {S X} (body : X -> S -> M S) :
  (forall x l, silent P (body x l)) -> forall xs l, silent P (for_ xs l body).
Proof.
  intros H. induction xs as [|x xs IH]; intros l; cbn [for_].
  - apply silent_ret.
  - apply silent_bind; [apply H | intros l'; apply IH].
Qed.

Lemma silent_item_of x : silent P (item_of x).
Proof. destruct x; [apply silent_ret | apply silent_raise]. Qed.

Lemma silent_update_steps bs rt : silent P (update_steps bs rt).
Proof.
  unfold update_steps. apply silent_bind; [apply silent_get|]. intros w.
  apply silent_lift.
Qed.

End Silent.

Section SharedACTarget.
Context {C : Collaborators}.

Lemma shared_ac_step_silent bs_ rt i l :
  silent is_load_state_dict (AgentSharedAC.update_step bs_ rt i l).
Proof.
  unfold AgentSharedAC.update_step.
  apply silent_bind; [apply silent_sample|]. intros b.
  apply silent_bind; [apply silent_attr|]. intros ct.
  apply silent_bind; [apply silent_attr|]. intros c.
  apply silent_bind; [apply silent_get|]. intros w.
  destruct (next_q_action (nets w ct) (state b) (next_s b) (policy_noise (hp (self w)))
              (rng w)) as [[next_q_label next_action] g].
  apply silent_bind; [now apply silent_modify|]. intros _.
  apply silent_bind; [now apply silent_modify|]. intros _.
  apply silent_bind; [apply silent_get|]. intros w1.
  apply silent_bind; [apply silent_lift|]. intros if_actor.
  apply silent_bind.
  { destruct if_actor; apply silent_ret. }
  intros [united_loss actor_obj].
  apply silent_bind; [now apply silent_optim_update|]. intros _.
  apply silent_bind; [apply silent_get|]. intros w2.
  apply silent_bind; [|intros _; apply silent_ret].
  destruct (Z.eqb_spec (update_freq (hp (self w2))) 0) as [|Hf]; [apply silent_raise|].
  rewrite mod_never_equals_divisor by assumption. apply silent_ret.
Qed.

Lemma shared_ac_update_net_silent bs rt tau :
  silent is_load_state_dict (AgentSharedAC.update_net bs rt tau).
Proof.
  unfold AgentSharedAC.update_net.
  apply silent_bind; [now apply silent_modify|]. intros _.
  apply silent_bind; [apply silent_get|]. intros w.
  apply silent_bind; [apply silent_lift|]. intros q.
  apply silent_bind; [apply silent_update_steps|]. intros n.
  apply silent_bind; [apply silent_for; intros; apply shared_ac_step_silent|].
  intros actor_obj.
  apply silent_bind; [apply silent_item_of|]. intros a.
  apply silent_bind; [apply silent_get|]. intros w1. apply silent_ret.
Qed.

End SharedACTarget.

(** C4 (the code departs from the claim). Whatever the world and the
    arguments, [AgentSharedAC.update_net] never calls [load_state_dict]: the
    gate [i % update_freq == update_freq] is false for every index and every
    non-zero [update_freq].  The default agent on a buffer of four samples,
    with batches of one and [repeat_times = 1], takes its four gradient
    steps and copies nothing into the target. *)
Theorem shared_ac_never_copies_into_target :
  (forall (C : Collaborators) (bs : Z) (rt : number) (tau : R) (w : world),
     hard_copies (calls (snd (AgentSharedAC.update_net bs rt tau w)))
     = hard_copies (calls w)) /\
  (forall i f : Z, f <> 0%Z -> (imod i f =? f)%Z = false) /\
  calls (snd (AgentSharedAC.update_net 1 (PyInt 1) 0.5 toy_shared_ac))
  = [OptimUpdate CriOptim; OptimUpdate CriOptim; OptimUpdate CriOptim; OptimUpdate CriOptim].
Proof.
  split; [|split].
  - intros C bs rt tau w. apply shared_ac_update_net_silent.
  - apply mod_never_equals_divisor.
  - vm_compute. reflexivity.
Qed.

(** ** The TD-error report of the prioritised critic objectives *)

Section TdReports.
Context {C : Collaborators}.

Lemma dqn_per_run bs (w : world) ct c :
  cri_target (bound (self w)) = Some ct ->
  cri (bound (self w)) = Some c ->
  let b := fst (sample_batch (buffer w) bs) in
  let q_label := tadd (reward b) (tmul (mask b) (row_max (forward (nets w ct) (next_s b)))) in
  let q_value := gather (forward (nets w c) (state b)) (action b) in
  exists obj w',
    AgentDQN.get_obj_critic_per bs w = (Ok (obj, q_value), w') /\
    item obj = tmean (tmul (criterion_none q_value q_label) (is_weights b)) /\
    calls w' = calls w /\
    buffer w' = snd (sample_batch (buffer w) bs).
Proof.
  intros Hct Hc. cbn zeta. unfold AgentDQN.get_obj_critic_per.
  rewrite bind_run. unfold buffer_sample_batch.
  destruct (sample_batch (buffer w) bs) as [b buf']. cbv beta iota.
  run_attr. run_attr. run_get. unfold ret.
  eexists; eexists. split; [reflexivity|]. repeat split.
Qed.

Lemma ddpg_per_run bs (w : world) ct at' c :
  cri_target (bound (self w)) = Some ct ->
  act_target (bound (self w)) = Some at' ->
  cri (bound (self w)) = Some c ->
  let b := fst (sample_batch (buffer w) bs) in
  let q_label :=
    tadd (reward b)
      (tmul (mask b) (forward2 (nets w ct) (next_s b) (forward (nets w at') (next_s b)))) in
  let q_value := forward2 (nets w c) (state b) (action b) in
  exists obj w',
    AgentDDPG.get_obj_critic_per bs w = (Ok (obj, state b), w') /\
    item obj = tmean (tmul (criterion_none q_value q_label) (is_weights b)) /\
    calls w' = TdErrorUpdate (tabs (tsub q_label q_value)) :: calls w /\
    buffer w'
    = td_error_update (snd (sample_batch (buffer w) bs)) (tabs (tsub q_label q_value)).
Proof.
  intros Hct Hat Hc. cbn zeta. unfold AgentDDPG.get_obj_critic_per.
  rewrite bind_run. unfold buffer_sample_batch.
  destruct (sample_batch (buffer w) bs) as [b buf']. cbv beta iota.
  run_attr. run_attr. run_attr. run_get.
  rewrite bind_run. unfold buffer_td_error_update, record, modify, bind, ret.
  eexists; eexists. split; [reflexivity|]. repeat split.
Qed.

Lemma td3_per_run bs (w : world) ct at' c :
  cri_target (bound (self w)) = Some ct ->
  act_target (bound (self w)) = Some at' ->
  cri (bound (self w)) = Some c ->
  let b := fst (sample_batch (buffer w) bs) in
  let next_a :=
    fst (get_action (nets w at') (next_s b) (policy_noise (hp (self w))) (rng w)) in
  let tq := get_q1_q2 (nets w ct) (next_s b) next_a in
  let q_label := tadd (reward b) (tmul (mask b) (tmin (fst tq) (snd tq))) in
  let q := get_q1_q2 (nets w c) (state b) (action b) in
  exists obj w',
    AgentTD3.get_obj_critic_per bs w = (Ok (obj, state b), w') /\
    item obj
    = tmean (tmul (tadd (criterion_none (fst q) q_label) (criterion_none (snd q) q_label))
                  (is_weights b)) /\
    calls w' = TdErrorUpdate (tabs (tsub q_label (tmin (fst q) (snd q)))) :: calls w.
Proof.
  intros Hct Hat Hc. cbn zeta. unfold AgentTD3.get_obj_critic_per.
  rewrite bind_run. unfold buffer_sample_batch.
  destruct (sample_batch (buffer w) bs) as [b buf']. cbv beta iota.
  rewrite bind_run. unfold AgentTD3.target_action. run_attr.
  cbn [nets rng self set_buffer fst snd].
  destruct (get_action (nets w at') (next_s b) (policy_noise (hp (self w))) (rng w))
    as [next_a g]. cbv beta iota.
  run_attr. run_attr. run_get.
  cbn [nets set_rng set_buffer fst snd].
  destruct (get_q1_q2 (nets w ct) (next_s b) next_a) as [tq1 tq2].
  destruct (get_q1_q2 (nets w c) (state b) (action b)) as [q1 q2] eqn:Eq.
  rewrite bind_run. unfold buffer_td_error_update, record, modify, bind, ret.
  eexists; eexists. split; [reflexivity|].
  cbn [item vars_of v_nets nets set_rng set_buffer set_calls fst snd]. rewrite Eq.
  repeat split.
Qed.

Lemma dqn_call_silent bs :
  silent is_td_error_update (AgentDQN.call_get_obj_critic bs).
Proof.
  unfold AgentDQN.call_get_obj_critic.
  apply silent_bind; [apply silent_get|]. intros w.
  destruct (get_obj_critic (bound (self w))) as [[|]|]; [| |apply silent_raise];
    unfold AgentDQN.get_obj_critic_raw, AgentDQN.get_obj_critic_per;
    (apply silent_bind; [apply silent_sample|]; intros b);
    (apply silent_bind; [apply silent_attr|]; intros ct);
    (apply silent_bind; [apply silent_attr|]; intros c);
    (apply silent_bind; [apply silent_get|]; intros w1);
    apply silent_ret.
Qed.

Lemma dqn_update_net_silent bs rt tau :
  silent is_td_error_update (AgentDQN.update_net bs rt tau).
Proof.
  unfold AgentDQN.update_net.
  apply silent_bind; [now apply silent_modify|]. intros _.
  apply silent_bind; [apply silent_update_steps|]. intros n.
  apply silent_bind.
  { apply silent_for. intros _ _. unfold AgentDQN.update_step.
    apply silent_bind; [apply dqn_call_silent|]. intros [obj q].
    apply silent_bind; [now apply silent_optim_update|]. intros _.
    apply silent_bind; [apply silent_get|]. intros w.
    apply silent_bind; [now apply silent_soft_update|]. intros _.
    apply silent_ret. }
  intros locals.
  apply silent_bind; [apply silent_item_of|]. intros oc.
  destruct (snd locals); [apply silent_ret | apply silent_raise].
Qed.

End TdReports.

(** C3 (the code departs from the claim). Every prioritised critic
    objective weights the per-sample loss by [is_weights].  Those of
    [AgentDDPG] and [AgentTD3] then report [|q_label - q_estimate|] to the
    buffer through [td_error_update]; that of [AgentDQN] reports nothing: it
    leaves the call history as it was and the buffer as sampling left it, and
    no [AgentDQN.update_net], prioritised or not, ever calls
    [td_error_update]. *)
Theorem dqn_prioritized_objective_reports_no_td_error :
  forall (C : Collaborators) (bs : Z) (w : world),
    (forall ct c,
       cri_target (bound (self w)) = Some ct ->
       cri (bound (self w)) = Some c ->
       let b := fst (sample_batch (buffer w) bs) in
       let q_label :=
         tadd (reward b) (tmul (mask b) (row_max (forward (nets w ct) (next_s b)))) in
       let q_value := gather (forward (nets w c) (state b)) (action b) in
       exists obj w',
         AgentDQN.get_obj_critic_per bs w = (Ok (obj, q_value), w') /\
         item obj = tmean (tmul (criterion_none q_value q_label) (is_weights b)) /\
         calls w' = calls w /\
         buffer w' = snd (sample_batch (buffer w) bs)) /\
    (forall rt tau,
       td_reports (calls (snd (AgentDQN.update_net bs rt tau w))) = td_reports (calls w)) /\
    (forall ct at' c,
       cri_target (bound (self w)) = Some ct ->
       act_target (bound (self w)) = Some at' ->
       cri (bound (self w)) = Some c ->
       let b := fst (sample_batch (buffer w) bs) in
       let q_label :=
         tadd (reward b)
           (tmul (mask b)
              (forward2 (nets w ct) (next_s b) (forward (nets w at') (next_s b)))) in
       let q_value := forward2 (nets w c) (state b) (action b) in
       exists obj w',
         AgentDDPG.get_obj_critic_per bs w = (Ok (obj, state b), w') /\
         item obj = tmean (tmul (criterion_none q_value q_label) (is_weights b)) /\
         calls w' = TdErrorUpdate (tabs (tsub q_label q_value)) :: calls w) /\
    (forall ct at' c,
       cri_target (bound (self w)) = Some ct ->
       act_target (bound (self w)) = Some at' ->
       cri (bound (self w)) = Some c ->
       let b := fst (sample_batch (buffer w) bs) in
       let next_a :=
         fst (get_action (nets w at') (next_s b) (policy_noise (hp (self w))) (rng w)) in
       let tq := get_q1_q2 (nets w ct) (next_s b) next_a in
       let q_label := tadd (reward b) (tmul (mask b) (tmin (fst tq) (snd tq))) in
       let q := get_q1_q2 (nets w c) (state b) (action b) in
       exists obj w',
         AgentTD3.get_obj_critic_per bs w = (Ok (obj, state b), w') /\
         item obj
         = tmean (tmul (tadd (criterion_none (fst q) q_label)
                             (criterion_none (snd q) q_label)) (is_weights b)) /\
         calls w' = TdErrorUpdate (tabs (tsub q_label (tmin (fst q) (snd q)))) :: calls w).
Proof.
  intros C bs w. split; [|split; [|split]].
  - intros ct c Hct Hc. now apply dqn_per_run.
  - intros rt tau. apply dqn_update_net_silent.
  - intros ct at' c Hct Hat Hc.
    destruct (ddpg_per_run bs w ct at' c Hct Hat Hc) as (obj & w' & E & Hi & Hcalls & _).
    exists obj, w'. auto.
  - intros ct at' c Hct Hat Hc. now apply td3_per_run.
Qed.

(** The failing input: the default [AgentDQN] with [get_obj_critic_per]
    bound leaves no report in the history; the default [AgentDDPG] with its
    [get_obj_critic_per] bound leaves one. *)
Lemma dqn_per_history_on_toy :
  calls (snd (AgentDQN.get_obj_critic_per 2 toy_dqn_per)) = [] /\
  td_reports (calls (snd (AgentDQN.update_net 2 (PyInt 1) 0.5 toy_dqn_per))) = 0%nat /\
  td_reports (calls (snd (AgentDDPG.get_obj_critic_per 2 toy_ddpg_per))) = 1%nat.
Proof.
  split; [|split]; vm_compute; reflexivity.
Qed.

(** ** The delayed update of AgentTD3 *)




(** ** The bootstrap label of the SAC critic *)




(** ** Histories and results of the update loops *)

Section Histories.
Context {C : Collaborators}.

Lemma repeat_concat_snoc {A} (pat : list A) n :
  pat ++ concat (repeat pat n) = concat (repeat pat (S n)).
Proof. reflexivity. Qed.

Lemma net_calls_cons_td e l : net_calls (TdErrorUpdate e :: l) = net_calls l.
Proof. reflexivity. Qed.

Lemma dqn_step_calls bs tau (w : world) w0 d per :
  bound (self w) = bound (self (with_get_obj_critic per (AgentDQN.init d per w0))) ->
  exists o q w',
    AgentDQN.update_step bs tau w = (Ok (Some o, Some q), w') /\
    bound (self w') = bound (self w) /\
    calls w' = [SoftUpdate ObjCriCopy ObjCri; OptimUpdate CriOptim] ++ calls w.
Proof.
  intros Hb0. unfold AgentDQN.update_step.
  destruct (dqn_get_obj_critic_run bs w w0 d per Hb0)
    as ([obj q] & w1 & E1 & Hc1 & Hs1 & _).
  rewrite bind_run, E1. cbv beta iota.
  run_optim [PNet ObjCri]. run_get. rewrite bind_run. run_soft. unfold ret.
  eexists; eexists; eexists. split; [reflexivity|].
  split; [bound_tac|]. calls_tac. reflexivity.
Qed.

Lemma ddpg_step_calls bs tau (w : world) w0 d per :
  bound (self w) = bound (self (with_get_obj_critic per (AgentDDPG.init d per w0))) ->
  exists o q w',
    AgentDDPG.update_step bs tau w = (Ok (Some o, Some q), w') /\
    bound (self w') = bound (self w) /\
    net_calls (calls w')
    = [SoftUpdate ObjActCopy ObjAct; OptimUpdate ActOptim;
       SoftUpdate ObjCriCopy ObjCri; OptimUpdate CriOptim] ++ net_calls (calls w) /\
    td_reports (calls w') = ((if per then 1 else 0) + td_reports (calls w))%nat.
Proof.
  intros Hb0. unfold AgentDDPG.update_step.
  assert (E0 : exists r w1 td,
             AgentDDPG.call_get_obj_critic bs w = (Ok r, w1) /\
             calls w1 = td ++ calls w /\ net_calls td = [] /\
             td_reports td = (if per then 1 else 0)%nat /\
             self w1 = self w /\ nets w1 = nets w).
  { unfold AgentDDPG.call_get_obj_critic. run_get.
    replace (get_obj_critic (bound (self w)))
      with (Some (if per then ObjCriticPer else ObjCriticRaw)) by bound_tac.
    destruct per; unfold AgentDDPG.get_obj_critic_raw, AgentDDPG.get_obj_critic_per;
      run_sample; run_attr; run_attr; run_attr; run_get; [run_td|]; unfold ret.
    - eexists; eexists; eexists [_]. split; [reflexivity|].
      split; [calls_tac; reflexivity|]. repeat split; try reflexivity;
        etransitivity; eassumption.
    - eexists; eexists; exists []. split; [reflexivity|].
      repeat split; try reflexivity; assumption. }
  destruct E0 as ([obj st] & w1 & td & E1 & Hc1 & Htd & Hrep & Hs1 & Hn1).
  rewrite bind_run, E1. cbv beta iota.
  run_optim [PNet ObjCri]. run_get. rewrite bind_run. run_soft.
  run_attr. run_attr. run_get. run_optim [PNet ObjAct]. rewrite bind_run. run_soft.
  unfold ret.
  eexists; eexists; eexists. split; [reflexivity|].
  split; [bound_tac|]. calls_tac.
  unfold td_reports, net_calls in *.
  cbn [filter is_td_error_update negb app length].
  rewrite !filter_app, length_app, Htd, Hrep. split; reflexivity.
Qed.

End Histories.

Section HistoryLoops.
Context {C : Collaborators}.

Lemma dqn_update_net_run bs rt tau (w : world) w0 d per hi :
  bound (self w) = bound (self (with_get_obj_critic per (AgentDQN.init d per w0))) ->
  update_bound (now_len (update_now_len (buffer w))) bs rt = Ok hi ->
  let n := Z.to_nat hi in
  exists res w',
    AgentDQN.update_net bs rt tau w = (res, w') /\
    calls w'
    = concat (repeat [SoftUpdate ObjCriCopy ObjCri; OptimUpdate CriOptim] n) ++ calls w /\
    ((1 <= n)%nat -> exists r, res = Ok r).
Proof.
  intros Hb0 Hhi n. unfold AgentDQN.update_net.
  rewrite bind_run. unfold buffer_update_now_len, modify at 1. cbv beta iota.
  rewrite bind_run, (update_steps_run _ _ _ (Ok hi)) by assumption. cbv beta iota.
  cbn [buffer set_buffer].
  assert (Hn : n = Z.to_nat hi) by reflexivity.
  set (pat := [SoftUpdate ObjCriCopy ObjCri; OptimUpdate CriOptim]) in *.
  destruct (for_range_inv
              (fun (_ : Z) (_ : option objective * option tensor) =>
                 AgentDQN.update_step bs tau)
              (fun x l w1 =>
                 (0 <= x)%Z /\ bound (self w1) = bound (self w) /\
                 calls w1 = concat (repeat pat (Z.to_nat x)) ++ calls w /\
                 ((0 < x)%Z -> exists o q, l = (Some o, Some q)))
              hi) with (k := Z.to_nat (hi - 0)) (lo := 0%Z)
                       (l := (@None objective, @None tensor))
                       (w := set_buffer (update_now_len (buffer w)) w)
    as (l' & w' & E & Hx & Hb & Hc & Hl).
  - intros x l w1 Hlt (Hx & Hb & Hc & _).
    destruct (dqn_step_calls bs tau w1 w0 d per ltac:(congruence))
      as (o & q & w2 & E & Hb2 & Hc2).
    exists (Some o, Some q), w2. split; [exact E|].
    split; [lia|]. split; [congruence|]. split; [|eauto].
    rewrite Hc2, Hc. replace (Z.to_nat (x + 1)) with (S (Z.to_nat x)) by lia.
    cbn [repeat concat]. now rewrite <- !app_assoc.
  - lia.
  - repeat split; try reflexivity; lia.
  - rewrite bind_run, E. cbv beta iota.
    replace (Z.to_nat (Z.max 0 hi)) with n in Hc by lia.
    destruct (Z_lt_le_dec 0 hi) as [Hpos|Hnpos].
    + destruct Hl as (o & q & ->); [lia|]. cbn.
      eexists; eexists. split; [reflexivity|]. split; [exact Hc|]. eauto.
    + destruct l' as [[o|] [q|]]; cbn;
        (eexists; eexists; split; [reflexivity|]; split; [exact Hc|]; intros; lia).
Qed.

Lemma ddpg_update_net_run bs rt tau (w : world) w0 d per hi :
  bound (self w) = bound (self (with_get_obj_critic per (AgentDDPG.init d per w0))) ->
  update_bound (now_len (update_now_len (buffer w))) bs rt = Ok hi ->
  let n := Z.to_nat hi in
  exists res w',
    AgentDDPG.update_net bs rt tau w = (res, w') /\
    net_calls (calls w')
    = concat (repeat [SoftUpdate ObjActCopy ObjAct; OptimUpdate ActOptim;
                      SoftUpdate ObjCriCopy ObjCri; OptimUpdate CriOptim] n)
      ++ net_calls (calls w) /\
    td_reports (calls w') = ((if per then n else 0) + td_reports (calls w))%nat /\
    ((1 <= n)%nat -> exists r, res = Ok r).
Proof.
  intros Hb0 Hhi n. unfold AgentDDPG.update_net.
  rewrite bind_run. unfold buffer_update_now_len, modify at 1. cbv beta iota.
  rewrite bind_run, (update_steps_run _ _ _ (Ok hi)) by assumption. cbv beta iota.
  cbn [buffer set_buffer].
  assert (Hn : n = Z.to_nat hi) by reflexivity.
  set (pat := [SoftUpdate ObjActCopy ObjAct; OptimUpdate ActOptim;
               SoftUpdate ObjCriCopy ObjCri; OptimUpdate CriOptim]) in *.
  destruct (for_range_inv
              (fun (_ : Z) (_ : option objective * option objective) =>
                 AgentDDPG.update_step bs tau)
              (fun x l w1 =>
                 (0 <= x)%Z /\ bound (self w1) = bound (self w) /\
                 net_calls (calls w1)
                 = concat (repeat pat (Z.to_nat x)) ++ net_calls (calls w) /\
                 td_reports (calls w1)
                 = ((if per then Z.to_nat x else 0) + td_reports (calls w))%nat /\
                 ((0 < x)%Z -> exists o q, l = (Some o, Some q)))
              hi) with (k := Z.to_nat (hi - 0)) (lo := 0%Z)
                       (l := (@None objective, @None objective))
                       (w := set_buffer (update_now_len (buffer w)) w)
    as (l' & w' & E & Hx & Hb & Hc & Ht & Hl).
  - intros x l w1 Hlt (Hx & Hb & Hc & Ht & _).
    destruct (ddpg_step_calls bs tau w1 w0 d per ltac:(congruence))
      as (o & q & w2 & E & Hb2 & Hc2 & Ht2).
    exists (Some o, Some q), w2. split; [exact E|].
    split; [lia|]. split; [congruence|]. split; [|split; [|eauto]].
    + rewrite Hc2, Hc. replace (Z.to_nat (x + 1)) with (S (Z.to_nat x)) by lia.
      cbn [repeat concat]. now rewrite <- !app_assoc.
    + rewrite Ht2, Ht. destruct per; lia.
  - lia.
  - repeat split; try reflexivity; try lia. now destruct per.
  - rewrite bind_run, E. cbv beta iota.
    replace (Z.to_nat (Z.max 0 hi)) with n in Hc, Ht by lia.
    destruct (Z_lt_le_dec 0 hi) as [Hpos|Hnpos].
    + destruct Hl as (o & q & ->); [lia|]. cbn.
      eexists; eexists. split; [reflexivity|]. split; [exact Hc|].
      split; [exact Ht|]. eauto.
    + destruct l' as [[o|] [q|]]; cbn;
        (eexists; eexists; split; [reflexivity|]; split; [exact Hc|];
         split; [exact Ht|]; intros; lia).
Qed.

End HistoryLoops.

Section TD3History.
Context {C : Collaborators}.

Lemma td3_step_calls bs tau i (w : world) w0 d per :
  bound (self w) = bound (self (with_get_obj_critic per (AgentTD3.init d per w0))) ->
  update_freq (hp (self w)) <> 0%Z ->
  exists o a w',
    AgentTD3.update_step bs tau i w = (Ok (Some o, Some a), w') /\
    bound (self w') = bound (self w) /\
    hp (self w') = hp (self w) /\
    net_calls (calls w')
    = td3_pass_calls (update_freq (hp (self w))) i ++ net_calls (calls w).
Proof.
  intros Hb0 Hf. unfold AgentTD3.update_step, td3_pass_calls.
  destruct (td3_get_obj_critic_run bs w w0 d per Hb0)
    as ([obj q] & w1 & td & E1 & Hc1 & Htd & Hs1 & Hn1).
  rewrite bind_run, E1. cbv beta iota.
  run_optim [PNet ObjCri]. run_attr. run_attr. run_get.
  run_optim [PNet ObjAct]. run_get.
  replace (update_freq (hp (self w3))) with (update_freq (hp (self w))) by bound_tac.
  destruct (Z.eqb_spec (update_freq (hp (self w))) 0) as [|_]; [contradiction|].
  rewrite bind_run.
  destruct (imod i (update_freq (hp (self w))) =? 0)%Z eqn:Em.
  - rewrite bind_run. run_soft. run_soft. unfold ret.
    eexists; eexists; eexists. split; [reflexivity|].
    split; [bound_tac|]. split; [bound_tac|].
    calls_tac. cbn. now rewrite net_calls_app, Htd.
  - unfold ret. cbv beta iota.
    eexists; eexists; eexists. split; [reflexivity|].
    split; [bound_tac|]. split; [bound_tac|].
    calls_tac. cbn. now rewrite net_calls_app, Htd.
Qed.

Lemma range_snoc lo hi : (lo <= hi)%Z -> range lo (hi + 1) = range lo hi ++ [hi].
Proof.
  intros H. unfold range.
  replace (Z.to_nat (hi + 1 - lo)) with (Z.to_nat (hi - lo) + 1)%nat by lia.
  rewrite seq_app, map_app. cbn [seq map Nat.add]. f_equal. f_equal. lia.
Qed.

Lemma soft_updates_app a b : soft_updates (a ++ b) = (soft_updates a + soft_updates b)%nat.
Proof. unfold soft_updates. now rewrite filter_app, length_app. Qed.

Lemma soft_updates_net_calls l : soft_updates (net_calls l) = soft_updates l.
Proof.
  unfold soft_updates, net_calls. induction l as [|e l IH]; cbn; auto.
  destruct e; cbn; auto.
Qed.

(** The multiples of [f] below [n] are [ceil(n / f)] many. *)
Lemma multiples_below f : (0 < f)%Z -> forall n : nat,
  soft_updates (concat (map (td3_pass_calls f) (rev (range 0 (Z.of_nat n)))))
  = (2 * Z.to_nat ((Z.of_nat n + f - 1) / f))%nat.
Proof.
  intros Hf. induction n as [|n IH].
  - cbn. rewrite Z.div_small by lia. reflexivity.
  - replace (Z.of_nat (S n)) with (Z.of_nat n + 1)%Z by lia.
    rewrite range_snoc by lia. rewrite rev_app_distr. cbn [rev app map concat].
    rewrite soft_updates_app, IH. unfold td3_pass_calls, imod.
    pose proof (Z.div_mod (Z.of_nat n) f ltac:(lia)) as Hdm.
    pose proof (Z.mod_pos_bound (Z.of_nat n) f Hf) as Hmb.
    destruct (Z.eqb_spec (Z.of_nat n mod f) 0) as [Hz|Hnz].
    + cbn [soft_updates app filter is_soft_update length].
      assert (E1 : ((Z.of_nat n + f - 1) / f = Z.of_nat n / f)%Z).
      { symmetry. apply Z.div_unique with (r := (f - 1)%Z); lia. }
      assert (E2 : ((Z.of_nat n + 1 + f - 1) / f = Z.of_nat n / f + 1)%Z).
      { symmetry. apply Z.div_unique with (r := 0%Z); lia. }
      rewrite E1, E2.
      pose proof (Z.div_pos (Z.of_nat n) f ltac:(lia) Hf). lia.
    + cbn [soft_updates app filter is_soft_update length].
      assert (E1 : ((Z.of_nat n + f - 1) / f = Z.of_nat n / f + 1)%Z).
      { symmetry. apply Z.div_unique with (r := (Z.of_nat n mod f - 1)%Z); lia. }
      assert (E2 : ((Z.of_nat n + 1 + f - 1) / f = Z.of_nat n / f + 1)%Z).
      { symmetry. apply Z.div_unique with (r := (Z.of_nat n mod f)%Z); lia. }
      rewrite E1, E2. lia.
Qed.

Lemma td3_update_net_run bs rt tau (w : world) w0 d per hi :
  bound (self w) = bound (self (with_get_obj_critic per (AgentTD3.init d per w0))) ->
  update_freq (hp (self w)) <> 0%Z ->
  update_bound (now_len (update_now_len (buffer w))) bs rt = Ok hi ->
  let n := Z.to_nat hi in
  exists res w',
    AgentTD3.update_net bs rt tau w = (res, w') /\
    net_calls (calls w')
    = concat (map (td3_pass_calls (update_freq (hp (self w))))
                (rev (range 0 (Z.of_nat n))))
      ++ net_calls (calls w) /\
    ((1 <= n)%nat -> exists r, res = Ok r).
Proof.
  intros Hb0 Hf Hhi n. unfold AgentTD3.update_net.
  rewrite bind_run. unfold buffer_update_now_len, modify at 1. cbv beta iota.
  rewrite bind_run, (update_steps_run _ _ _ (Ok hi)) by assumption. cbv beta iota.
  cbn [buffer set_buffer].
  assert (Hn : n = Z.to_nat hi) by reflexivity.
  set (f := update_freq (hp (self w))) in *.
  destruct (for_range_inv
              (fun (update_c : Z) (_ : option objective * option objective) =>
                 AgentTD3.update_step bs tau update_c)
              (fun x l w1 =>
                 (0 <= x)%Z /\ bound (self w1) = bound (self w) /\
                 hp (self w1) = hp (self w) /\
                 net_calls (calls w1)
                 = concat (map (td3_pass_calls f) (rev (range 0 x)))
                   ++ net_calls (calls w) /\
                 ((0 < x)%Z -> exists o q, l = (Some o, Some q)))
              hi) with (k := Z.to_nat (hi - 0)) (lo := 0%Z)
                       (l := (@None objective, @None objective))
                       (w := set_buffer (update_now_len (buffer w)) w)
    as (l' & w' & E & Hx & Hb & Hh & Hc & Hl).
  - intros x l w1 Hlt (Hx & Hb & Hh & Hc & _).
    destruct (td3_step_calls bs tau x w1 w0 d per ltac:(congruence)
                ltac:(rewrite Hh; exact Hf))
      as (o & q & w2 & E & Hb2 & Hh2 & Hc2).
    exists (Some o, Some q), w2. split; [exact E|].
    split; [lia|]. split; [congruence|]. split; [congruence|]. split; [|eauto].
    rewrite Hc2, Hc, Hh. rewrite range_snoc by lia.
    rewrite rev_app_distr. cbn [rev app map concat]. now rewrite <- app_assoc.
  - lia.
  - repeat split; try reflexivity; lia.
  - rewrite bind_run, E. cbv beta iota.
    replace (Z.max 0 hi) with (Z.of_nat n) in Hc by lia.
    destruct (Z_lt_le_dec 0 hi) as [Hpos|Hnpos].
    + destruct Hl as (o & q & ->); [lia|]. cbn.
      eexists; eexists. split; [reflexivity|]. split; [exact Hc|]. eauto.
    + destruct l' as [[o|] [q|]]; cbn;
        (eexists; eexists; split; [reflexivity|]; split; [exact Hc|]; intros; lia).
Qed.

End TD3History.

Section SACHistory.
Context {C : Collaborators}.

Lemma clamp_bounds lo hi x : lo <= hi -> lo <= clamp lo hi x <= hi.
Proof.
  intros H. unfold clamp, Rmin, Rmax.
  destruct (Rle_dec x lo); destruct (Rle_dec _ hi); lra.
Qed.

Lemma net_calls_sac_td per s : net_calls (sac_td_calls per s) = [].
Proof. now destruct per. Qed.

Lemma td_reports_sac_td per s :
  td_reports (sac_td_calls per s) = (if per then 1 else 0)%nat.
Proof. now destruct per. Qed.

Lemma td_reports_app a b : td_reports (a ++ b) = (td_reports a + td_reports b)%nat.
Proof. unfold td_reports. now rewrite filter_app, length_app. Qed.

Lemma sac_step_alpha bs tau (w : world) w0 d per :
  bound (self w) = bound (self (with_get_obj_critic per (AgentSAC.init d per w0))) ->
  exists obj oa w',
    AgentSAC.update_step bs tau w = (Ok (Some obj, Some oa), w') /\
    bound (self w') = bound (self w) /\
    net_calls (calls w')
    = [SoftUpdate ObjAct ObjAct; OptimUpdate ActOptim; OptimUpdate AlphaOptim;
       SoftUpdate ObjCriCopy ObjCri; OptimUpdate CriOptim] ++ net_calls (calls w) /\
    td_reports (calls w') = ((if per then 1 else 0) + td_reports (calls w))%nat /\
    -20 <= alpha_log (run (self w')) <= 2.
Proof.
  intros Hb0. unfold AgentSAC.update_step. run_get.
  destruct (sac_call_get_obj_critic_run bs (exp (alpha_log (run (self w)))) w w0 false d per
              Hb0) as (obj & st & w1 & E1 & Hi & Hc1 & Hs1 & Hn1).
  cbn zeta in *.
  rewrite bind_run, E1. cbv beta iota.
  run_optim [PNet ObjCri]. run_get. rewrite bind_run. run_soft.
  run_attr. rewrite bind_run.
  match goal with
  | |- context [AgentSAC.action_logprob ?n ?s ?w] =>
      destruct (sac_action_logprob_run n s w)
        as ([[action_pg log_prob] g] & w4 & E4 & _ & _ & Hc4 & Hs4 & _); rewrite E4
  end.
  cbv beta iota. run_get. run_optim [PAlphaLog].
  rewrite bind_run. unfold AgentSAC.clamp_alpha_log, modify at 1. cbv beta iota.
  run_attr. run_get. run_optim [PNet ObjAct]. rewrite bind_run. run_soft.
  unfold ret. eexists; eexists; eexists. split; [reflexivity|].
  split; [bound_tac|]. split; [|split].
  - calls_tac. cbn [app]. unfold net_calls at 1.
    cbn [filter is_td_error_update negb].
    fold (net_calls (sac_td_calls per
            (sac_sample_of w bs (exp (alpha_log (run (self w)))) ObjCriCopy ObjAct ObjCri)
          ++ calls w)).
    now rewrite net_calls_app, net_calls_sac_td.
  - calls_tac. unfold td_reports at 1. cbn [app filter is_td_error_update].
    fold (td_reports (sac_td_calls per
            (sac_sample_of w bs (exp (alpha_log (run (self w)))) ObjCriCopy ObjAct ObjCri)
          ++ calls w)).
    now rewrite td_reports_app, td_reports_sac_td.
  - rewrite Hs0. rewrite Hr1 by (cbn; intuition discriminate).
    cbn [self set_self run set_alpha_log set_run alpha_log].
    apply clamp_bounds. lra.
Qed.

Lemma sac_update_net_run bs rt tau (w : world) w0 d per hi :
  bound (self w) = bound (self (with_get_obj_critic per (AgentSAC.init d per w0))) ->
  AgentSAC.update_bound_sac (now_len (update_now_len (buffer w))) bs rt = Ok hi ->
  let n := Z.to_nat hi in
  exists res w',
    AgentSAC.update_net bs rt tau w = (res, w') /\
    net_calls (calls w')
    = concat (repeat [SoftUpdate ObjAct ObjAct; OptimUpdate ActOptim;
                      OptimUpdate AlphaOptim; SoftUpdate ObjCriCopy ObjCri;
                      OptimUpdate CriOptim] n)
      ++ net_calls (calls w) /\
    td_reports (calls w') = ((if per then n else 0) + td_reports (calls w))%nat /\
    ((1 <= n)%nat ->
     -20 <= alpha_log (run (self w')) <= 2 /\
     exists obj_critic obj_actor,
       res = Ok (obj_critic, obj_actor, exp (alpha_log (run (self w'))))).
Proof.
  intros Hb0 Hhi n. unfold AgentSAC.update_net.
  rewrite bind_run. unfold buffer_update_now_len, modify at 1. cbv beta iota.
  rewrite bind_run, (update_steps_sac_run _ _ _ (Ok hi)) by assumption. cbv beta iota.
  cbn [buffer set_buffer].
  assert (Hn : n = Z.to_nat hi) by reflexivity.
  set (pat := [SoftUpdate ObjAct ObjAct; OptimUpdate ActOptim; OptimUpdate AlphaOptim;
               SoftUpdate ObjCriCopy ObjCri; OptimUpdate CriOptim]) in *.
  destruct (for_range_inv
              (fun (_ : Z) (_ : option objective * option objective) =>
                 AgentSAC.update_step bs tau)
              (fun x l w1 =>
                 (0 <= x)%Z /\ bound (self w1) = bound (self w) /\
                 net_calls (calls w1)
                 = concat (repeat pat (Z.to_nat x)) ++ net_calls (calls w) /\
                 td_reports (calls w1)
                 = ((if per then Z.to_nat x else 0) + td_reports (calls w))%nat /\
                 ((0 < x)%Z ->
                  -20 <= alpha_log (run (self w1)) <= 2 /\
                  exists o q, l = (Some o, Some q)))
              hi) with (k := Z.to_nat (hi - 0)) (lo := 0%Z)
                       (l := (@None objective, @None objective))
                       (w := set_buffer (update_now_len (buffer w)) w)
    as (l' & w' & E & Hx & Hb & Hc & Ht & Hl).
  - intros x l w1 Hlt (Hx & Hb & Hc & Ht & _).
    destruct (sac_step_alpha bs tau w1 w0 d per ltac:(congruence))
      as (o & q & w2 & E & Hb2 & Hc2 & Ht2 & Ha2).
    exists (Some o, Some q), w2. split; [exact E|].
    split; [lia|]. split; [congruence|]. split; [|split; [|eauto]].
    + rewrite Hc2, Hc. replace (Z.to_nat (x + 1)) with (S (Z.to_nat x)) by lia.
      cbn [repeat concat]. now rewrite <- !app_assoc.
    + rewrite Ht2, Ht. destruct per; lia.
  - lia.
  - repeat split; try reflexivity; try lia. now destruct per.
  - rewrite bind_run, E. cbv beta iota. run_get.
    replace (Z.to_nat (Z.max 0 hi)) with n in Hc, Ht by lia.
    destruct (Z_lt_le_dec 0 hi) as [Hpos|Hnpos].
    + destruct Hl as (Ha & o & q & ->); [lia|]. cbn.
      eexists; eexists. split; [reflexivity|]. split; [exact Hc|].
      split; [exact Ht|]. intros _. split; [exact Ha|]. eauto.
    + destruct l' as [[o|] [q|]]; cbn;
        (eexists; eexists; split; [reflexivity|]; split; [exact Hc|];
         split; [exact Ht|]; intros; lia).
Qed.

End SACHistory.

Section ModSACHistory.
Context {C : Collaborators}.

(** [1 / (2 - exp (- x ^ 2))] lies in [(1/2, 1]]. *)
Lemma ttur_threshold x :
  1 / 2 < 1 / (2 - exp (- (x * x))) <= 1.
Proof.
  pose proof (exp_pos (- (x * x))) as Hp.
  assert (Hle : exp (- (x * x)) <= 1).
  { rewrite <- exp_0. destruct (Req_dec (x * x) 0) as [E|E].
    - rewrite E, Ropp_0. lra.
    - left. apply exp_increasing. nra. }
  split.
  - unfold Rdiv. rewrite !Rmult_1_l. apply Rinv_lt_contravar; nra.
  - unfold Rdiv. rewrite Rmult_1_l.
    apply Rmult_le_reg_l with (2 - exp (- (x * x))); [lra|].
    rewrite Rinv_r by lra. lra.
Qed.

Lemma optim_steps_td o per s tl :
  optim_steps o (sac_td_calls per s ++ tl) = optim_steps o tl.
Proof. now destruct per. Qed.

Lemma modsac_step_ttur bs tau c update_a oa0 (w : world) w0 d per :
  bound (self w) = bound (self (with_get_obj_critic per (AgentModSAC.init d per w0))) ->
  (1 <= c)%Z -> (0 <= update_a <= c - 1)%Z -> (c - 1 <= 2 * update_a)%Z ->
  (1 < c -> oa0 <> None)%Z ->
  exists update_a' oa w',
    AgentModSAC.update_step bs tau c (update_a, oa0) w = (Ok (update_a', Some oa), w') /\
    bound (self w') = bound (self w) /\
    (update_a <= update_a' <= c)%Z /\ (c <= 2 * update_a')%Z /\
    optim_steps CriOptim (calls w') = (1 + optim_steps CriOptim (calls w))%nat /\
    optim_steps ActOptim (calls w')
    = (Z.to_nat (update_a' - update_a) + optim_steps ActOptim (calls w))%nat /\
    -16 <= alpha_log (run (self w')) <= 2.
Proof.
  intros Hb0 Hc Ha Hh Hoa. unfold AgentModSAC.update_step.
  run_get.
  destruct (sac_call_get_obj_critic_run bs (exp (alpha_log (run (self w)))) w w0 true d per
              Hb0) as (obj & st & w1 & E1 & Hi & Hc1 & Hs1 & Hn1).
  cbn zeta in *.
  rewrite bind_run, E1. cbv beta iota.
  rewrite bind_run. unfold modify at 1. cbv beta iota.
  run_optim [PNet ObjCri]. run_get. rewrite bind_run. run_soft.
  run_attr. rewrite bind_run.
  match goal with
  | |- context [AgentSAC.action_logprob ?n ?s ?w] =>
      destruct (sac_action_logprob_run n s w)
        as ([[action_pg log_prob] g] & w4 & E4 & _ & _ & Hc4 & Hs4 & _); rewrite E4
  end.
  cbv beta iota. run_get. run_optim [PAlphaLog].
  rewrite bind_run. unfold AgentSAC.clamp_alpha_log, modify at 1. cbv beta iota.
  run_get.
  match goal with
  | |- context [Rlt_dec ?a (1 / (2 - exp (- (?x * ?x))))] =>
      pose proof (ttur_threshold x) as Hth;
      destruct (Rlt_dec a (1 / (2 - exp (- (x * x))))) as [Hlt|Hge]
  end.
  - run_attr. run_optim [PNet ObjAct]. rewrite bind_run. run_soft.
    unfold ret. eexists; eexists; eexists. split; [reflexivity|].
    split; [bound_tac|]. split; [lia|]. split; [lia|].
    split; [calls_tac; count_tac; rewrite ?optim_steps_sac_td; lia|].
    split.
    + calls_tac. count_tac. rewrite ?optim_steps_sac_td.
      replace (update_a + 1 - update_a)%Z with 1%Z by lia. cbn. lia.
    + rewrite Hs0. rewrite Hr1 by (cbn; intuition discriminate).
      cbn [self set_self run set_alpha_log set_run alpha_log].
      apply clamp_bounds. lra.
  - assert (Hhalf : (c < 2 * update_a)%Z).
    { apply lt_IZR. rewrite mult_IZR.
      assert (Hcp : 0 < IZR c) by (apply IZR_lt; lia).
      assert (Hq : 1 / 2 < IZR update_a / IZR c) by lra.
      assert (Hq2 : IZR c * (1 / 2) < IZR c * (IZR update_a / IZR c))
        by (apply Rmult_lt_compat_l; lra).
      replace (IZR c * (IZR update_a / IZR c)) with (IZR update_a) in Hq2
        by (field; lra).
      lra. }
    destruct oa0 as [oa0|].
    + unfold ret. eexists; eexists; eexists. split; [reflexivity|].
      split; [bound_tac|]. split; [lia|]. split; [lia|].
      split; [calls_tac; count_tac; rewrite ?optim_steps_sac_td; lia|].
      split.
      * calls_tac. count_tac. rewrite ?optim_steps_sac_td.
        replace (update_a - update_a)%Z with 0%Z by lia. cbn. lia.
      * cbn [self set_self run set_alpha_log set_run alpha_log].
        apply clamp_bounds. lra.
    + exfalso. destruct (Z.eq_dec c 1) as [->|Hne]; [lia|].
      apply Hoa; [lia | reflexivity].
Qed.

End ModSACHistory.

Section ModSACLoop.
Context {C : Collaborators}.

Lemma modsac_update_net_run bs rt tau (w : world) w0 d per n :
  bound (self w) = bound (self (with_get_obj_critic per (AgentModSAC.init d per w0))) ->
  AgentSAC.update_bound_sac (now_len (update_now_len (buffer w))) bs rt = Ok n ->
  exists res w' (actor_steps : nat),
    AgentModSAC.update_net bs rt tau w = (res, w') /\
    optim_steps CriOptim (calls w')
    = (Z.to_nat (n - 1) + optim_steps CriOptim (calls w))%nat /\
    optim_steps ActOptim (calls w')
    = (actor_steps + optim_steps ActOptim (calls w))%nat /\
    (actor_steps <= Z.to_nat (n - 1) <= 2 * actor_steps)%nat /\
    ((2 <= n)%Z ->
     -16 <= alpha_log (run (self w')) <= 2 /\
     exists obj_actor,
       res = Ok (obj_c (run (self w')), obj_actor, exp (alpha_log (run (self w'))))).
Proof.
  intros Hb0 Hhi. unfold AgentModSAC.update_net.
  rewrite bind_run. unfold buffer_update_now_len, modify at 1. cbv beta iota.
  rewrite bind_run, (update_steps_sac_run _ _ _ (Ok n)) by assumption. cbv beta iota.
  cbn [buffer set_buffer].
  set (hi := n).
  destruct (for_range_inv (AgentModSAC.update_step bs tau)
              (fun x l w1 =>
                 (1 <= x)%Z /\ bound (self w1) = bound (self w) /\
                 (0 <= fst l <= x - 1)%Z /\ (x - 1 <= 2 * fst l)%Z /\
                 ((1 < x)%Z ->
                  snd l <> None /\ -16 <= alpha_log (run (self w1)) <= 2) /\
                 optim_steps CriOptim (calls w1)
                 = (Z.to_nat (x - 1) + optim_steps CriOptim (calls w))%nat /\
                 optim_steps ActOptim (calls w1)
                 = (Z.to_nat (fst l) + optim_steps ActOptim (calls w))%nat)
              hi) with (k := Z.to_nat (hi - 1)) (lo := 1%Z)
                       (l := (0%Z, @None objective))
                       (w := set_buffer (update_now_len (buffer w)) w)
    as ([ua oa] & w' & E & Hx & Hb & Hr1 & Hr2 & Hsome & Hcc & Hca).
  - intros x [ua oa] w1 Hlt (Hx & Hb & Hr1 & Hr2 & Hsome & Hcc & Hca).
    cbn [fst snd] in *.
    destruct (modsac_step_ttur bs tau x ua oa w1 w0 d per ltac:(congruence) Hx Hr1 Hr2
                ltac:(intros H; now apply Hsome))
      as (ua' & oa' & w2 & E & Hb2 & Hr1' & Hr2' & Hcc' & Hca' & Hal).
    exists (ua', Some oa'), w2. split; [exact E|]. cbn [fst snd].
    split; [lia|]. split; [congruence|]. split; [lia|]. split; [lia|].
    split; [intros _; split; [discriminate | exact Hal]|].
    split; [rewrite Hcc', Hcc; lia|].
    rewrite Hca', Hca. lia.
  - lia.
  - cbn [fst snd]. repeat split; try reflexivity; try lia.
  - cbn [fst snd] in *. rewrite bind_run, E. cbv beta iota. run_get.
    exists (match oa with
            | Some o => Ok (obj_c (run (self w')), item o, exp (alpha_log (run (self w'))))
            | None => Raise AttributeError
            end), w', (Z.to_nat ua).
    split; [destruct oa; reflexivity|].
    split; [rewrite Hcc; lia|]. split; [exact Hca|]. split; [lia|].
    intros H2. destruct Hsome as [Hs Ha]; [lia|]. split; [exact Ha|].
    destruct oa as [o|]; [eauto | contradiction].
Qed.

End ModSACLoop.

Section SharedACHistory.
Context {C : Collaborators}.

Lemma shared_ac_step_calls bs_ rt i l (w : world) w0 d if_actor :
  bound (self w) = bound (self (AgentSharedAC.init d w0)) ->
  update_freq (hp (self w)) <> 0%Z ->
  mod_is_zero i rt = Ok if_actor ->
  exists l' w',
    AgentSharedAC.update_step bs_ rt i l w = (Ok l', w') /\
    (if_actor = true -> l' <> None) /\ (l <> None -> l' <> None) /\
    bound (self w') = bound (self w) /\ hp (self w') = hp (self w) /\
    calls w' = OptimUpdate CriOptim :: calls w.
Proof.
  intros Hb0 Hf Hrt. unfold AgentSharedAC.update_step.
  run_sample. run_attr. run_attr. run_get.
  match goal with
  | |- context [next_q_action ?a ?b ?c ?d ?e] =>
      destruct (next_q_action a b c d e) as [[next_q_label next_action] g]
  end.
  rewrite bind_run. unfold modify at 1. cbv beta iota.
  rewrite bind_run. unfold modify at 1. cbv beta iota.
  run_get. rewrite bind_run. unfold lift at 1. rewrite Hrt. cbv beta iota.
  rewrite bind_run.
  destruct if_actor.
  - unfold ret at 1. cbv beta iota. run_optim [PNet ObjCri]. run_get.
    replace (update_freq (hp (self w2))) with (update_freq (hp (self w))) by bound_tac.
    destruct (Z.eqb_spec (update_freq (hp (self w))) 0) as [|_]; [contradiction|].
    rewrite mod_never_equals_divisor by assumption.
    rewrite bind_run. unfold ret. cbv beta iota.
    eexists; eexists. split; [reflexivity|].
    split; [discriminate|]. split; [discriminate|].
    split; [bound_tac|]. split; [bound_tac|]. calls_tac. reflexivity.
  - unfold ret at 1. cbv beta iota. run_optim [PNet ObjCri]. run_get.
    replace (update_freq (hp (self w2))) with (update_freq (hp (self w))) by bound_tac.
    destruct (Z.eqb_spec (update_freq (hp (self w))) 0) as [|_]; [contradiction|].
    rewrite mod_never_equals_divisor by assumption.
    rewrite bind_run. unfold ret. cbv beta iota.
    eexists; eexists. split; [reflexivity|].
    split; [discriminate|]. split; [auto|].
    split; [bound_tac|]. split; [bound_tac|]. calls_tac. reflexivity.
Qed.

Lemma mod_defined_int z n : z <> 0%Z -> mod_defined n (PyInt z).
Proof.
  intros Hz i _. cbn. destruct (Z.eqb_spec z 0) as [|_]; [contradiction|]. eauto.
Qed.

(** Pass [0] refreshes the actor whenever the loop is entered: a
    [repeat_times] that is a NaN leaves [update_net] without a bound. *)
Lemma mod_is_zero_first now bs rt n b :
  update_bound now bs rt = Ok n -> mod_is_zero 0 rt = Ok b -> b = true.
Proof.
  intros Hn Hb. destruct rt as [z|y].
  - unfold mod_is_zero in Hb. destruct (z =? 0)%Z; [discriminate|].
    rewrite Zmod_0_l in Hb. now injection Hb as <-.
  - destruct y as [s|s| |s m e]; cbn in Hb; try discriminate;
      try (now injection Hb as <-).
    exfalso. unfold update_bound, truediv in Hn.
    destruct (int_truediv now bs) as [q|e]; cbn in Hn; [|discriminate].
    destruct q; discriminate.
Qed.

Lemma shared_ac_update_net_run bs rt tau (w : world) w0 d bs_ hi :
  bound (self w) = bound (self (AgentSharedAC.init d w0)) ->
  update_freq (hp (self w)) <> 0%Z ->
  let buf := update_now_len (buffer w) in
  AgentSharedAC.grown_batch_size (now_len buf) (max_len buf) bs = Ok bs_ ->
  update_bound (now_len buf) bs rt = Ok hi ->
  mod_defined hi rt ->
  let n := Z.to_nat hi in
  exists res w',
    AgentSharedAC.update_net bs rt tau w = (res, w') /\
    calls w' = repeat (OptimUpdate CriOptim) n ++ calls w /\
    ((1 <= n)%nat -> exists actor_obj, res = Ok (actor_obj, avg_loss_c (run (self w')))).
Proof.
  intros Hb0 Hf buf Hbs Hhi Hmod n. unfold AgentSharedAC.update_net.
  rewrite bind_run. unfold buffer_update_now_len, modify at 1. cbv beta iota.
  run_get. rewrite bind_run. unfold lift at 1. cbn [buffer set_buffer].
  fold buf. rewrite Hbs. cbv beta iota.
  rewrite bind_run, (update_steps_run _ _ _ (Ok hi)) by assumption. cbv beta iota.
  assert (Hn : n = Z.to_nat hi) by reflexivity.
  destruct (for_range_inv (AgentSharedAC.update_step bs_ rt)
              (fun x l w1 =>
                 (0 <= x)%Z /\ bound (self w1) = bound (self w) /\
                 hp (self w1) = hp (self w) /\
                 calls w1 = repeat (OptimUpdate CriOptim) (Z.to_nat x) ++ calls w /\
                 ((0 < x)%Z -> l <> None))
              hi) with (k := Z.to_nat (hi - 0)) (lo := 0%Z) (l := @None objective)
                       (w := set_buffer buf w)
    as (l' & w' & E & Hx & Hb & Hh & Hc & Hl).
  - intros x l w1 Hlt (Hx & Hb & Hh & Hc & Hl).
    destruct (Hmod x ltac:(lia)) as (b & Eb).
    destruct (shared_ac_step_calls bs_ rt x l w1 w0 d b ltac:(congruence)
                ltac:(rewrite Hh; exact Hf) Eb)
      as (l1 & w2 & E & H0 & Hkeep & Hb2 & Hh2 & Hc2).
    exists l1, w2. split; [exact E|].
    split; [lia|]. split; [congruence|]. split; [congruence|]. split.
    + rewrite Hc2, Hc. replace (Z.to_nat (x + 1)) with (S (Z.to_nat x)) by lia.
      reflexivity.
    + intros _. destruct (Z.eq_dec x 0) as [->|Hne].
      * apply H0. exact (mod_is_zero_first _ _ _ _ _ Hhi Eb).
      * apply Hkeep, Hl. lia.
  - lia.
  - repeat split; try reflexivity; try lia.
  - rewrite bind_run, E. cbv beta iota.
    replace (Z.to_nat (Z.max 0 hi)) with n in Hc by lia.
    destruct l' as [o|].
    + cbn [item_of]. rewrite bind_run. unfold ret at 1. cbv beta iota.
      run_get. unfold ret.
      eexists; eexists. split; [reflexivity|]. split; [exact Hc|]. eauto.
    + cbn. eexists; eexists. split; [reflexivity|]. split; [exact Hc|].
      intros H1. exfalso. apply Hl; [lia | reflexivity].
Qed.

End SharedACHistory.

Section PPOHistory.
Context {C : Collaborators}.

Lemma ppo_step_calls p buf_len bs tau (w : world) w0 d rs :
  bound (self w) = bound (set_get_reward_sum rs (self (AgentPPO.init d w0))) ->
  exists oc oa lp w',
    AgentPPO.update_step p buf_len bs tau w = (Ok (Some oc, Some oa, Some lp), w') /\
    bound (self w') = bound (self w) /\
    calls w' = [OptimUpdate CriOptim; OptimUpdate ActOptim] ++ calls w /\
    (forall m, m <> ObjCri -> m <> ObjAct -> nets w' m = nets w m).
Proof.
  intros Hb0. unfold AgentPPO.update_step.
  rewrite bind_run. unfold AgentPPO.torch_randint.
  destruct (randint (rng w) buf_len bs) as [indices g]. cbv beta iota.
  run_attr. run_get. run_optim [PNet ObjAct]. run_attr. run_get.
  run_optim [PNet ObjCri]. run_get.
  replace (cri_target (bound (self w2))) with (Some ObjCri) by (symmetry; bound_tac).
  replace (cri (bound (self w2))) with (Some ObjCri) by (symmetry; bound_tac).
  cbn [net_obj_eqb]. rewrite bind_run. unfold ret. cbv beta iota.
  eexists; eexists; eexists; eexists. split; [reflexivity|].
  split; [bound_tac|]. split; [calls_tac; reflexivity|].
  intros m Hmc Hma. rewrite Hn0, Hn by (cbn; intuition congruence). reflexivity.
Qed.

Lemma ppo_update_net_run buf bs rt tau (w : world) w0 d rs hi :
  bound (self w) = bound (self (bind_get_reward_sum rs (AgentPPO.init d w0))) ->
  let n := length (ary_state buf) in
  update_bound (Z.of_nat n) bs rt = Ok hi ->
  length (ary_reward buf) = n -> length (ary_mask buf) = n ->
  length (AgentPPO.eval_chunks (nets w ObjCri) (ary_state buf) n (2 ^ 10)) = n ->
  let k := Z.to_nat hi in
  exists res w',
    AgentPPO.update_net buf bs rt tau w = (res, w') /\
    calls w' = concat (repeat [OptimUpdate CriOptim; OptimUpdate ActOptim] k) ++ calls w /\
    ((1 <= k)%nat -> exists r, res = Ok r).
Proof.
  intros Hb0 n Hhi Hr Hm Hv k. unfold AgentPPO.update_net. fold n.
  destruct (Nat.eq_dec n 0) as [Hz|Hnz].
  { assert (Hk : k = 0%nat).
    { subst k. rewrite Hz in Hhi. now rewrite (update_bound_of_zero _ _ _ Hhi). }
    rewrite Hz, bind_run, cat_chunks_empty by apply chunk_size_pos. cbv beta iota.
    eexists; eexists. split; [reflexivity|]. rewrite Hk.
    split; [reflexivity|]. intros; lia. }
  rewrite bind_run, (cat_chunks_run _ _ _ _ _ ObjCri)
    by first [apply chunk_size_pos | lia | bound_tac].
  cbv beta iota. run_attr. run_get.
  destruct (call_get_reward_sum_run n (ary_reward buf) (ary_mask buf)
              (AgentPPO.eval_chunks (nets w ObjCri) (ary_state buf) n (2 ^ 10)) rs w)
    as ([r_sum adv] & Er); auto; [bound_tac|].
  rewrite bind_run, Er. cbv beta iota.
  rewrite bind_run. unfold lift at 1. rewrite Hhi. cbv beta iota.
  assert (Hk : k = Z.to_nat hi) by reflexivity.
  match goal with
  | |- context [for_ _ _ (fun _ _ => AgentPPO.update_step ?p0 _ _ _)] => set (p := p0)
  end.
  set (pat := [OptimUpdate CriOptim; OptimUpdate ActOptim]) in *.
  destruct (for_range_inv
              (fun (_ : Z) (_ : option objective * option objective * option tensor) =>
                 AgentPPO.update_step p (Z.of_nat n) bs tau)
              (fun x l w1 =>
                 (0 <= x)%Z /\ bound (self w1) = bound (self w) /\
                 calls w1 = concat (repeat pat (Z.to_nat x)) ++ calls w /\
                 ((0 < x)%Z -> exists oc oa lp, l = (Some oc, Some oa, Some lp)))
              hi) with (k := Z.to_nat (hi - 0)) (lo := 0%Z)
                       (l := (@None objective, @None objective, @None tensor)) (w := w)
    as (l' & w' & E & Hx & Hb & Hc & Hl).
  - intros x l w1 Hlt (Hx & Hb & Hc & _).
    destruct (ppo_step_calls p (Z.of_nat n) bs tau w1 w0 d (Some rs)
                ltac:(rewrite Hb; exact Hb0))
      as (oc & oa & lp & w2 & E & Hb2 & Hc2 & _).
    exists (Some oc, Some oa, Some lp), w2. split; [exact E|].
    split; [lia|]. split; [congruence|]. split; [|eauto].
    rewrite Hc2, Hc. replace (Z.to_nat (x + 1)) with (S (Z.to_nat x)) by lia.
    cbn [repeat concat]. now rewrite <- !app_assoc.
  - lia.
  - repeat split; try reflexivity; lia.
  - rewrite bind_run, E. cbv beta iota.
    replace (Z.to_nat (Z.max 0 hi)) with k in Hc by lia.
    destruct (Z_lt_le_dec 0 hi) as [Hpos|Hnpos].
    + destruct Hl as (oc & oa & lp & ->); [lia|]. cbn.
      eexists; eexists. split; [reflexivity|]. split; [exact Hc|]. eauto.
    + destruct l' as [[[o|] [q|]] [lp|]]; cbn;
        (eexists; eexists; split; [reflexivity|]; split; [exact Hc|]; intros; lia).
Qed.

(** [init] of [AgentPPO] and of [AgentSharedSAC] leaves the method attribute
    that [update_net] calls at [None]. *)
Lemma ppo_update_net_unbound buf bs rt tau (w : world) w0 d :
  get_reward_sum (bound (self w0)) = None ->
  bound (self w) = bound (self (AgentPPO.init d w0)) ->
  AgentPPO.update_net buf bs rt tau w
  = (Raise (match ary_state buf with [] => cat_empty_error | _ :: _ => TypeError end), w).
Proof.
  intros H0 Hb.
  assert (Hb0 : bound (self w)
                = bound (set_get_reward_sum None (self (AgentPPO.init d w0)))).
  { rewrite Hb. unfold AgentPPO.init, AgentBase.init, set_get_reward_sum. bound_norm.
    cbn. rewrite ?H0. reflexivity. }
  clear Hb. unfold AgentPPO.update_net.
  destruct (ary_state buf) as [|s ss] eqn:Es.
  - cbn [length]. now rewrite bind_run, cat_chunks_empty by apply chunk_size_pos.
  - rewrite bind_run, (cat_chunks_run _ _ _ _ _ ObjCri)
      by first [apply chunk_size_pos | cbn [length]; lia | bound_tac].
    cbv beta iota. run_attr. run_get.
    rewrite bind_run. unfold AgentPPO.call_get_reward_sum. run_get.
    replace (get_reward_sum (bound (self w))) with (@None reward_sum) by bound_tac.
    reflexivity.
Qed.

Lemma shared_sac_update_net_unbound bs rt tau (w : world) w0 d hi :
  get_obj_critic (bound (self w0)) = None ->
  bound (self w) = bound (self (AgentSharedSAC.init d w0)) ->
  update_bound (now_len (update_now_len (buffer w))) bs rt = Ok hi ->
  (2 <= hi)%Z ->
  AgentSharedSAC.update_net bs rt tau w
  = (Raise TypeError, set_buffer (update_now_len (buffer w)) w).
Proof.
  intros H0 Hb Hn Hhi.
  assert (Hb0 : bound (self w)
                = bound (set_get_obj_critic None (self (AgentSharedSAC.init d w0)))).
  { rewrite Hb. unfold AgentSharedSAC.init, set_get_obj_critic. bound_norm.
    cbn. rewrite ?H0. reflexivity. }
  clear Hb. unfold AgentSharedSAC.update_net.
  rewrite bind_run. unfold buffer_update_now_len, modify at 1. cbv beta iota.
  run_attr.
  rewrite bind_run, (update_steps_run _ _ _ (Ok hi)) by assumption. cbv beta iota.
  cbn [buffer set_buffer].
  rewrite range_cons by lia. cbn [for_]. rewrite !bind_run.
  unfold AgentSharedSAC.update_step at 1. run_get.
  rewrite bind_run. unfold AgentSAC.call_get_obj_critic. run_get.
  replace (get_obj_critic (bound (self (set_buffer (update_now_len (buffer w)) w))))
    with (@None critic_objective) by bound_tac.
  reflexivity.
Qed.

End PPOHistory.

(** ** Reward sums without GAE, and arrays that are too short *)

Lemma raw_loop_inv n ary_reward ary_mask :
  length ary_reward = n -> length ary_mask = n ->
  forall k l,
    (k <= n)%nat -> length (fst l) = n ->
    (forall i, (k <= i < n)%nat ->
       nth i (fst l) 0 = nth i ary_reward 0 + nth i ary_mask 0 * gae_next n (fst l) i) ->
    snd l = (if (k <? n)%nat then nth k (fst l) 0 else 0) ->
    exists l',
      rfold (range_down k) l (AgentPPO.raw_step ary_reward ary_mask) = Ok l' /\
      length (fst l') = n /\
      (forall i, (i < n)%nat ->
         nth i (fst l') 0 = nth i ary_reward 0 + nth i ary_mask 0 * gae_next n (fst l') i).
Proof.
  intros Hr Hm. induction k as [|k IH]; intros [r_sum pre] Hk Hl Hrs Hpre;
    cbn [fst snd] in *.
  - exists (r_sum, pre). split; [reflexivity|]. split; [exact Hl|].
    intros i Hi. apply Hrs. lia.
  - rewrite range_down_S. cbn [rfold]. unfold AgentPPO.raw_step at 1.
    rewrite (getitem_nth ary_reward k 0) by lia. cbn [rbind].
    rewrite (getitem_nth ary_mask k 0) by lia. cbn [rbind].
    destruct (setitem_ok r_sum k (nth k ary_reward 0 + nth k ary_mask 0 * pre))
      as (rs' & Es & Hls & Hsk & Hso); [lia|].
    rewrite Es. cbn [rbind].
    rewrite (getitem_nth rs' k 0) by lia. cbn [rbind].
    apply IH; cbn [fst snd].
    + lia.
    + lia.
    + intros i Hi. unfold gae_next.
      destruct (Nat.eq_dec i k) as [->|Hne].
      * rewrite (nth_of_nth_error _ _ _ Hsk), Hpre.
        destruct (S k <? n)%nat eqn:E; [|reflexivity].
        now rewrite (nth_eq_of_nth_error _ _ _ (Hso (S k) ltac:(lia))).
      * rewrite (nth_eq_of_nth_error _ _ _ (Hso i Hne)).
        rewrite Hrs by lia. unfold gae_next.
        destruct (S i <? n)%nat eqn:E; [|reflexivity].
        now rewrite (nth_eq_of_nth_error _ _ _ (Hso (S i) ltac:(lia))).
    + rewrite (proj2 (Nat.ltb_lt k n)) by lia. reflexivity.
Qed.

(** The backward recursion has one solution. *)
Lemma reward_sum_unique n (ary_reward ary_mask a b : tensor) :
  length a = n -> length b = n ->
  (forall i, (i < n)%nat ->
     nth i a 0 = nth i ary_reward 0 + nth i ary_mask 0 * gae_next n a i) ->
  (forall i, (i < n)%nat ->
     nth i b 0 = nth i ary_reward 0 + nth i ary_mask 0 * gae_next n b i) ->
  a = b.
Proof.
  intros Ha Hb Hra Hrb.
  assert (H : forall k i, (n - k <= i < n)%nat -> nth i a 0 = nth i b 0).
  { induction k as [|k IH]; intros i Hi; [lia|].
    rewrite Hra, Hrb by lia. unfold gae_next.
    destruct (S i <? n)%nat eqn:E; [|reflexivity].
    apply Nat.ltb_lt in E. rewrite (IH (S i)) by lia. reflexivity. }
  apply (nth_ext a b 0 0); [congruence|].
  intros i Hi. apply (H n). lia.
Qed.

Lemma nth_tmap2 f (a b : tensor) i :
  (i < length a)%nat -> (i < length b)%nat ->
  nth i (tmap2 f a b) 0 = f (nth i a 0) (nth i b 0).
Proof.
  unfold tmap2. revert b i.
  induction a as [|x a IH]; intros [|y b] [|i] Ha Hb; cbn in *; try lia; auto.
  apply IH; lia.
Qed.

Lemma length_tmap2 f (a b : tensor) :
  length (tmap2 f a b) = Nat.min (length a) (length b).
Proof. unfold tmap2. now rewrite length_map, length_combine. Qed.

Lemma get_reward_sum_raw_run n ary_reward ary_mask ary_value :
  length ary_reward = n -> length ary_mask = n -> length ary_value = n ->
  exists r_sum advantage,
    AgentPPO.get_reward_sum_raw n ary_reward ary_mask ary_value = Ok (r_sum, advantage) /\
    length r_sum = n /\ length advantage = n /\
    (forall i, (i < n)%nat ->
       nth i r_sum 0 = nth i ary_reward 0 + nth i ary_mask 0 * gae_next n r_sum i) /\
    (forall i, (i < n)%nat ->
       nth i advantage 0
       = nth i r_sum 0 - nth i ary_mask 0 * nth i (AgentPPO.column ary_value) 0).
Proof.
  intros Hr Hm Hv. unfold AgentPPO.get_reward_sum_raw.
  destruct (raw_loop_inv n ary_reward ary_mask Hr Hm n (np_empty n, 0))
    as ([r_sum pre] & E & Hl & Hrs); cbn [fst snd].
  - lia.
  - unfold np_empty. apply repeat_length.
  - intros i Hi. lia.
  - now rewrite Nat.ltb_irrefl.
  - rewrite E. cbn [rbind fst snd] in *.
    assert (Hc : length (AgentPPO.column ary_value) = n)
      by (unfold AgentPPO.column; now rewrite length_map).
    eexists; eexists. split; [reflexivity|]. split; [exact Hl|]. split; [|split].
    + unfold tsub, tmul. rewrite !length_tmap2. lia.
    + exact Hrs.
    + intros i Hi. unfold tsub, tmul.
      rewrite nth_tmap2 by (rewrite ?length_tmap2; lia).
      rewrite nth_tmap2 by lia. reflexivity.
Qed.

Lemma get_reward_sum_gae_run (a : agent) n ary_reward ary_mask ary_value :
  length ary_reward = n -> length ary_mask = n -> length ary_value = n ->
  exists r_sum advantage,
    AgentPPO.get_reward_sum_gae a n ary_reward ary_mask ary_value = Ok (r_sum, advantage) /\
    length r_sum = n /\
    (forall i, (i < n)%nat ->
       nth i r_sum 0 = nth i ary_reward 0 + nth i ary_mask 0 * gae_next n r_sum i).
Proof.
  intros Hr Hm Hv. unfold AgentPPO.get_reward_sum_gae.
  destruct (gae_loop (lambda_gae_adv (hp a)) n ary_reward ary_mask ary_value Hr Hm Hv n
              {| AgentPPO.ary_r_sum := np_empty n; AgentPPO.ary_advantage := np_empty n;
                 AgentPPO.pre_r_sum := 0; AgentPPO.pre_advantage := 0 |})
    as (l' & El & Hlr & Hla & Hrs & Hadv).
  - lia.
  - unfold gae_done, np_empty. cbn [AgentPPO.ary_r_sum AgentPPO.ary_advantage].
    rewrite repeat_length.
    repeat split; try reflexivity; intros i Hi; lia.
  - cbn [AgentPPO.pre_r_sum]. now rewrite Nat.ltb_irrefl.
  - cbn [AgentPPO.pre_advantage]. now rewrite Nat.ltb_irrefl.
  - rewrite El. cbn [rbind].
    exists (AgentPPO.ary_r_sum l'), (AgentPPO.ary_advantage l').
    split; [reflexivity|]. split; [exact Hlr|].
    intros i Hi. apply Hrs. lia.
Qed.

Lemma getitem_short {A} (l : list A) i : (length l <= i)%nat -> getitem l i = Raise IndexError.
Proof.
  intros H. unfold getitem. now rewrite (proj2 (nth_error_None l i) H).
Qed.

(** ** Updating on too small a buffer *)




(** ** Extra properties of the update loops *)

(** X1. [AgentDQN.update_net] on an agent whose [get_obj_critic] holds one
    of its two methods ([init] binds the raw one without [if_use_per]; the
    prioritised one is bound by hand), when the bound of its loop,
    [int(now_len / batch_size * repeat_times)] as the floats compute it, is
    [passes]: the calls it makes on the networks are, pass after pass, one
    gradient step of the critic's optimiser and then one soft update of the
    critic's target, [passes] times over and nothing else; with at least one
    pass it returns. *)
Theorem dqn_update_net_history :
  forall (C : Collaborators) (bs : Z) (rt : number) (tau : R) (w w0 : world) (d : Z)
         (per : bool) (passes : Z),
    bound (self w) = bound (self (with_get_obj_critic per (AgentDQN.init d per w0))) ->
    update_bound (now_len (update_now_len (buffer w))) bs rt = Ok passes ->
    let n := Z.to_nat passes in
    exists res w',
      AgentDQN.update_net bs rt tau w = (res, w') /\
      calls w'
      = concat (repeat [SoftUpdate ObjCriCopy ObjCri; OptimUpdate CriOptim] n)
        ++ calls w /\
      ((1 <= n)%nat -> exists r, res = Ok r).
Proof.
  intros C bs rt tau w w0 d per passes Hb Hn.
  now apply dqn_update_net_run with w0 d per.
Qed.

(** The default [AgentDQN] with the prioritised method bound, on four
    samples in batches of two. *)
Lemma dqn_update_net_history_witness :
  exists res w',
    AgentDQN.update_net 2 (PyInt 1) 0.5 toy_dqn_per = (res, w') /\
    calls w'
    = concat (repeat [SoftUpdate ObjCriCopy ObjCri; OptimUpdate CriOptim] 2)
      ++ calls toy_dqn_per.
Proof.
  destruct (dqn_update_net_history toy 2%Z (PyInt 1) 0.5 toy_dqn_per
              (toy_world AgentDQN.__init__ 4) 2%Z true 2%Z eq_refl eq_refl)
    as (res & w' & E & Hc & _).
  exists res, w'. split; [exact E | exact Hc].
Defined.

(** X2. [AgentDDPG.update_net] on an agent whose [get_obj_critic] holds one
    of its two methods ([init] binds the raw one without [if_use_per]; the
    prioritised one is bound by hand), when the bound of its loop as the
    floats compute it is [passes]: every pass steps the critic, soft-updates
    the critic's target, steps the actor and soft-updates the actor's target,
    in that order; with the prioritised method every pass reports once to the
    buffer, and never with the raw one; with at least one pass the call
    returns. *)
Theorem ddpg_update_net_history :
  forall (C : Collaborators) (bs : Z) (rt : number) (tau : R) (w w0 : world) (d : Z)
         (per : bool) (passes : Z),
    bound (self w) = bound (self (with_get_obj_critic per (AgentDDPG.init d per w0))) ->
    update_bound (now_len (update_now_len (buffer w))) bs rt = Ok passes ->
    let n := Z.to_nat passes in
    exists res w',
      AgentDDPG.update_net bs rt tau w = (res, w') /\
      net_calls (calls w')
      = concat (repeat [SoftUpdate ObjActCopy ObjAct; OptimUpdate ActOptim;
                        SoftUpdate ObjCriCopy ObjCri; OptimUpdate CriOptim] n)
        ++ net_calls (calls w) /\
      td_reports (calls w') = ((if per then n else 0) + td_reports (calls w))%nat /\
      ((1 <= n)%nat -> exists r, res = Ok r).
Proof.
  intros C bs rt tau w w0 d per passes Hb Hn.
  now apply ddpg_update_net_run with w0 d.
Qed.

Lemma ddpg_update_net_history_witness :
  exists res w',
    AgentDDPG.update_net 2 (PyInt 1) 0.5 toy_ddpg_per = (res, w') /\
    td_reports (calls w') = (2 + td_reports (calls toy_ddpg_per))%nat.
Proof.
  destruct (ddpg_update_net_history toy 2%Z (PyInt 1) 0.5 toy_ddpg_per
              (toy_world AgentDDPG.__init__ 4) 1%Z true 2%Z eq_refl eq_refl)
    as (res & w' & E & _ & Ht & _).
  exists res, w'. split; [exact E | exact Ht].
Defined.

(** X3. [AgentTD3.update_net] with a positive [update_freq], on an agent
    whose [get_obj_critic] holds one of its two methods ([init] binds the raw
    one without [if_use_per]; the prioritised one is bound by hand), when the
    bound of its loop as the floats compute it is [passes]: the pass of index
    [i] steps the critic and the actor and, when [i] is a multiple of
    [update_freq], soft-updates the critic's target and then the actor's;
    over [n] passes that makes [2 * ceil(n / update_freq)] soft updates; with
    at least one pass the call returns. *)
Theorem td3_update_net_history :
  forall (C : Collaborators) (bs : Z) (rt : number) (tau : R) (w w0 : world) (d : Z)
         (per : bool) (passes : Z),
    bound (self w) = bound (self (with_get_obj_critic per (AgentTD3.init d per w0))) ->
    (0 < update_freq (hp (self w)))%Z ->
    update_bound (now_len (update_now_len (buffer w))) bs rt = Ok passes ->
    let f := update_freq (hp (self w)) in
    let n := Z.to_nat passes in
    exists res w',
      AgentTD3.update_net bs rt tau w = (res, w') /\
      net_calls (calls w')
      = concat (map (td3_pass_calls f) (rev (range 0 (Z.of_nat n))))
        ++ net_calls (calls w) /\
      soft_updates (calls w')
      = (2 * Z.to_nat ((Z.of_nat n + f - 1) / f) + soft_updates (calls w))%nat /\
      ((1 <= n)%nat -> exists r, res = Ok r).
Proof.
  intros C bs rt tau w w0 d per passes Hb Hf Hn. cbn zeta.
  destruct (td3_update_net_run bs rt tau w w0 d per passes Hb ltac:(lia) Hn)
    as (res & w' & E & Hc & Hok).
  exists res, w'. split; [exact E|]. split; [exact Hc|]. split; [|exact Hok].
  rewrite <- (soft_updates_net_calls (calls w')), Hc, soft_updates_app.
  now rewrite multiples_below, soft_updates_net_calls.
Qed.

(** The default [AgentTD3], whose [update_freq] is 2, on four samples in
    batches of one. *)
Lemma td3_update_net_history_witness :
  exists res w',
    AgentTD3.update_net 1 (PyInt 1) 0.5 toy_td3 = (res, w') /\
    soft_updates (calls w')
    = (2 * Z.to_nat ((Z.of_nat (Z.to_nat 4) + update_freq (hp (self toy_td3)) - 1)
                     / update_freq (hp (self toy_td3)))
       + soft_updates (calls toy_td3))%nat.
Proof.
  destruct (td3_update_net_history toy 1%Z (PyInt 1) 0.5 toy_td3
              (toy_world AgentTD3.__init__ 4) 1%Z false 4%Z eq_refl
              ltac:(reflexivity) eq_refl)
    as (res & w' & E & _ & Hs & _).
  exists res, w'. split; [exact E | exact Hs].
Defined.

(** X4. [AgentSAC.update_net] on an agent whose [get_obj_critic] holds one
    of its two methods ([init] binds the raw one without [if_use_per]; the
    prioritised one is bound by hand), when the bound of its loop,
    [int(now_len * repeat_times / batch_size)] as the floats compute it, is
    [passes]: every pass steps the critic, soft-updates its target, steps
    [alpha_log], steps the actor and soft-updates the actor onto itself, in
    that order; after at least one pass [alpha_log] lies in [[-20, 2]], and
    the call returns the two last objectives and [alpha = exp alpha_log]. *)
Theorem sac_update_net_history :
  forall (C : Collaborators) (bs : Z) (rt : number) (tau : R) (w w0 : world) (d : Z)
         (per : bool) (passes : Z),
    bound (self w) = bound (self (with_get_obj_critic per (AgentSAC.init d per w0))) ->
    AgentSAC.update_bound_sac (now_len (update_now_len (buffer w))) bs rt = Ok passes ->
    let n := Z.to_nat passes in
    exists res w',
      AgentSAC.update_net bs rt tau w = (res, w') /\
      net_calls (calls w')
      = concat (repeat [SoftUpdate ObjAct ObjAct; OptimUpdate ActOptim;
                        OptimUpdate AlphaOptim; SoftUpdate ObjCriCopy ObjCri;
                        OptimUpdate CriOptim] n)
        ++ net_calls (calls w) /\
      td_reports (calls w') = ((if per then n else 0) + td_reports (calls w))%nat /\
      ((1 <= n)%nat ->
       -20 <= alpha_log (run (self w')) <= 2 /\
       exists obj_critic obj_actor,
         res = Ok (obj_critic, obj_actor, exp (alpha_log (run (self w'))))).
Proof.
  intros C bs rt tau w w0 d per passes Hb Hn.
  now apply sac_update_net_run with w0 d.
Qed.

Lemma sac_update_net_history_witness :
  exists res w',
    AgentSAC.update_net 2 (PyInt 1) 0.5 toy_sac_per = (res, w') /\
    -20 <= alpha_log (run (self w')) <= 2.
Proof.
  destruct (sac_update_net_history toy 2%Z (PyInt 1) 0.5 toy_sac_per
              (toy_world AgentSAC.__init__ 4) 1%Z true 2%Z eq_refl eq_refl)
    as (res & w' & E & _ & _ & Ha).
  exists res, w'. split; [exact E|].
  apply Ha. vm_compute. lia.
Defined.

(** X5. [AgentModSAC.update_net], whose loop runs over [range(1, n)] with
    [n = int(now_len * repeat_times / batch_size)] as the floats compute it,
    on an agent whose [get_obj_critic] holds one of its two methods ([init]
    binds the raw one without [if_use_per]; the prioritised one is bound by
    hand): the first pass always steps the actor, and in every pass the
    throttle [update_a / update_c < 1 / (2 - lambda)] lets the actor step
    unless it already has more than half as many steps as the critic; so the
    actor takes at least half as many steps as the critic and at most as
    many.  With [n] at least 2 the call returns, and [alpha_log] lies in
    [[-16, 2]]. *)
Theorem modsac_actor_steps_between_half_and_all :
  forall (C : Collaborators) (bs : Z) (rt : number) (tau : R) (w w0 : world) (d : Z)
         (per : bool) (n : Z),
    bound (self w) = bound (self (with_get_obj_critic per (AgentModSAC.init d per w0))) ->
    AgentSAC.update_bound_sac (now_len (update_now_len (buffer w))) bs rt = Ok n ->
    exists res w' (actor_steps : nat),
      AgentModSAC.update_net bs rt tau w = (res, w') /\
      optim_steps CriOptim (calls w')
      = (Z.to_nat (n - 1) + optim_steps CriOptim (calls w))%nat /\
      optim_steps ActOptim (calls w')
      = (actor_steps + optim_steps ActOptim (calls w))%nat /\
      (actor_steps <= Z.to_nat (n - 1) <= 2 * actor_steps)%nat /\
      ((2 <= n)%Z ->
       -16 <= alpha_log (run (self w')) <= 2 /\
       exists obj_actor,
         res = Ok (obj_c (run (self w')), obj_actor, exp (alpha_log (run (self w'))))).
Proof.
  intros C bs rt tau w w0 d per n Hb Hn.
  now apply modsac_update_net_run with w0 d per.
Qed.

(** The default [AgentModSAC] on four samples in batches of one: three
    passes. *)
Lemma modsac_actor_steps_between_half_and_all_witness :
  exists res w' (actor_steps : nat),
    AgentModSAC.update_net 1 (PyInt 1) 0.5 toy_modsac = (res, w') /\
    optim_steps ActOptim (calls w')
    = (actor_steps + optim_steps ActOptim (calls toy_modsac))%nat /\
    (actor_steps <= Z.to_nat (4 - 1) <= 2 * actor_steps)%nat.
Proof.
  destruct (modsac_actor_steps_between_half_and_all toy 1%Z (PyInt 1) 0.5 toy_modsac
              (toy_world AgentModSAC.__init__ 4) 1%Z false 4%Z eq_refl eq_refl)
    as (res & w' & a & E & _ & Ha & Hb & _).
  exists res, w', a. split; [exact E|]. split; [exact Ha | exact Hb].
Defined.

(** X6. [AgentSharedAC.update_net] on an agent that [init] bound, when the
    grown batch size [int(batch_size * (1.0 + now_len / max_len))] and the
    bound [passes] of the loop are computed without an exception and
    [i % repeat_times] is defined on the indices of the loop: it makes one
    gradient step of the one optimiser per pass and no other call on a
    network; the pass of index 0 sets [actor_obj], so with at least one pass
    the call returns [actor_obj] and the running [avg_loss_c]. *)
Theorem shared_ac_update_net_history :
  forall (C : Collaborators) (bs : Z) (rt : number) (tau : R) (w w0 : world) (d : Z)
         (bs_ passes : Z),
    bound (self w) = bound (self (AgentSharedAC.init d w0)) ->
    update_freq (hp (self w)) <> 0%Z ->
    let buf := update_now_len (buffer w) in
    AgentSharedAC.grown_batch_size (now_len buf) (max_len buf) bs = Ok bs_ ->
    update_bound (now_len buf) bs rt = Ok passes ->
    mod_defined passes rt ->
    let n := Z.to_nat passes in
    exists res w',
      AgentSharedAC.update_net bs rt tau w = (res, w') /\
      calls w' = repeat (OptimUpdate CriOptim) n ++ calls w /\
      ((1 <= n)%nat ->
       exists actor_obj, res = Ok (actor_obj, avg_loss_c (run (self w')))).
Proof.
  intros C bs rt tau w w0 d bs_ passes Hb Hf buf Hbs Hn Hmod.
  now apply shared_ac_update_net_run with w0 d bs_.
Qed.

(** The default [AgentSharedAC] on four samples of a buffer of eight, in
    batches of two that grow to three. *)
Lemma shared_ac_update_net_history_witness :
  exists res w',
    AgentSharedAC.update_net 2 (PyInt 1) 0.5 toy_shared_ac = (res, w') /\
    calls w' = repeat (OptimUpdate CriOptim) 2 ++ calls toy_shared_ac.
Proof.
  destruct (shared_ac_update_net_history toy 2%Z (PyInt 1) 0.5 toy_shared_ac
              (toy_world AgentSharedAC.__init__ 4) 1%Z 3%Z 2%Z eq_refl
              ltac:(discriminate) eq_refl eq_refl
              (mod_defined_int 1 2 ltac:(discriminate)))
    as (res & w' & E & Hc & _).
  exists res, w'. split; [exact E | exact Hc].
Defined.

(** X7. [AgentPPO.update_net] on an agent that [init] bound and whose
    [get_reward_sum] has been bound by hand to one of the two methods, on
    arrays of one length and with a critic that returns one row per state,
    when the bound of its loop, [int(buf_len / batch_size * repeat_times)] as
    the floats compute it, is [passes]: every pass steps the actor and then
    the critic, and never soft-updates, the target being the critic itself;
    with at least one pass the call returns. *)
Theorem ppo_update_net_history :
  forall (C : Collaborators) (buf : trajectory_arrays) (bs : Z) (rt : number) (tau : R)
         (w w0 : world) (d : Z) (rs : reward_sum) (passes : Z),
    bound (self w) = bound (self (bind_get_reward_sum rs (AgentPPO.init d w0))) ->
    update_bound (Z.of_nat (length (ary_state buf))) bs rt = Ok passes ->
    length (ary_reward buf) = length (ary_state buf) ->
    length (ary_mask buf) = length (ary_state buf) ->
    length (AgentPPO.eval_chunks (nets w ObjCri) (ary_state buf)
              (length (ary_state buf)) (2 ^ 10)) = length (ary_state buf) ->
    let k := Z.to_nat passes in
    exists res w',
      AgentPPO.update_net buf bs rt tau w = (res, w') /\
      calls w'
      = concat (repeat [OptimUpdate CriOptim; OptimUpdate ActOptim] k) ++ calls w /\
      ((1 <= k)%nat -> exists r, res = Ok r).
Proof.
  intros C buf bs rt tau w w0 d rs passes Hb Hn Hr Hm Hv.
  now apply ppo_update_net_run with w0 d rs.
Qed.

Lemma ppo_update_net_history_witness :
  exists res w',
    AgentPPO.update_net toy_arrays 1 (PyInt 1) 0.5 toy_ppo_gae = (res, w') /\
    calls w'
    = concat (repeat [OptimUpdate CriOptim; OptimUpdate ActOptim]
                (length (ary_state toy_arrays)))
      ++ calls toy_ppo_gae.
Proof.
  destruct (ppo_update_net_history toy toy_arrays 1%Z (PyInt 1) 0.5 toy_ppo_gae
              (toy_world AgentPPO.__init__ 0) 1%Z RewardSumGae
              (Z.of_nat (length (ary_state toy_arrays)))
              eq_refl eq_refl eq_refl eq_refl eq_refl)
    as (res & w' & E & Hc & _).
  exists res, w'. split; [exact E|].
  rewrite Nat2Z.id in Hc. exact Hc.
Defined.

(** X8. The [init] of [AgentPPO] leaves [get_reward_sum], and that of
    [AgentSharedSAC] leaves [get_obj_critic], as it finds it, which is
    [None] after [__init__]: on an [AgentPPO] as [__init__] and [init] leave
    it, [update_net] raises [TypeError] on every non-empty batch of
    trajectories ([torch.cat] raises on an empty one) and steps nothing; on
    an [AgentSharedSAC] as [__init__] and [init] leave it, it raises
    [TypeError] in its first pass whenever the bound of its loop, as the
    floats compute it, is at least 2. *)
Theorem update_net_with_unbound_method_raises :
  forall (C : Collaborators) (bs : Z) (rt : number) (tau : R) (w w0 : world) (d : Z),
    (forall buf,
       get_reward_sum (bound (self w0)) = None ->
       bound (self w) = bound (self (AgentPPO.init d w0)) ->
       AgentPPO.update_net buf bs rt tau w
       = (Raise (match ary_state buf with
                 | [] => cat_empty_error
                 | _ :: _ => TypeError
                 end), w)) /\
    (forall n,
       get_obj_critic (bound (self w0)) = None ->
       bound (self w) = bound (self (AgentSharedSAC.init d w0)) ->
       update_bound (now_len (update_now_len (buffer w))) bs rt = Ok n ->
       (2 <= n)%Z ->
       AgentSharedSAC.update_net bs rt tau w
       = (Raise TypeError, set_buffer (update_now_len (buffer w)) w)).
Proof.
  intros C bs rt tau w w0 d. split.
  - intros buf H0 Hb. now apply ppo_update_net_unbound with w0 d.
  - intros n H0 Hb Hn H2. now apply shared_sac_update_net_unbound with w0 d n.
Qed.

Lemma update_net_with_unbound_method_raises_witness :
  AgentPPO.update_net toy_arrays 1 (PyInt 1) 0.5
    (AgentPPO.init 1 (toy_world AgentPPO.__init__ 0))
  = (Raise TypeError, AgentPPO.init 1 (toy_world AgentPPO.__init__ 0)) /\
  AgentSharedSAC.update_net 1 (PyInt 1) 0.5
    (AgentSharedSAC.init 1 (toy_world AgentSharedSAC.__init__ 4))
  = (Raise TypeError,
     set_buffer (update_now_len
                   (buffer (AgentSharedSAC.init 1 (toy_world AgentSharedSAC.__init__ 4))))
       (AgentSharedSAC.init 1 (toy_world AgentSharedSAC.__init__ 4))).
Proof.
  split.
  - exact (proj1 (update_net_with_unbound_method_raises toy 1%Z (PyInt 1) 0.5
                    (AgentPPO.init 1 (toy_world AgentPPO.__init__ 0))
                    (toy_world AgentPPO.__init__ 0) 1%Z)
             toy_arrays eq_refl eq_refl).
  - apply (proj2 (update_net_with_unbound_method_raises toy 1%Z (PyInt 1) 0.5
                    (AgentSharedSAC.init 1 (toy_world AgentSharedSAC.__init__ 4))
                    (toy_world AgentSharedSAC.__init__ 4) 1%Z) 4%Z eq_refl eq_refl eq_refl).
    lia.
Defined.

(** X9. [AgentPPO.get_reward_sum_raw] on arrays of length [buf_len]
    returns two arrays of that length: the reward sums of the backward
    recursion [r_sum[i] = reward[i] + mask[i] * r_sum[i+1]] (with 0 beyond
    the end), which are the reward sums [get_reward_sum_gae] returns too,
    and the advantages [r_sum[i] - mask[i] * value[i, 0]]. *)
Theorem get_reward_sum_raw_recursion :
  forall (a : agent) (n : nat) (ary_reward ary_mask : tensor) (ary_value : matrix),
    length ary_reward = n -> length ary_mask = n -> length ary_value = n ->
    exists r_sum advantage,
      AgentPPO.get_reward_sum_raw n ary_reward ary_mask ary_value = Ok (r_sum, advantage) /\
      length r_sum = n /\ length advantage = n /\
      (forall i, (i < n)%nat ->
         nth i r_sum 0
         = nth i ary_reward 0
           + nth i ary_mask 0 * (if (S i <? n)%nat then nth (S i) r_sum 0 else 0)) /\
      (forall i, (i < n)%nat ->
         nth i advantage 0
         = nth i r_sum 0 - nth i ary_mask 0 * nth i (AgentPPO.column ary_value) 0) /\
      exists advantage',
        AgentPPO.get_reward_sum_gae a n ary_reward ary_mask ary_value
        = Ok (r_sum, advantage').
Proof.
  intros a n ary_reward ary_mask ary_value Hr Hm Hv.
  destruct (get_reward_sum_raw_run n ary_reward ary_mask ary_value Hr Hm Hv)
    as (r_sum & adv & E & Hl & Hla & Hrs & Hadv).
  destruct (get_reward_sum_gae_run a n ary_reward ary_mask ary_value Hr Hm Hv)
    as (r_sum' & adv' & E' & Hl' & Hrs').
  exists r_sum, adv. split; [exact E|]. split; [exact Hl|]. split; [exact Hla|].
  split; [exact Hrs|]. split; [exact Hadv|].
  exists adv'. rewrite E'.
  now rewrite (reward_sum_unique n ary_reward ary_mask r_sum r_sum' Hl Hl' Hrs Hrs').
Qed.

(** Two steps, the second of which ends an episode. *)
Lemma get_reward_sum_raw_recursion_witness :
  exists r_sum advantage,
    AgentPPO.get_reward_sum_raw 2 [1; 1] [1; 0] [[0]; [0]] = Ok (r_sum, advantage) /\
    length r_sum = 2%nat /\
    nth 0 advantage 0 = nth 0 r_sum 0 - 1 * 0.
Proof.
  destruct (get_reward_sum_raw_recursion AgentPPO.__init__ 2 [1; 1] [1; 0] [[0]; [0]]
              eq_refl eq_refl eq_refl)
    as (r_sum & advantage & E & Hl & _ & _ & Hadv & _).
  exists r_sum, advantage. split; [exact E|]. split; [exact Hl|].
  exact (Hadv 0%nat ltac:(lia)).
Defined.

(** X10. An array shorter than [buf_len] makes the reward sums raise
    [IndexError] at the first index they visit, the last one: the rewards
    or the masks for both functions, the values too for
    [get_reward_sum_gae], whose loop indexes them. *)
Theorem get_reward_sum_short_array_raises :
  forall (a : agent) (n : nat) (ary_reward ary_mask : tensor) (ary_value : matrix),
    (1 <= n)%nat ->
    ((length ary_reward < n)%nat \/ (length ary_mask < n)%nat ->
     AgentPPO.get_reward_sum_raw n ary_reward ary_mask ary_value = Raise IndexError /\
     AgentPPO.get_reward_sum_gae a n ary_reward ary_mask ary_value = Raise IndexError) /\
    ((length ary_value < n)%nat ->
     AgentPPO.get_reward_sum_gae a n ary_reward ary_mask ary_value = Raise IndexError).
Proof.
  intros a n ary_reward ary_mask ary_value Hn.
  destruct n as [|k]; [lia|].
  unfold AgentPPO.get_reward_sum_raw, AgentPPO.get_reward_sum_gae.
  rewrite range_down_S. cbn [rfold].
  unfold AgentPPO.raw_step at 1, AgentPPO.gae_step at 1.
  cbv beta iota.
  cbn [AgentPPO.ary_r_sum AgentPPO.ary_advantage AgentPPO.pre_r_sum
       AgentPPO.pre_advantage].
  split.
  - intros H.
    destruct (Nat.le_gt_cases (length ary_reward) k) as [H1|H1].
    + split.
      * rewrite (getitem_short ary_reward k H1). reflexivity.
      * rewrite (getitem_short ary_reward k H1). reflexivity.
    + split.
      * rewrite (getitem_nth ary_reward k 0 H1). cbn [rbind].
        rewrite (getitem_short ary_mask k) by lia. reflexivity.
      * rewrite (getitem_nth ary_reward k 0 H1). cbn [rbind].
        rewrite (getitem_short ary_mask k) by lia. reflexivity.
  - intros H. unfold AgentPPO.gae_step at 1. cbv beta iota.
    cbn [AgentPPO.ary_r_sum AgentPPO.ary_advantage AgentPPO.pre_r_sum
         AgentPPO.pre_advantage].
    destruct (Nat.le_gt_cases (length ary_reward) k) as [H1|H1];
      [now rewrite (getitem_short ary_reward k H1)|].
    rewrite (getitem_nth ary_reward k 0 H1). cbn [rbind].
    destruct (Nat.le_gt_cases (length ary_mask) k) as [H2|H2];
      [now rewrite (getitem_short ary_mask k H2)|].
    rewrite (getitem_nth ary_mask k 0 H2). cbn [rbind].
    destruct (setitem_ok (np_empty (S k)) k (nth k ary_reward 0 + nth k ary_mask 0 * 0))
      as (rs' & Es & Hls & _); [unfold np_empty; rewrite repeat_length; lia|].
    rewrite Es. cbn [rbind].
    rewrite (getitem_nth rs' k 0)
      by (rewrite Hls; unfold np_empty; rewrite repeat_length; lia).
    cbn [rbind].
    rewrite (getitem_short ary_value k) by lia. reflexivity.
Qed.

(** One reward for a buffer of two steps. *)
Lemma get_reward_sum_short_array_raises_witness :
  AgentPPO.get_reward_sum_raw 2 [1] [1; 0] [[0]; [0]] = Raise IndexError /\
  AgentPPO.get_reward_sum_gae AgentPPO.__init__ 2 [1] [1; 0] [[0]; [0]] = Raise IndexError.
Proof.
  apply (proj1 (get_reward_sum_short_array_raises AgentPPO.__init__ 2 [1] [1; 0]
                  [[0]; [0]] ltac:(lia))).
  left. cbn. lia.
Defined.

(** ** Soft update of a network onto itself *)

Section SoftUpdateAlias.
Context {C : Collaborators}.

Lemma blend_self tau (x : tensor) : blend tau x x = x.
Proof.
  unfold blend, tmap2. induction x as [|a x IH]; cbn; [reflexivity|].
  rewrite IH. f_equal. lra.
Qed.

Lemma soft_update_params_self (p : params) tau : soft_update_params p p tau = p.
Proof.
  induction p as [|x p IH]; cbn; [reflexivity|]. now rewrite blend_self, IH.
Qed.

Lemma soft_update_self_run t tau (w : world) m :
  exists w',
    soft_update (Some t) (Some t) tau w = (Ok tt, w') /\
    nets w' m = nets w m /\
    calls w' = SoftUpdate t t :: calls w /\
    self w' = self w /\ optims w' = optims w /\ rng w' = rng w /\ buffer w' = buffer w.
Proof.
  rewrite soft_update_run. eexists. split; [reflexivity|].
  split; [|repeat split].
  cbn. unfold upd_net. destruct (net_obj_eqb m t) eqn:E; [|reflexivity].
  apply net_obj_eqb_eq in E. subst m. apply soft_update_params_self.
Qed.

End SoftUpdateAlias.

(** X11. A soft update of a network onto itself changes no parameter,
    whatever [tau].  [AgentSAC.init] binds [act_target] to the actor itself
    ([if_use_act_target = False]), so the soft update of [act_target] that
    ends every pass of [AgentSAC.update_net] leaves every network as it
    was. *)
Theorem sac_actor_soft_update_changes_nothing :
  forall (C : Collaborators) (w w0 : world) (d : Z) (per : bool) (tau : R) (m : net_obj),
    bound (self w) = bound (self (AgentSAC.init d per w0)) ->
    act_target (bound (self w)) = act (bound (self w)) /\
    exists w',
      soft_update (act_target (bound (self w))) (act (bound (self w))) tau w = (Ok tt, w') /\
      nets w' m = nets w m /\
      calls w' = SoftUpdate ObjAct ObjAct :: calls w /\
      self w' = self w /\ optims w' = optims w /\ rng w' = rng w /\ buffer w' = buffer w.
Proof.
  intros C w w0 d per tau m Hb. rewrite Hb. split; [reflexivity|].
  cbn [AgentSAC.init AgentSAC.init_class].
  change (act_target (bound (self (AgentSAC.init d per w0)))) with (Some ObjAct).
  change (act (bound (self (AgentSAC.init d per w0)))) with (Some ObjAct).
  apply soft_update_self_run.
Qed.

(** The default [AgentSAC] as [init] leaves it under [if_use_per]. *)
Lemma sac_actor_soft_update_changes_nothing_witness :
  exists w',
    soft_update
      (act_target (bound (self (AgentSAC.init 1 true (toy_world AgentSAC.__init__ 4)))))
      (act (bound (self (AgentSAC.init 1 true (toy_world AgentSAC.__init__ 4)))))
      0.5 (AgentSAC.init 1 true (toy_world AgentSAC.__init__ 4)) = (Ok tt, w') /\
    nets w' ObjAct = nets (AgentSAC.init 1 true (toy_world AgentSAC.__init__ 4)) ObjAct.
Proof.
  destruct (proj2 (sac_actor_soft_update_changes_nothing toy
                     (AgentSAC.init 1 true (toy_world AgentSAC.__init__ 4))
                     (toy_world AgentSAC.__init__ 4) 1%Z true 0.5 ObjAct eq_refl))
    as (w' & E & Hn & _).
  exists w'. split; [exact E | exact Hn].
Defined.

(** ** Exploration *)

Lemma draws_length {G A} (draw : G -> A * G) n g : length (fst (draws draw n g)) = n.
Proof.
  revert g. induction n as [|n IH]; intros g; cbn; [reflexivity|].
  destruct (draw g) as [x g1]. specialize (IH g1).
  destruct (draws draw n g1) as [xs g2]. cbn in *. now rewrite IH.
Qed.

Lemma draws_at_length {G A B} (draw : B -> G -> A * G) bs g :
  length (fst (draws_at draw bs g)) = length bs.
Proof.
  revert g. induction bs as [|b bs IH]; intros g; cbn; [reflexivity|].
  destruct (draw b g) as [x g1]. specialize (IH g1).
  destruct (draws_at draw bs g1) as [xs g2]. cbn in *. now rewrite IH.
Qed.

Lemma draws_at_Forall2 {G A B} (draw : B -> G -> A * G) (P : B -> A -> Prop) bs g :
  (forall b g', P b (fst (draw b g'))) ->
  Forall2 P bs (fst (draws_at draw bs g)).
Proof.
  intros H. revert g. induction bs as [|b bs IH]; intros g; cbn; [constructor|].
  pose proof (H b g) as Hb. destruct (draw b g) as [x g1]. specialize (IH g1).
  destruct (draws_at draw bs g1) as [xs g2]. cbn in *. now constructor.
Qed.

Lemma draws_Forall {G A} (draw : G -> A * G) (P : A -> Prop) n g :
  (forall g', P (fst (draw g'))) -> Forall P (fst (draws draw n g)).
Proof.
  intros H. revert g. induction n as [|n IH]; intros g; cbn; [constructor|].
  pose proof (H g) as Hb. destruct (draw g) as [x g1]. specialize (IH g1).
  destruct (draws draw n g1) as [xs g2]. cbn in *. now constructor.
Qed.

Lemma Forall_map_clamp (a : list R) :
  Forall (fun x => -1 <= x <= 1) (map (clamp (-1) 1) a).
Proof.
  apply Forall_forall. intros x Hx. apply in_map_iff in Hx.
  destruct Hx as [y [<- _]]. apply clamp_bounds. lra.
Qed.

Section SelectAction.
Context {C : Collaborators} {E : Environment} {Gn : Generators}.

Lemma select_action_some act_params en g state' :
  exists a g',
    BaseExplore.select_action act_params (Some en) g state' = Ok (a, g') /\
    length a = length (hd [] (forward act_params [state'])) /\
    Forall (fun x => -1 <= x <= 1) a.
Proof.
  unfold BaseExplore.select_action.
  pose proof (draws_length randn1 (length (hd [] (forward act_params [state']))) g) as Hl.
  destruct (draws randn1 _ g) as [noise g'].
  eexists _, _. split; [reflexivity|]. split; [|apply Forall_map_clamp].
  cbn in Hl. unfold tadd, tscale.
  rewrite length_map, length_tmap2, length_map, Hl. apply Nat.min_id.
Qed.

(** X12. [AgentBase.select_action] raises [TypeError] exactly when
    [explore_noise] was never set; otherwise it returns an action with one
    entry per output of the actor, each within [[-1, 1]].
    [select_actions] does the same for every row of its batch. *)
Theorem select_action_within_unit_box :
  forall (act_params : params) (explore_noise : option R) (g : Rng)
         (state' : list R) (states' : matrix),
    match BaseExplore.select_action act_params explore_noise g state' with
    | Ok (a, _) =>
        explore_noise <> None /\
        length a = length (hd [] (forward act_params [state'])) /\
        Forall (fun x => -1 <= x <= 1) a
    | Raise e => explore_noise = None /\ e = TypeError
    end /\
    match BaseExplore.select_actions act_params explore_noise g states' with
    | Ok (m, _) =>
        explore_noise <> None /\
        Forall2 (fun row a => length a = length row /\ Forall (fun x => -1 <= x <= 1) a)
          (forward act_params states') m
    | Raise e => explore_noise = None /\ e = TypeError
    end.
Proof.
  intros act_params en g state' states'. split.
  - destruct en as [en|].
    + destruct (select_action_some act_params en g state') as (a & g' & -> & Hl & Hb).
      split; [discriminate|]. now split.
    + unfold BaseExplore.select_action. destruct (draws randn1 _ g). now split.
  - unfold BaseExplore.select_actions.
    pose proof (draws_at_Forall2 (fun (row : list R) => draws randn1 (length row))
                  (fun row (n : list R) => length n = length row)
                  (forward act_params states') g
                  (fun b g' => draws_length randn1 (length b) g')) as HF.
    destruct (draws_at _ (forward act_params states') g) as [noises g'].
    destruct en as [en|]; [|now split].
    split; [discriminate|]. cbn in HF.
    induction HF as [|row n rows ns Hn HF IH]; cbn [map combine fst snd]; constructor; auto.
    split; [|apply Forall_map_clamp].
    unfold tadd, tscale. rewrite length_map, length_tmap2, length_map, Hn.
    apply Nat.min_id.
Qed.

End SelectAction.

Section OUNoise.
Context {C : Collaborators} {Gn : Generators}.

Import OrnsteinUhlenbeckNoise.

Lemma ou_call_fits o g :
  ou_fits o ->
  exists v g',
    __call__ o g =
      Ok (v, {| theta := theta o; sigma := sigma o; ou_noise := Array v; dt := dt o;
                size := size o |}, g') /\
    length v = size o.
Proof.
  unfold ou_fits, __call__. intros H.
  pose proof (draws_length rd_normal1 (size o) g) as Hl.
  destruct (draws rd_normal1 (size o) g) as [z g']. cbn in Hl.
  destruct (ou_noise o) as [x|v].
  - eexists _, _. split; [reflexivity|]. now rewrite !length_map.
  - rewrite H, Nat.eqb_refl. eexists _, _. split; [reflexivity|].
    rewrite length_tmap2, length_map, Hl, H. apply Nat.min_id.
Qed.

Lemma np_add_same a b : length a = length b ->
  np_add a b = Ok (tadd a b).
Proof. intros H. unfold np_add. now rewrite H, Nat.eqb_refl. Qed.

(** X13. Once [init] has created the noise process with [size=action_dim],
    [AgentDDPG.select_action] returns on every call, whatever was drawn
    before: the action has [action_dim] entries within [[-1, 1]], and the
    process is left holding an array of [action_dim] entries, so that the
    next call finds it as this one did. *)
Theorem ddpg_select_action_keeps_shape :
  forall (act_params : params) (o : OrnsteinUhlenbeckNoise.t) (g : Rng) (state' : list R),
    length (hd [] (forward act_params [state'])) = size o ->
    ou_fits o ->
    exists a o' g',
      DDPGExplore.select_action act_params (Some o) g state' = Ok (a, o', g') /\
      length a = size o /\
      Forall (fun x => -1 <= x <= 1) a /\
      size o' = size o /\ ou_fits o' /\
      (exists v, ou_noise o' = Array v).
Proof.
  intros act_params o g state' Hlen Hfit.
  destruct (ou_call_fits o g Hfit) as (v & g' & Hcall & Hv).
  unfold DDPGExplore.select_action. rewrite Hcall.
  rewrite np_add_same by congruence.
  eexists _, _, _. split; [reflexivity|].
  split; [|split; [apply Forall_map_clamp|]].
  - unfold tadd. rewrite length_map, length_tmap2, Hlen, Hv. apply Nat.min_id.
  - cbn. unfold ou_fits. cbn. repeat split; eauto.
Qed.

(** X14. [AgentDDPG.select_action] before [init] raises [TypeError], and
    with a noise process whose [size] is neither the length of the action
    nor 1, while the action has more than one entry, it raises
    [ValueError]: the arrays do not broadcast. *)
Theorem ddpg_select_action_shape_errors :
  forall (act_params : params) (o : OrnsteinUhlenbeckNoise.t) (g : Rng) (state' : list R),
    DDPGExplore.select_action act_params None g state' = Raise TypeError /\
    (ou_fits o ->
     length (hd [] (forward act_params [state'])) <> size o ->
     size o <> 1%nat ->
     length (hd [] (forward act_params [state'])) <> 1%nat ->
     DDPGExplore.select_action act_params (Some o) g state' = Raise ValueError).
Proof.
  intros act_params o g state'. split; [reflexivity|].
  intros Hfit H1 H2 H3.
  destruct (ou_call_fits o g Hfit) as (v & g' & Hcall & Hv).
  unfold DDPGExplore.select_action. rewrite Hcall. unfold np_add.
  rewrite Hv.
  destruct (Nat.eqb_spec (length (hd [] (forward act_params [state']))) (size o)); [contradiction|].
  destruct (Nat.eqb_spec (size o) 1); [contradiction|].
  destruct (Nat.eqb_spec (length (hd [] (forward act_params [state']))) 1); [contradiction|].
  reflexivity.
Qed.

End OUNoise.

(** The process [init] creates fits. *)
Lemma ddpg_select_action_keeps_shape_witness :
  exists a o' g',
    @DDPGExplore.select_action toy toy_generators [] (Some (DDPGExplore.init_ou_noise 2))
      0%nat [0] = Ok (a, o', g') /\
    length a = 2%nat /\ Forall (fun x => -1 <= x <= 1) a /\
    OrnsteinUhlenbeckNoise.size o' = 2%nat /\ ou_fits o' /\
    (exists v, OrnsteinUhlenbeckNoise.ou_noise o' = OrnsteinUhlenbeckNoise.Array v).
Proof.
  apply (@ddpg_select_action_keeps_shape toy toy_generators [] (DDPGExplore.init_ou_noise 2)
           0%nat [0]); [reflexivity | exact I].
Defined.

Lemma ddpg_select_action_shape_errors_witness :
  @DDPGExplore.select_action toy toy_generators [] None 0%nat [0] = Raise TypeError /\
  @DDPGExplore.select_action toy toy_generators [] (Some (DDPGExplore.init_ou_noise 3))
    0%nat [0] = Raise ValueError.
Proof.
  destruct (@ddpg_select_action_shape_errors toy toy_generators []
              (DDPGExplore.init_ou_noise 3) 0%nat [0]) as [H1 H2].
  split; [exact H1|]. apply H2; [exact I | cbn; lia | cbn; lia | cbn; lia].
Defined.

Section SharedACSelect.
Context {C : Collaborators} {Gn : Generators}.

Lemma select_entry_cases a_temp u :
  0 <= u < 1 ->
  (-1 <= a_temp <= 1 /\ SharedACExplore.select_entry a_temp u = a_temp) \/
  ((a_temp < -1 \/ 1 < a_temp) /\ SharedACExplore.select_entry a_temp u = u).
Proof.
  intros Hu. unfold SharedACExplore.select_entry, SharedACExplore.mask_of.
  destruct (Rlt_dec a_temp (-1)); [right; split; [auto|lra]|].
  destruct (Rgt_dec a_temp 1); [right; split; [auto|lra]|].
  left. split; lra.
Qed.

(** X15. [AgentSharedAC.select_action] raises [RuntimeError] exactly when
    the standard deviation [explore_noise] is negative. Otherwise it returns
    one entry per output of the actor, each within [[-1, 1]]: an entry whose
    Gaussian draw lies within [[-1, 1]] is that draw, and one whose draw
    fell outside is replaced by a uniform draw, which lies within [[0, 1)],
    so that no replaced entry is negative. *)
Theorem shared_ac_select_action_within_unit_box :
  forall (act_params : params) (explore_noise' : R) (g : Rng) (state' : list R),
    let action' := hd [] (forward act_params [state']) in
    let a_temp := fst (draws_at (fun mean => normal1 mean explore_noise') action' g) in
    match SharedACExplore.select_action act_params explore_noise' g state' with
    | Ok (a, _) =>
        0 <= explore_noise' /\
        length a = length action' /\
        Forall (fun x => -1 <= x <= 1) a /\
        Forall2 (fun t x => (-1 <= t <= 1 /\ x = t) \/ ((t < -1 \/ 1 < t) /\ 0 <= x < 1))
          a_temp a
    | Raise e => explore_noise' < 0 /\ e = RuntimeError
    end.
Proof.
  intros act_params en g state' action' a_temp. subst a_temp.
  unfold SharedACExplore.select_action. fold action'.
  destruct (Rlt_dec en 0) as [Hneg|Hpos]; [now split|].
  pose proof (draws_at_length (fun mean => normal1 mean en) action' g) as Hl.
  destruct (draws_at _ action' g) as [a_temp g1]. cbn [fst] in *.
  pose proof (draws_length rand1 (length action') g1) as Hu.
  pose proof (draws_Forall rand1 (fun u => 0 <= u < 1) (length action') g1 rand1_range) as Hr.
  destruct (draws rand1 (length action') g1) as [us g2]. cbn [fst] in *.
  assert (HF : Forall2 (fun t x => (-1 <= t <= 1 /\ x = t) \/
                                   ((t < -1 \/ 1 < t) /\ 0 <= x < 1))
                 a_temp (tmap2 SharedACExplore.select_entry a_temp us)).
  { assert (Hlen : length a_temp = length us) by congruence.
    clear Hl Hu. revert us Hr Hlen.
    induction a_temp as [|t ts IH]; intros [|u us] Hr Hlen; cbn in *; try discriminate;
      [constructor|].
    inversion Hr as [|u' us' Hu0 Hus]; subst. constructor; [|apply IH; auto].
    destruct (select_entry_cases t u Hu0) as [[Ha Hb]|[Ha Hb]].
    - left. now rewrite Hb.
    - right. rewrite Hb. auto. }
  split; [lra|]. split; [|split; [|exact HF]].
  - rewrite length_tmap2, Hl, Hu. apply Nat.min_id.
  - clear -HF. induction HF as [|t x ts xs Htx HF IH]; constructor; auto.
    destruct Htx as [[H1 ->]|[_ H2]]; lra.
Qed.

End SharedACSelect.

(** ** The exploration loops *)

Lemma rbind_assoc {A B D} (r : result A) (k : A -> result B) (h : B -> result D) :
  rbind (rbind r k) h = rbind r (fun a => rbind (k a) h).
Proof. now destruct r. Qed.

Lemma rfold_app {S X} (xs ys : list X) (s : S) body :
  rfold (xs ++ ys) s body = rbind (rfold xs s body) (fun s' => rfold ys s' body).
Proof.
  revert s. induction xs as [|x xs IH]; intros s; cbn; [reflexivity|].
  destruct (body x s) as [s'|e]; cbn; auto.
Qed.

Lemma rfold_const {S X Y} (xs : list X) (ys : list Y) (s : S) (f : S -> result S) :
  length xs = length ys ->
  rfold xs s (fun _ => f) = rfold ys s (fun _ => f).
Proof.
  revert ys s. induction xs as [|x xs IH]; intros [|y ys] s H; cbn in *;
    try discriminate; [reflexivity|].
  destruct (f s); cbn; auto.
Qed.

Lemma rfold_seq_inv {S} (body : nat -> S -> result S) (Inv : nat -> S -> Prop) n :
  (forall i s s', (i < n)%nat -> Inv i s -> body i s = Ok s' -> Inv (Datatypes.S i) s') ->
  forall s0 s', Inv 0%nat s0 -> rfold (seq 0 n) s0 body = Ok s' -> Inv n s'.
Proof.
  intros Hstep.
  assert (H : forall k a s0 s', (a + k = n)%nat -> Inv a s0 ->
                rfold (seq a k) s0 body = Ok s' -> Inv n s').
  { induction k as [|k IH]; intros a s0 s' Hak Ha Hr; cbn in Hr.
    - inversion Hr; subst s'. now replace n with a by lia.
    - destruct (body a s0) as [s1|e] eqn:E; cbn in Hr; [|discriminate].
      apply (IH (Datatypes.S a) s1 s'); [lia| |exact Hr].
      apply (Hstep a s0 s1); [lia|assumption|assumption]. }
  intros s0 s' H0 Hr. apply (H n 0%nat s0 s'); auto.
Qed.

Lemma rfold_raise {S X} (xs : list X) (s : S) body e :
  rfold xs s body = Raise e -> exists x s', In x xs /\ body x s' = Raise e.
Proof.
  revert s. induction xs as [|x xs IH]; intros s H; cbn in H; [discriminate|].
  destruct (body x s) as [s1|e1] eqn:E; cbn in H.
  - destruct (IH _ H) as (y & s' & Hin & Hb). exists y, s'. split; [now right|exact Hb].
  - inversion H; subst. exists x, s. split; [now left|exact E].
Qed.

Section ExploreLoopFacts.
Context {G A Ev : Type}.
Variable select : G -> list R -> result (A * G).
Variable step : Ev -> A -> (list R * R * bool) * Ev.
Variable reset : Ev -> list R * Ev.

Lemma explore_pass_prefix t l :
  explore_pass select step reset (with_trajectory t l) =
  rbind (explore_pass select step reset (with_trajectory [] l))
    (fun l' => Ok (with_trajectory (t ++ trajectory l') l')).
Proof.
  unfold explore_pass. cbn.
  destruct (select (x_rng l) (x_state l)) as [[a g']|e]; [|reflexivity].
  destruct (step (x_env l) a) as [[[ns r] d] env'].
  destruct d; [destruct (reset env') as [s0 env'']|]; reflexivity.
Qed.

Lemma explore_pass_grows l l' :
  explore_pass select step reset l = Ok l' ->
  exists r, trajectory l' = trajectory l ++ [r] /\ s_state r = x_state l.
Proof.
  unfold explore_pass.
  destruct (select (x_rng l) (x_state l)) as [[a g']|e]; [|discriminate].
  destruct (step (x_env l) a) as [[[ns r] d] env'].
  destruct d; [destruct (reset env') as [s0 env'']|];
    intros H; inversion H; subst; cbn; eexists; split; reflexivity.
Qed.

Lemma explore_loop_prefix n l :
  explore_loop select step reset n l =
  rbind (explore_loop select step reset n (with_trajectory [] l))
    (fun l' => Ok (with_trajectory (trajectory l ++ trajectory l') l')).
Proof.
  unfold explore_loop. generalize (seq 0 n) as xs.
  intros xs. revert l. induction xs as [|x xs IH]; intros l; cbn [rfold].
  - cbn. rewrite app_nil_r. now destruct l.
  - replace (explore_pass select step reset l)
      with (explore_pass select step reset (with_trajectory (trajectory l) l))
      by now destruct l.
    rewrite explore_pass_prefix, rbind_assoc.
    destruct (explore_pass select step reset (with_trajectory [] l)) as [l1|e];
      cbn [rbind]; [|reflexivity].
    rewrite (IH (with_trajectory (trajectory l ++ trajectory l1) l1)).
    change (with_trajectory [] (with_trajectory (trajectory l ++ trajectory l1) l1))
      with (with_trajectory [] l1).
    rewrite (IH l1), rbind_assoc.
    destruct (rfold xs (with_trajectory [] l1) _) as [l2|e]; cbn [rbind]; [|reflexivity].
    unfold with_trajectory. cbn. now rewrite app_assoc.
Qed.

Lemma explore_loop_add a b l :
  explore_loop select step reset (a + b) l =
  rbind (explore_loop select step reset a l) (explore_loop select step reset b).
Proof.
  unfold explore_loop. rewrite seq_app, rfold_app.
  destruct (rfold (seq 0 a) l _) as [l1|e]; cbn; [|reflexivity].
  apply rfold_const. now rewrite !length_seq.
Qed.

Lemma explore_loop_length n l l' :
  explore_loop select step reset n l = Ok l' ->
  length (trajectory l') = (length (trajectory l) + n)%nat.
Proof.
  unfold explore_loop. intros H.
  apply (rfold_seq_inv (fun _ l => explore_pass select step reset l)
           (fun i l1 => length (trajectory l1) = (length (trajectory l) + i)%nat) n)
    with (s0 := l); [|lia|exact H].
  intros i s s' _ Hs Hp. destruct (explore_pass_grows _ _ Hp) as (r & -> & _).
  rewrite length_app. cbn. lia.
Qed.

End ExploreLoopFacts.

Lemma setitem_head {A} (x y : A) (l : list A) : setitem (x :: l) 0 y = Ok (y :: l).
Proof. reflexivity. Qed.

Section ExploreOneEnv.
Context {C : Collaborators} {E : Environment} {Gn : Generators}.

(** X16. [AgentBase.explore_one_env] composes: exploring [a + b] steps is
    exploring [a] steps and then [b] steps from the [self.states], the
    environment and the generator the first call left, with the two
    trajectories joined; an exception of the first call, or else of the
    second, is the exception of the whole. *)
Theorem explore_one_env_composes :
  forall (select : Rng -> list R -> result (list R * Rng)) (states' : list (list R))
         (env : Env) (g : Rng) (a b : nat),
    BaseExplore.explore_one_env select states' env g (a + b) =
    rbind (BaseExplore.explore_one_env select states' env g a)
      (fun r1 =>
         let '(t1, states1, env1, g1) := r1 in
         rbind (BaseExplore.explore_one_env select states1 env1 g1 b)
           (fun r2 =>
              let '(t2, states2, env2, g2) := r2 in
              Ok ([concat t1 ++ concat t2], states2, env2, g2))).
Proof.
  intros select states' env g a b. unfold BaseExplore.explore_one_env.
  destruct states' as [|s0 rest]; [reflexivity|].
  cbn [getitem nth_error rbind].
  rewrite explore_loop_add.
  destruct (explore_loop select env_step env_reset a _) as [l1|e]; cbn [rbind];
    [|reflexivity].
  rewrite setitem_head. cbn [rbind getitem nth_error].
  rewrite (explore_loop_prefix select env_step env_reset b l1).
  change (with_trajectory [] l1)
    with {| trajectory := @nil (step_record (list R)); x_state := x_state l1;
            x_env := x_env l1; x_rng := x_rng l1 |}.
  destruct (explore_loop select env_step env_reset b _) as [l2|e]; cbn [rbind];
    [|reflexivity].
  rewrite !setitem_head. cbn. now rewrite !app_nil_r.
Qed.

(** X17. With [explore_noise] set and [self.states] holding a state,
    [AgentBase.explore_one_env] returns: one trajectory of exactly
    [target_step] records whose actions all lie within [[-1, 1]], and a
    [self.states] of the length it had. With an empty [self.states] it
    raises [IndexError], even for no step at all. *)
Theorem explore_one_env_returns_target_step_records :
  forall (act_params : params) (explore_noise : R) (states' : list (list R))
         (env : Env) (g : Rng) (target_step : nat),
    (states' <> [] ->
     exists trajectory' states'' env' g',
       BaseExplore.explore_one_env
         (BaseExplore.select_action act_params (Some explore_noise))
         states' env g target_step = Ok ([trajectory'], states'', env', g') /\
       length trajectory' = target_step /\
       length states'' = length states' /\
       Forall (fun r => Forall (fun x => -1 <= x <= 1) (s_action r)) trajectory') /\
    BaseExplore.explore_one_env
      (BaseExplore.select_action act_params (Some explore_noise))
      [] env g target_step = Raise IndexError.
Proof.
  intros act_params en states' env g n. split; [|reflexivity].
  intros Hne. destruct states' as [|s0 rest]; [contradiction|].
  unfold BaseExplore.explore_one_env. cbn [getitem nth_error rbind].
  set (sel := BaseExplore.select_action act_params (Some en)).
  set (Inv := fun (i : nat) (l : @explore_state Rng (list R) Env) =>
                length (trajectory l) = i /\
                Forall (fun r => Forall (fun x => -1 <= x <= 1) (s_action r))
                  (trajectory l)).
  assert (Hloop : forall k a (l : @explore_state Rng (list R) Env),
            Inv a l ->
            exists l', rfold (seq a k) l (fun _ l => explore_pass sel env_step env_reset l)
                       = Ok l' /\ Inv (a + k)%nat l').
  { induction k as [|k IH]; intros a l Hl; cbn [seq rfold].
    - exists l. split; [reflexivity|]. now rewrite Nat.add_0_r.
    - assert (Hp : exists l1, explore_pass sel env_step env_reset l = Ok l1 /\
                              Inv (S a) l1).
      { unfold explore_pass.
        destruct (select_action_some act_params en (x_rng l) (x_state l))
          as (act & g1 & Hs & _ & Hbox).
        fold sel in Hs. rewrite Hs. destruct Hl as [Hlen Hall].
        destruct (env_step (x_env l) act) as [[[ns r] d] env1].
        destruct d; [destruct (env_reset env1) as [s1 env2]|];
          (eexists; split; [reflexivity|]; split; cbn;
           [rewrite length_app; cbn; lia
           |apply Forall_app; split; [exact Hall|constructor; [exact Hbox|constructor]]]). }
      destruct Hp as (l1 & Hp & Hl1). rewrite Hp. cbn [rbind].
      destruct (IH (S a) l1 Hl1) as (l' & Hr & Hl').
      exists l'. split; [exact Hr|]. now replace (a + S k)%nat with (S a + k)%nat by lia. }
  destruct (Hloop n 0%nat {| trajectory := []; x_state := s0; x_env := env; x_rng := g |})
    as (l' & Hr & Hlen & Hall).
  { split; [reflexivity|constructor]. }
  unfold explore_loop. rewrite Hr. cbn [rbind]. rewrite setitem_head. cbn [rbind].
  eexists _, _, _, _. split; [reflexivity|]. split; [exact Hlen|]. split; [reflexivity|].
  exact Hall.
Qed.

End ExploreOneEnv.

Lemma explore_one_env_returns_target_step_records_witness :
  exists trajectory' states'' env' g',
    @BaseExplore.explore_one_env toy toy_env
      (@BaseExplore.select_action toy toy_generators [] (Some 0.1))
      [[0]] [false; true] 0%nat 3 = Ok ([trajectory'], states'', env', g') /\
    length trajectory' = 3%nat /\
    length states'' = 1%nat /\
    Forall (fun r => Forall (fun x => -1 <= x <= 1) (s_action r)) trajectory'.
Proof.
  apply (proj1 (@explore_one_env_returns_target_step_records toy toy_env toy_generators
                  [] 0.1 [[0]] [false; true] 0%nat 3)).
  discriminate.
Defined.

Section ExploreDQN.
Context {G : Type} {D : DiscreteEnvironment}.

(** X18. [AgentDQN.explore_env] composes as [explore_one_env] does, and
    returns the trajectory itself: exploring [a + b] steps is exploring [a]
    and then [b], the second trajectory appended to the first. What it
    returns has exactly [target_step] records, the first of them holding
    [self.states[0]] as it was. *)
Theorem dqn_explore_env_composes :
  forall (select : G -> list R -> result (Z * G)) (states' : list (list R))
         (env : DEnv) (g : G) (a b : nat),
    DQNExplore.explore_env select states' env g (a + b) =
    rbind (DQNExplore.explore_env select states' env g a)
      (fun r1 =>
         let '(t1, states1, env1, g1) := r1 in
         rbind (DQNExplore.explore_env select states1 env1 g1 b)
           (fun r2 =>
              let '(t2, states2, env2, g2) := r2 in
              Ok (t1 ++ t2, states2, env2, g2))) /\
    match DQNExplore.explore_env select states' env g a with
    | Ok (t1, states1, _, _) =>
        length t1 = a /\ length states1 = length states' /\
        (forall r, hd_error t1 = Some r -> hd_error states' = Some (s_state r))
    | Raise _ => True
    end.
Proof.
  intros select states' env g a b. unfold DQNExplore.explore_env. split.
  - destruct states' as [|s0 rest]; [reflexivity|].
    cbn [getitem nth_error rbind].
    rewrite explore_loop_add.
    destruct (explore_loop select denv_step denv_reset a _) as [l1|e]; cbn [rbind];
      [|reflexivity].
    rewrite setitem_head. cbn [rbind getitem nth_error].
    rewrite (explore_loop_prefix select denv_step denv_reset b l1).
    change (with_trajectory [] l1)
      with {| trajectory := @nil (step_record Z); x_state := x_state l1;
              x_env := x_env l1; x_rng := x_rng l1 |}.
    destruct (explore_loop select denv_step denv_reset b _) as [l2|e]; cbn [rbind];
      [|reflexivity].
    rewrite !setitem_head. reflexivity.
  - destruct states' as [|s0 rest]; [exact I|].
    cbn [getitem nth_error rbind].
    destruct (explore_loop select denv_step denv_reset a _) as [l1|e] eqn:El;
      cbn [rbind]; [|exact I].
    rewrite setitem_head. cbn [rbind].
    split; [|split; [reflexivity|]].
    + apply explore_loop_length in El. cbn in El. exact El.
    + intros r Hr. cbn. f_equal.
      destruct a as [|a]; [cbn in El; inversion El; subst; discriminate|].
      change (S a) with (1 + a)%nat in El. rewrite explore_loop_add in El.
      destruct (explore_loop select denv_step denv_reset 1 _) as [l0|e0] eqn:E1;
        cbn [rbind] in El; [|discriminate].
      unfold explore_loop in E1. cbn [seq rfold] in E1.
      destruct (explore_pass select denv_step denv_reset _) as [lp|ep] eqn:Ep;
        cbn [rbind] in E1; [|discriminate].
      inversion E1; subst lp. clear E1.
      apply explore_pass_grows in Ep. destruct Ep as (r0 & Ht & Hs). cbn in Ht, Hs.
      rewrite explore_loop_prefix in El.
      destruct (explore_loop select denv_step denv_reset a (with_trajectory [] l0))
        as [l2|e2]; cbn [rbind] in El; [|discriminate].
      inversion El; subst l1. cbn in Hr. rewrite Ht in Hr. cbn in Hr.
      inversion Hr; subst. reflexivity.
Qed.

End ExploreDQN.

Section ExploreVecEnv.
Context {C : Collaborators} {E : Environment} {Gn : Generators}.

Lemma getitem_raises {A} (l : list A) i e : getitem l i = Raise e -> e = IndexError.
Proof. unfold getitem. destruct (nth_error l i); [discriminate|]. now intros [= <-]. Qed.

Lemma setitem_raises {A} (l : list A) i x e : setitem l i x = Raise e -> e = IndexError.
Proof. unfold setitem. destruct (i <? length l)%nat; [discriminate|]. now intros [= <-]. Qed.

Lemma setitem_inv {A} (l l' : list A) i x :
  setitem l i x = Ok l' ->
  (i < length l)%nat /\ length l' = length l /\ nth_error l' i = Some x /\
  (forall j, j <> i -> nth_error l' j = nth_error l j).
Proof.
  intros H. assert (Hi : (i < length l)%nat).
  { unfold setitem in H. destruct (Nat.ltb_spec i (length l)); [assumption|discriminate]. }
  destruct (setitem_ok l i x Hi) as (l1 & H1 & H2). rewrite H in H1.
  inversion H1; subst. now split.
Qed.

Lemma vec_record_raises states' actions srd i l e :
  BaseExplore.vec_record states' actions srd i l = Raise e -> e = IndexError.
Proof.
  unfold BaseExplore.vec_record. destruct l as [tl ns].
  destruct (getitem srd i) as [[[s r] d]|e1] eqn:E1; cbn [rbind];
    [|intros [= <-]; eapply getitem_raises; eauto].
  destruct (getitem tl i) as [tr|e2] eqn:E2; cbn [rbind];
    [|intros [= <-]; eapply getitem_raises; eauto].
  destruct (getitem states' i) as [st|e3] eqn:E3; cbn [rbind];
    [|intros [= <-]; eapply getitem_raises; eauto].
  destruct (getitem actions i) as [a|e4] eqn:E4; cbn [rbind];
    [|intros [= <-]; eapply getitem_raises; eauto].
  destruct (setitem tl i _) as [tl'|e5] eqn:E5; cbn [rbind];
    [discriminate|intros [= <-]; eapply setitem_raises; eauto].
Qed.

Lemma vec_record_step tl0 states' actions srd i l l' :
  vec_recorded tl0 i l ->
  BaseExplore.vec_record states' actions srd i l = Ok l' ->
  vec_recorded tl0 (S i) l'.
Proof.
  unfold BaseExplore.vec_record. destruct l as [tl ns]. intros (H1 & H2 & H3).
  cbn [fst snd] in *.
  destruct (getitem srd i) as [[[s r] d]|e1]; cbn [rbind]; [|discriminate].
  destruct (getitem tl i) as [tr|e2] eqn:E2; cbn [rbind]; [|discriminate].
  destruct (getitem states' i) as [st|e3]; cbn [rbind]; [|discriminate].
  destruct (getitem actions i) as [a|e4]; cbn [rbind]; [|discriminate].
  destruct (setitem tl i _) as [tl'|e5] eqn:E5; cbn [rbind]; [|discriminate].
  intros [= <-]. apply setitem_inv in E5. destruct E5 as (Hi & Hlen & Hnew & Hold).
  unfold vec_recorded. cbn [fst snd].
  split; [congruence|]. split; [rewrite length_app; cbn; lia|].
  intros j t Hj. destruct (H3 j t Hj) as (t' & Ht' & Hl').
  destruct (Nat.eq_dec j i) as [->|Hne].
  - eexists. split; [exact Hnew|].
    unfold getitem in E2. rewrite Ht' in E2. inversion E2; subst tr.
    rewrite Nat.ltb_irrefl in Hl'.
    assert (Hlt : (i <? S i)%nat = true) by (apply Nat.ltb_lt; lia).
    rewrite Hlt, length_app. cbn [length]. lia.
  - exists t'. split; [rewrite (Hold j Hne); exact Ht'|].
    rewrite Hl'.
    destruct (Nat.ltb_spec j i); destruct (Nat.ltb_spec j (S i)); lia.
Qed.

Lemma vec_pass_step selects env_num i l l' :
  vec_explored env_num i l ->
  BaseExplore.vec_pass selects env_num l = Ok l' ->
  vec_explored env_num (S i) l'.
Proof.
  intros (H1 & H2 & _). unfold BaseExplore.vec_pass.
  destruct (selects _ _) as [[actions g']|e]; [|discriminate].
  destruct (vec_step _ actions) as [srd env'].
  destruct (rfold (seq 0 env_num) _ _) as [r|e] eqn:Er; cbn [rbind]; [|discriminate].
  intros [= <-].
  apply (rfold_seq_inv _ (vec_recorded (BaseExplore.v_trajectories l)) env_num) in Er.
  - destruct Er as (Ha & Hb & Hc). unfold vec_explored.
    cbn [BaseExplore.v_trajectories BaseExplore.v_states].
    destruct r as [tl' ns']. cbn [fst snd] in *.
    split; [exact (eq_trans Ha H1)|]. split; [|intros _; exact Hb].
    apply Forall_forall. intros t' Hin.
    apply In_nth_error in Hin. destruct Hin as [j Hj].
    assert (Hjl : (j < length (BaseExplore.v_trajectories l))%nat).
    { rewrite <- Ha. apply nth_error_Some. congruence. }
    destruct (nth_error (BaseExplore.v_trajectories l) j) as [t|] eqn:Et;
      [|apply nth_error_None in Et; lia].
    destruct (Hc j t Et) as (t1 & Ht1 & Hl1). rewrite Hj in Ht1. inversion Ht1; subst t1.
    rewrite Hl1. destruct (Nat.ltb_spec j env_num); [|lia].
    f_equal. rewrite Forall_forall in H2. apply H2. eapply nth_error_In; eauto.
  - intros k s s' _ Hs Hb. eapply vec_record_step; eauto.
  - split; [reflexivity|]. split; [reflexivity|].
    intros j t Hj. exists t. split; [exact Hj|]. destruct (Nat.ltb_spec j 0); [lia|reflexivity].
Qed.

Lemma vec_pass_raises selects env_num l e :
  BaseExplore.vec_pass selects env_num l = Raise e ->
  e = IndexError \/ exists g states', selects g states' = Raise e.
Proof.
  unfold BaseExplore.vec_pass.
  destruct (selects _ _) as [[actions g']|e1] eqn:Es.
  - destruct (vec_step _ actions) as [srd env'].
    destruct (rfold (seq 0 env_num) _ _) as [r|e2] eqn:Er; cbn [rbind]; [discriminate|].
    intros [= <-]. left.
    apply rfold_raise in Er. destruct Er as (x & s' & _ & Hb).
    eapply vec_record_raises; eauto.
  - intros [= <-]. right. eauto.
Qed.

(** X19. [AgentBase.explore_vec_env] returns one trajectory per
    environment, each of exactly [target_step] records, and after at least
    one step a [self.states] with one state per environment. If it raises,
    the exception is [IndexError] (a state, an action or a result of
    [env.step] is missing for some environment) or comes from
    [select_actions]. *)
Theorem explore_vec_env_shape :
  forall (selects : Rng -> matrix -> result (matrix * Rng)) (env_num : nat)
         (states' : matrix) (env : Env) (g : Rng) (target_step : nat),
    match BaseExplore.explore_vec_env selects env_num states' env g target_step with
    | Ok (trajectory_list', states'', _, _) =>
        length trajectory_list' = env_num /\
        Forall (fun t => length t = target_step) trajectory_list' /\
        (0 < target_step -> length states'' = env_num)%nat /\
        (target_step = 0%nat -> states'' = states')
    | Raise e => e = IndexError \/ exists g' s, selects g' s = Raise e
    end.
Proof.
  intros selects env_num states' env g n. unfold BaseExplore.explore_vec_env.
  destruct (rfold (seq 0 n) _ _) as [l|e] eqn:Er; cbn [rbind].
  - assert (Hinv : vec_explored env_num n l).
    { apply (rfold_seq_inv _ (vec_explored env_num) n) in Er; [exact Er| |].
      - intros i s s' _ Hs Hp. eapply vec_pass_step; eauto.
      - split; [apply repeat_length|]. split; [|lia].
        cbn. apply Forall_forall. intros t Ht. apply repeat_spec in Ht. now subst. }
    destruct Hinv as (Ha & Hb & Hc).
    split; [exact Ha|]. split; [exact Hb|]. split; [exact Hc|].
    intros ->. cbn in Er. now inversion Er.
  - apply rfold_raise in Er. destruct Er as (x & s' & _ & Hb).
    eapply vec_pass_raises; eauto.
Qed.

End ExploreVecEnv.

Section SharedPPOHistory.
Context {C : Collaborators}.



End SharedPPOHistory.



(** ** Methods hidden by an instance attribute *)

Section Shadowed.
Context {C : Collaborators}.

Ltac first_pass_raises :=
  rewrite range_cons by lia; cbn [for_]; rewrite !bind_run.

Lemma dqn_update_net_shadowed bs rt tau (w : world) w0 d n :
  get_obj_critic_per (bound (self w0)) = None ->
  bound (self w) = bound (self (AgentDQN.init d true w0)) ->
  update_bound (now_len (update_now_len (buffer w))) bs rt = Ok n -> (1 <= n)%Z ->
  AgentDQN.update_net bs rt tau w
  = (Raise TypeError, set_buffer (update_now_len (buffer w)) w).
Proof.
  intros H0 Hb Hn H1.
  assert (Hg : get_obj_critic (bound (self w)) = None).
  { rewrite Hb. unfold AgentDQN.init. cbn. exact H0. }
  unfold AgentDQN.update_net.
  rewrite bind_run. unfold buffer_update_now_len, modify at 1. cbv beta iota.
  rewrite bind_run, (update_steps_run _ _ _ (Ok n)) by assumption. cbv beta iota.
  first_pass_raises.
  unfold AgentDQN.update_step at 1. rewrite bind_run.
  unfold AgentDQN.call_get_obj_critic. run_get.
  cbn [self set_buffer]. rewrite Hg. reflexivity.
Qed.

Lemma ddpg_update_net_shadowed bs rt tau (w : world) w0 d n :
  get_obj_critic_per (bound (self w0)) = None ->
  bound (self w) = bound (self (AgentDDPG.init d true w0)) ->
  update_bound (now_len (update_now_len (buffer w))) bs rt = Ok n -> (1 <= n)%Z ->
  AgentDDPG.update_net bs rt tau w
  = (Raise TypeError, set_buffer (update_now_len (buffer w)) w).
Proof.
  intros H0 Hb Hn H1.
  assert (Hg : get_obj_critic (bound (self w)) = None).
  { rewrite Hb. unfold AgentDDPG.init. cbn. exact H0. }
  unfold AgentDDPG.update_net.
  rewrite bind_run. unfold buffer_update_now_len, modify at 1. cbv beta iota.
  rewrite bind_run, (update_steps_run _ _ _ (Ok n)) by assumption. cbv beta iota.
  first_pass_raises.
  unfold AgentDDPG.update_step at 1. rewrite bind_run.
  unfold AgentDDPG.call_get_obj_critic. run_get.
  cbn [self set_buffer]. rewrite Hg. reflexivity.
Qed.

Lemma td3_update_net_shadowed bs rt tau (w : world) w0 d n :
  get_obj_critic_per (bound (self w0)) = None ->
  bound (self w) = bound (self (AgentTD3.init d true w0)) ->
  update_bound (now_len (update_now_len (buffer w))) bs rt = Ok n -> (1 <= n)%Z ->
  AgentTD3.update_net bs rt tau w
  = (Raise TypeError, set_buffer (update_now_len (buffer w)) w).
Proof.
  intros H0 Hb Hn H1.
  assert (Hg : get_obj_critic (bound (self w)) = None).
  { rewrite Hb. unfold AgentTD3.init. cbn. exact H0. }
  unfold AgentTD3.update_net.
  rewrite bind_run. unfold buffer_update_now_len, modify at 1. cbv beta iota.
  rewrite bind_run, (update_steps_run _ _ _ (Ok n)) by assumption. cbv beta iota.
  first_pass_raises.
  unfold AgentTD3.update_step at 1. rewrite bind_run.
  unfold AgentTD3.call_get_obj_critic. run_get.
  cbn [self set_buffer]. rewrite Hg. reflexivity.
Qed.

Lemma sac_init_shadowed uat d (w0 : world) :
  get_obj_critic_per (bound (self w0)) = None ->
  get_obj_critic (bound (self (AgentSAC.init_class uat d true w0))) = None.
Proof. intros H0. unfold AgentSAC.init_class. cbn. exact H0. Qed.

Lemma sac_update_net_shadowed bs rt tau (w : world) w0 d n :
  get_obj_critic_per (bound (self w0)) = None ->
  bound (self w) = bound (self (AgentSAC.init d true w0)) ->
  AgentSAC.update_bound_sac (now_len (update_now_len (buffer w))) bs rt = Ok n ->
  (1 <= n)%Z ->
  AgentSAC.update_net bs rt tau w
  = (Raise TypeError, set_buffer (update_now_len (buffer w)) w).
Proof.
  intros H0 Hb Hn H1.
  assert (Hg : get_obj_critic (bound (self w)) = None).
  { rewrite Hb. now apply sac_init_shadowed. }
  unfold AgentSAC.update_net.
  rewrite bind_run. unfold buffer_update_now_len, modify at 1. cbv beta iota.
  rewrite bind_run, (update_steps_sac_run _ _ _ (Ok n)) by assumption. cbv beta iota.
  first_pass_raises.
  unfold AgentSAC.update_step at 1. run_get. rewrite bind_run.
  unfold AgentSAC.call_get_obj_critic. run_get.
  cbn [self set_buffer]. rewrite Hg. reflexivity.
Qed.

Lemma modsac_update_net_shadowed bs rt tau (w : world) w0 d n :
  get_obj_critic_per (bound (self w0)) = None ->
  bound (self w) = bound (self (AgentModSAC.init d true w0)) ->
  AgentSAC.update_bound_sac (now_len (update_now_len (buffer w))) bs rt = Ok n ->
  (2 <= n)%Z ->
  AgentModSAC.update_net bs rt tau w
  = (Raise TypeError, set_buffer (update_now_len (buffer w)) w).
Proof.
  intros H0 Hb Hn H1.
  assert (Hg : get_obj_critic (bound (self w)) = None).
  { rewrite Hb. now apply sac_init_shadowed. }
  unfold AgentModSAC.update_net.
  rewrite bind_run. unfold buffer_update_now_len, modify at 1. cbv beta iota.
  rewrite bind_run, (update_steps_sac_run _ _ _ (Ok n)) by assumption. cbv beta iota.
  first_pass_raises.
  unfold AgentModSAC.update_step at 1. run_get. rewrite bind_run.
  unfold AgentSAC.call_get_obj_critic. run_get.
  cbn [self set_buffer]. rewrite Hg. reflexivity.
Qed.

Lemma shared_ppo_update_net_shadowed bs rt (w : world) w0 per :
  get_reward_sum_raw (bound (self w0)) = None ->
  get_reward_sum_gae (bound (self w0)) = None ->
  bound (self w) = bound (self (AgentSharedPPO.init per w0)) ->
  ary_state (sample_all (update_now_len (buffer w))) <> [] ->
  AgentSharedPPO.update_net bs rt w
  = (Raise TypeError, set_buffer (update_now_len (buffer w)) w).
Proof.
  intros Hr Hg Hb Hne.
  assert (Hnone : get_reward_sum (bound (self w)) = None).
  { rewrite Hb. unfold AgentSharedPPO.init. cbn. rewrite Hr, Hg. now destruct per. }
  assert (Hc : cri (bound (self w)) = Some ObjCri) by (now rewrite Hb).
  assert (Ha : act (bound (self w)) = Some ObjCri) by (now rewrite Hb).
  unfold AgentSharedPPO.update_net.
  rewrite bind_run. unfold buffer_update_now_len, modify at 1. cbv beta iota.
  run_get. cbn [buffer set_buffer nets].
  assert (Hlen : (0 < length (ary_state (sample_all (update_now_len (buffer w)))))%nat).
  { destruct (ary_state (sample_all (update_now_len (buffer w))));
      [contradiction | cbn [length]; lia]. }
  rewrite bind_run, (cat_chunks_run _ _ _ _ _ ObjCri)
    by first [apply chunk_size_pos | exact Hlen | exact Hc].
  cbv beta iota. cbn [nets set_buffer].
  rewrite bind_run, (attr_run act AttributeError _ ObjCri) by exact Ha.
  cbv beta iota. rewrite bind_run.
  unfold AgentPPO.call_get_reward_sum. run_get.
  cbn [self set_buffer]. rewrite Hnone. reflexivity.
Qed.

End Shadowed.

(** X23. [AgentBase.__init__] stores [None] in the instance attributes
    [get_obj_critic_per], [get_reward_sum_raw] and [get_reward_sum_gae],
    which hide the methods of those names, and the [init] methods bind
    [get_obj_critic] (under [if_use_per]) and [get_reward_sum] (in
    [AgentSharedPPO]) to what those attributes hold.  So on an agent as
    [__init__] and an [init] with [if_use_per] leave it, [update_net] of
    [AgentDQN], [AgentDDPG], [AgentTD3], [AgentSAC] and [AgentModSAC]
    refreshes the buffer length and raises [TypeError] in the first pass of
    its loop, whenever there is one, before any call on a network; and so
    does [update_net] of [AgentSharedPPO], for either flag, on a buffer that
    is not empty. *)
Theorem update_net_with_shadowed_method_raises :
  forall (C : Collaborators) (bs : Z) (rt : number) (tau : R) (w w0 : world) (d : Z)
         (n : Z),
    let w' := set_buffer (update_now_len (buffer w)) w in
    (get_obj_critic_per (bound (self w0)) = None ->
     (update_bound (now_len (buffer w')) bs rt = Ok n -> (1 <= n)%Z ->
      (bound (self w) = bound (self (AgentDQN.init d true w0)) ->
       AgentDQN.update_net bs rt tau w = (Raise TypeError, w')) /\
      (bound (self w) = bound (self (AgentDDPG.init d true w0)) ->
       AgentDDPG.update_net bs rt tau w = (Raise TypeError, w')) /\
      (bound (self w) = bound (self (AgentTD3.init d true w0)) ->
       AgentTD3.update_net bs rt tau w = (Raise TypeError, w'))) /\
     (AgentSAC.update_bound_sac (now_len (buffer w')) bs rt = Ok n ->
      ((1 <= n)%Z ->
       bound (self w) = bound (self (AgentSAC.init d true w0)) ->
       AgentSAC.update_net bs rt tau w = (Raise TypeError, w')) /\
      ((2 <= n)%Z ->
       bound (self w) = bound (self (AgentModSAC.init d true w0)) ->
       AgentModSAC.update_net bs rt tau w = (Raise TypeError, w')))) /\
    (forall per,
       get_reward_sum_raw (bound (self w0)) = None ->
       get_reward_sum_gae (bound (self w0)) = None ->
       bound (self w) = bound (self (AgentSharedPPO.init per w0)) ->
       ary_state (sample_all (buffer w')) <> [] ->
       AgentSharedPPO.update_net bs rt w = (Raise TypeError, w')).
Proof.
  intros C bs rt tau w w0 d n. cbn zeta. cbn [buffer set_buffer]. split.
  - intros H0. split.
    + intros Hn H1. repeat split; intros Hb.
      * now apply dqn_update_net_shadowed with w0 d n.
      * now apply ddpg_update_net_shadowed with w0 d n.
      * now apply td3_update_net_shadowed with w0 d n.
    + intros Hn. split; intros H1 Hb.
      * now apply sac_update_net_shadowed with w0 d n.
      * now apply modsac_update_net_shadowed with w0 d n.
  - intros per Hr Hg Hb Hne. now apply shared_ppo_update_net_shadowed with w0 per.
Qed.

(** The default [AgentDQN] as [init] leaves it under [if_use_per], on four
    samples in batches of two. *)
Lemma update_net_with_shadowed_method_raises_witness :
  AgentDQN.update_net 2 (PyInt 1) 0.5
    (AgentDQN.init 2 true (toy_world AgentDQN.__init__ 4))
  = (Raise TypeError,
     set_buffer
       (update_now_len (buffer (AgentDQN.init 2 true (toy_world AgentDQN.__init__ 4))))
       (AgentDQN.init 2 true (toy_world AgentDQN.__init__ 4))).
Proof.
  apply (proj1 (proj1 (proj1 (update_net_with_shadowed_method_raises toy 2%Z (PyInt 1) 0.5
                                (AgentDQN.init 2 true (toy_world AgentDQN.__init__ 4))
                                (toy_world AgentDQN.__init__ 4) 2%Z 2%Z) eq_refl)
                  eq_refl ltac:(lia))).
  reflexivity.
Defined.

(** ** Soft update at the ends of the range of [tau] *)

Section SoftUpdateEnds.
Context {C : Collaborators}.

Lemma blend_one (t c : tensor) : length t = length c -> blend 1 t c = c.
Proof.
  unfold blend, tmap2. revert c.
  induction t as [|x t IH]; intros [|y c] H; cbn in *; try discriminate; [reflexivity|].
  rewrite IH by lia. f_equal. lra.
Qed.

Lemma blend_zero (t c : tensor) : length t = length c -> blend 0 t c = t.
Proof.
  unfold blend, tmap2. revert c.
  induction t as [|x t IH]; intros [|y c] H; cbn in *; try discriminate; [reflexivity|].
  rewrite IH by lia. f_equal. lra.
Qed.

Lemma soft_update_params_one target current :
  same_shape target current -> soft_update_params target current 1 = current.
Proof.
  intros H. induction H as [|t c ts cs Hl Hs IH]; cbn; [reflexivity|].
  now rewrite blend_one, IH.
Qed.

Lemma soft_update_params_zero target current :
  same_shape target current -> soft_update_params target current 0 = target.
Proof.
  intros H. induction H as [|t c ts cs Hl Hs IH]; cbn; [reflexivity|].
  now rewrite blend_zero, IH.
Qed.

(** X21. On a target of the shape of the online network, [soft_update] with
    [tau = 1] is a hard copy: the target holds the parameters of the online
    network afterwards; with [tau = 0] it leaves every network as it was.
    With a network attribute that is still [None] it raises
    [AttributeError] and writes nothing. *)
Theorem soft_update_at_the_ends_of_tau :
  forall (w : world) (t c : net_obj) (tau : R),
    (same_shape (nets w t) (nets w c) ->
     nets (snd (soft_update (Some t) (Some c) 1 w)) t = nets w c /\
     (forall m, nets (snd (soft_update (Some t) (Some c) 0 w)) m = nets w m)) /\
    soft_update None (Some c) tau w = (Raise AttributeError, w) /\
    soft_update (Some t) None tau w = (Raise AttributeError, w).
Proof.
  intros w t c tau. split; [|split; reflexivity].
  intros Hs. rewrite !soft_update_run. cbn [snd nets set_nets]. split.
  - unfold upd_net. rewrite net_obj_eqb_refl. now apply soft_update_params_one.
  - intros m. unfold upd_net. destruct (net_obj_eqb m t) eqn:E; [|reflexivity].
    apply net_obj_eqb_eq in E. subst m. now apply soft_update_params_zero.
Qed.

End SoftUpdateEnds.

Lemma soft_update_at_the_ends_of_tau_witness :
  nets (snd (soft_update (Some ObjCriCopy) (Some ObjCri) 1 toy_pair)) ObjCriCopy
  = nets toy_pair ObjCri /\
  (forall m, nets (snd (soft_update (Some ObjCriCopy) (Some ObjCri) 0 toy_pair)) m
             = nets toy_pair m).
Proof.
  apply (proj1 (soft_update_at_the_ends_of_tau toy_pair ObjCriCopy ObjCri 0)).
  repeat constructor.
Defined.

(** ** The chunks of the value pass *)

Section Chunks.
Context {C : Collaborators}.

Lemma chunk_count_step n bs :
  (0 < bs)%nat -> (0 < n)%nat ->
  ((n + bs - 1) / bs = S ((n - bs + bs - 1) / bs))%nat.
Proof.
  intros Hbs Hn. destruct (Nat.le_gt_cases bs n) as [Hle|Hlt].
  - replace (n + bs - 1)%nat with ((n - bs + bs - 1) + 1 * bs)%nat by lia.
    rewrite Nat.div_add by lia. lia.
  - replace (n - bs)%nat with 0%nat by lia.
    rewrite (Nat.div_small (0 + bs - 1) bs) by lia.
    assert (H : ((n + bs - 1) / bs = 1)%nat); [|exact H].
    symmetry. apply (Nat.div_unique _ _ _ (n - 1)); lia.
Qed.

Lemma chunks_concat {A B} (f : list A -> list B) bs :
  (0 < bs)%nat ->
  (forall a b, f (a ++ b) = f a ++ f b) ->
  forall n (t : list A), length t = n ->
    concat (map (fun i => f (firstn bs (skipn i t))) (AgentPPO.chunk_starts n bs)) = f t.
Proof.
  intros Hbs Hf.
  assert (Hnil : f [] = []).
  { pose proof (Hf [] []) as H. cbn in H. apply (f_equal (@length B)) in H.
    rewrite length_app in H. destruct (f []); [reflexivity|cbn in H; lia]. }
  induction n as [n IH] using lt_wf_ind. intros t Ht.
  destruct (Nat.eq_dec n 0) as [Hz|Hnz].
  - subst n. rewrite Hz, chunk_starts_empty by assumption.
    apply length_zero_iff_nil in Hz. subst t. now rewrite Hnil.
  - unfold AgentPPO.chunk_starts.
    rewrite chunk_count_step by lia.
    cbn [seq map concat]. rewrite Nat.mul_0_l. cbn [skipn].
    rewrite <- seq_shift, map_map, map_map.
    transitivity (f (firstn bs t ++ skipn bs t)); [|now rewrite firstn_skipn].
    rewrite Hf. f_equal.
    specialize (IH (n - bs)%nat ltac:(lia) (skipn bs t)
                  ltac:(rewrite length_skipn; lia)).
    unfold AgentPPO.chunk_starts in IH. rewrite map_map in IH.
    rewrite <- IH. f_equal. apply map_ext. intros k.
    replace (S k * bs)%nat with (k * bs + bs)%nat by lia.
    now rewrite skipn_skipn.
Qed.

(** X22. The slices [t[i:i + bs]] for [i] in [range(0, n, bs)] that
    [update_net] of [AgentPPO] and [AgentSharedPPO] hands to the critic
    partition the [n] states: joined in order they are the buffer, each
    state once. For a critic that values every row by itself, the chunked
    pass therefore returns what one pass over the whole buffer returns. *)
Theorem chunked_value_pass_covers_the_buffer :
  forall (net : params) (t : matrix) (bs : nat),
    (0 < bs)%nat ->
    concat (map (fun i => firstn bs (skipn i t)) (AgentPPO.chunk_starts (length t) bs)) = t /\
    ((forall a b, forward net (a ++ b) = forward net a ++ forward net b) ->
     AgentPPO.eval_chunks net t (length t) bs = forward net t).
Proof.
  intros net t bs Hbs. split.
  - apply (chunks_concat (fun x : matrix => x) bs Hbs); auto.
  - intros Hf. unfold AgentPPO.eval_chunks. now apply chunks_concat.
Qed.

End Chunks.

Lemma chunked_value_pass_covers_the_buffer_witness :
  concat (map (fun i => firstn 2 (skipn i [[1]; [2]; [3]]))
            (AgentPPO.chunk_starts (length [[1]; [2]; [3]]) 2)) = [[1]; [2]; [3]] /\
  @AgentPPO.eval_chunks toy [] [[1]; [2]; [3]] 3 2 = @forward toy [] [[1]; [2]; [3]].
Proof.
  destruct (@chunked_value_pass_covers_the_buffer toy [] [[1]; [2]; [3]] 2%nat) as [H1 H2];
    [lia|].
  split; [exact H1|]. apply H2. intros a b. cbn. apply map_app.
Defined.
